(** * goSAM: a shallow embedding of [sam.go] and its specification

    [sam.go] holds two revisions of the package; this development embeds the
    later one, in which the validators return an error value and
    [ReadSAMFile] validates every record and tracks the identifiers that
    must be unique.  It follows the layout of the Go source:
    - the pieces of the Go run time and standard library that [sam.go]
      calls ([strings.Split], [strconv.Atoi], integer conversions,
      [regexp.Match], indexing and slicing with their run-time panics);
    - the record types and, for each of them, its validator and parser;
    - the scan driver [ReadSAMFile], and the opening and the reading of
      its file ([os.Open], [bufio.Reader.ReadLine]);
    - the properties of the specification, stated on these definitions. *)

From Stdlib Require Import ZArith Ascii String List Lia Bool.
From stdpp Require Import base option list gmap strings.
Import ListNotations.

Local Open Scope string_scope.
Local Open Scope Z_scope.

(** ** Run-time panics

    Indexing or slicing out of range does not return in Go: it raises a
    run-time panic, and [sam.go] never recovers from one.  A computation
    either is [Done] with a value or has [Panic]ked. *)

Inductive fault : Type :=
| IndexOutOfRange
| SliceBoundsOutOfRange.

Inductive exec (A : Type) : Type :=
| Done (a : A)
| Panic (f : fault).
Arguments Done {A} a.
Arguments Panic {A} f.

#[global] Instance exec_ret : MRet exec := fun A a => Done a.
#[global] Instance exec_bind : MBind exec := fun A B k m =>
  match m with
  | Done a => k a
  | Panic f => Panic f
  end.

(** [for _, x := range xs { acc = body(acc, x) }] where the body may panic. *)
Fixpoint rangeM {A B : Type} (body : B -> A -> exec B) (xs : list A) (acc : B) : exec B :=
  match xs with
  | [] => Done acc
  | x :: xs' => acc' ← body acc x; rangeM body xs' acc'
  end.

(** [xs[i]] *)
Definition index {A : Type} (xs : list A) (i : nat) : exec A :=
  match xs !! i with
  | Some x => Done x
  | None => Panic IndexOutOfRange
  end.

(** [xs[1:]]: panics on an empty slice. *)
Definition sliceFrom1 {A : Type} (xs : list A) : exec (list A) :=
  match xs with
  | [] => Panic SliceBoundsOutOfRange
  | _ :: t => Done t
  end.

(** [s[1:3]] on a string: the two bytes at offsets 1 and 2; panics when the
    string has fewer than three bytes. *)
Definition slice_1_3 (s : string) : exec string :=
  match s with
  | String _ (String a (String b _)) => Done (String a (String b EmptyString))
  | _ => Panic SliceBoundsOutOfRange
  end.

(** ** [strings.Split]

    [strings.Split(s, sep)] for a one-byte separator: the substrings between
    the separators, in order.  The result always has at least one element
    (it is [[s]] when [s] does not contain the separator, also for the empty
    string). *)

Definition TAB : ascii := ascii_of_nat 9.
Definition COLON : ascii := ":"%char.

Fixpoint Split (s : string) (sep : ascii) : list string :=
  match s with
  | EmptyString => [EmptyString]
  | String c s' =>
      if Ascii.eqb c sep then EmptyString :: Split s' sep
      else match Split s' sep with
           | h :: t => String c h :: t
           | [] => [String c EmptyString]
           end
  end.

(** The inverse, [strings.Join], used to write lines from their fields. *)
Fixpoint Join (fields : list string) (sep : ascii) : string :=
  match fields with
  | [] => EmptyString
  | [f] => f
  | f :: fs => f ++ String sep (Join fs sep)
  end.

(** ** [strconv.Atoi] and the integer conversions

    [int] is 64 bits wide ([strconv.IntSize] on amd64 and arm64).
    [Atoi(s)] is [ParseInt(s, 10, 0)] converted to [int].  [ParseInt] takes
    an optional sign off and calls [ParseUint], whose loop is reproduced
    here: a byte that is not a digit is a syntax error (value 0); when the
    accumulated value leaves the range the loop stops AT ONCE with the
    largest value and a range error, without looking at the bytes that
    follow. *)

Inductive numError : Type :=
| ErrSyntax
| ErrRange.

Definition IntSize : Z := 64.
Definition maxUint64 : Z := 2 ^ 64 - 1.

Definition byteval (c : ascii) : Z := Z.of_N (N_of_ascii c).

Definition isDigit (c : ascii) : bool :=
  (48 <=? byteval c) && (byteval c <=? 57).

Fixpoint ParseUint_loop (s : string) (n : Z) : Z * option numError :=
  match s with
  | EmptyString => (n, None)
  | String c s' =>
      if isDigit c then
        let d := byteval c - 48 in
        let cutoff := maxUint64 / 10 + 1 in
        let maxVal := 2 ^ IntSize - 1 in
        if n >=? cutoff then (maxVal, Some ErrRange)
        else
          let n10 := n * 10 in
          let n1 := (n10 + d) mod 2 ^ 64 in
          if (n1 <? n10) || (n1 >? maxVal) then (maxVal, Some ErrRange)
          else ParseUint_loop s' n1
      else (0, Some ErrSyntax)
  end.

Definition ParseUint (s : string) : Z * option numError :=
  match s with
  | EmptyString => (0, Some ErrSyntax)
  | _ => ParseUint_loop s 0
  end.

Definition ParseInt (s : string) : Z * option numError :=
  match s with
  | EmptyString => (0, Some ErrSyntax)
  | String c0 rest =>
      let neg := Ascii.eqb c0 "-" in
      let digits := if Ascii.eqb c0 "+" || Ascii.eqb c0 "-" then rest else s in
      match ParseUint digits with
      | (_, Some ErrSyntax) => (0, Some ErrSyntax)
      | (un, _) =>
          let cutoff := 2 ^ (IntSize - 1) in
          if negb neg && (un >=? cutoff) then (cutoff - 1, Some ErrRange)
          else if neg && (un >? cutoff) then (- cutoff, Some ErrRange)
          else (if neg then - un else un, None)
      end
  end.

Definition Atoi (s : string) : Z * option numError := ParseInt s.
#[global] Arguments Atoi : simpl never.

(** Conversions of an [int] to the narrower integer types keep the low bits
    (two's complement for the signed one). *)
Definition uint8 (v : Z) : Z := v mod 2 ^ 8.
Definition uint16 (v : Z) : Z := v mod 2 ^ 16.
Definition uint32 (v : Z) : Z := v mod 2 ^ 32.
Definition int32 (v : Z) : Z := (v + 2 ^ 31) mod 2 ^ 32 - 2 ^ 31.

(** ** [regexp.Match]

    [regexp.Match(pattern, b)] compiles [pattern] and reports whether [b]
    contains any match of it.  When the pattern does not compile the result
    is [(false, err)]; [sam.go] discards the error and keeps the [false].

    The model has the three stages of the library: decoding of UTF-8 (the
    subject is matched rune by rune), the parser of [regexp/syntax] for the
    operators that the patterns of [sam.go] use, and the match itself, done
    here with derivatives. *)

Definition rune : Type := Z.
Definition RuneError : rune := 65533.

Definition cont (b : Z) : bool := (128 <=? b) && (b <=? 191).
Definition low6 (b : Z) : Z := Z.land b 63.

(** [utf8.DecodeRune] applied along the string: an ill-formed sequence
    yields [RuneError] and consumes one byte. *)
Fixpoint decodeRunes (bs : list Z) : list rune :=
  match bs with
  | [] => []
  | b0 :: t0 =>
      if b0 <? 128 then b0 :: decodeRunes t0
      else
        match t0 with
        | [] => [RuneError]
        | b1 :: t1 =>
            if (194 <=? b0) && (b0 <=? 223) then
              if cont b1
              then Z.lor (Z.shiftl (Z.land b0 31) 6) (low6 b1) :: decodeRunes t1
              else RuneError :: decodeRunes t0
            else
              match t1 with
              | [] => RuneError :: decodeRunes t0
              | b2 :: t2 =>
                  if (224 <=? b0) && (b0 <=? 239) then
                    let lo := if b0 =? 224 then 160 else 128 in
                    let hi := if b0 =? 237 then 159 else 191 in
                    if (lo <=? b1) && (b1 <=? hi) && cont b2
                    then Z.lor (Z.shiftl (Z.land b0 15) 12)
                           (Z.lor (Z.shiftl (low6 b1) 6) (low6 b2)) :: decodeRunes t2
                    else RuneError :: decodeRunes t0
                  else
                    match t2 with
                    | [] => RuneError :: decodeRunes t0
                    | b3 :: t3 =>
                        if (240 <=? b0) && (b0 <=? 244) then
                          let lo := if b0 =? 240 then 144 else 128 in
                          let hi := if b0 =? 244 then 143 else 191 in
                          if (lo <=? b1) && (b1 <=? hi) && cont b2 && cont b3
                          then Z.lor (Z.shiftl (Z.land b0 7) 18)
                                 (Z.lor (Z.shiftl (low6 b1) 12)
                                    (Z.lor (Z.shiftl (low6 b2) 6) (low6 b3)))
                                 :: decodeRunes t3
                          else RuneError :: decodeRunes t0
                        else RuneError :: decodeRunes t0
                    end
              end
        end
  end.

Fixpoint bytes (s : string) : list Z :=
  match s with
  | EmptyString => []
  | String c s' => byteval c :: bytes s'
  end.

Definition runes (s : string) : list rune := decodeRunes (bytes s).

(** The regular expressions of [regexp/syntax], as far as the patterns of
    [sam.go] reach.  [NoMatch] only arises as a derivative. *)
Inductive regex : Type :=
| NoMatch
| EmptyMatch
| Literal (c : rune)
| CharClass (negated : bool) (ranges : list (rune * rune))
| AnyCharNotNL
| AnyChar
| BeginText
| EndText
| Concat (r1 r2 : regex)
| Alternate (r1 r2 : regex)
| Star (r : regex)
| Plus (r : regex)
| Quest (r : regex).

Inductive parseError : Type :=
| ErrMissingRepeatArgument
| ErrInvalidRepeatOp
| ErrMissingParen
| ErrUnexpectedParen
| ErrMissingBracket
| ErrInvalidCharRange
| ErrTrailingBackslash
| Unsupported
| OutOfFuel.

Definition code (c : ascii) : rune := byteval c.

Inductive parsed (A : Type) : Type :=
| Parsed (a : A)
| SyntaxError (e : parseError).
Arguments Parsed {A} a.
Arguments SyntaxError {A} e.

(** A concatenation and an alternation from their parts, as the parser's
    [concat] and [alternate] build them when a group or the pattern ends. *)
Fixpoint mkConcat (items : list regex) : regex :=
  match items with
  | [] => EmptyMatch
  | [r] => r
  | r :: rs => Concat r (mkConcat rs)
  end.

Fixpoint mkAlternate (alts : list regex) : regex :=
  match alts with
  | [] => NoMatch
  | [r] => r
  | r :: rs => Alternate r (mkAlternate rs)
  end.

(** The body of a bracket expression after the opening bracket and the
    optional caret: single runes and ranges [lo-hi] up to the closing
    bracket, which is an ordinary rune when it comes first; a dash before
    the closing bracket is an ordinary rune too. *)
Fixpoint parseClassItems (t : list rune) (first : bool) (acc : list (rune * rune))
  : parsed (list (rune * rune) * list rune) :=
  match t with
  | [] => SyntaxError ErrMissingBracket
  | c :: t1 =>
      if (c =? code "]") && negb first then Parsed (acc, t1)
      else if c =? code "\" then SyntaxError Unsupported
      else if (c =? code "[") && (match t1 with h :: _ => h =? code ":" | [] => false end)
      then SyntaxError Unsupported
      else
        match t1 with
        | d :: h :: t3 =>
            if (d =? code "-") && negb (h =? code "]") then
              if h =? code "\" then SyntaxError Unsupported
              else if h <? c then SyntaxError ErrInvalidCharRange
              else parseClassItems t3 false (acc ++ [(c, h)])
            else parseClassItems t1 false (acc ++ [(c, c)])
        | _ => parseClassItems t1 false (acc ++ [(c, c)])
        end
  end.

Definition isAlnum (c : rune) : bool :=
  ((48 <=? c) && (c <=? 57)) || ((65 <=? c) && (c <=? 90)) || ((97 <=? c) && (c <=? 122)).

(** The main loop of [syntax.Parse] under the flags of [regexp.Compile]
    ([syntax.Perl]).  [outer] holds the enclosing groups, [alts] the finished
    alternatives of the current group and [items] (latest first) the pieces
    of the alternative being read; [lastRepeat] tells that the previous
    operator was a repetition.  A repetition operator needs a piece to apply
    to: at the start of the pattern, of a group or of an alternative it is
    the error "missing argument to repetition operator". *)
Fixpoint parseLoop (fuel : nat) (t : list rune)
    (outer : list (list regex * list regex)) (alts items : list regex)
    (lastRepeat : bool) : parsed regex :=
  match fuel with
  | O => SyntaxError OutOfFuel
  | S fuel' =>
      match t with
      | [] =>
          match outer with
          | [] => Parsed (mkAlternate (alts ++ [mkConcat (rev items)]))
          | _ :: _ => SyntaxError ErrMissingParen
          end
      | c :: t1 =>
          let push r rest := parseLoop fuel' rest outer alts (r :: items) false in
          if c =? code "(" then
            if match t1 with q :: _ => q =? code "?" | [] => false end
            then SyntaxError Unsupported
            else parseLoop fuel' t1 ((alts, items) :: outer) [] [] false
          else if c =? code "|" then
            parseLoop fuel' t1 outer (alts ++ [mkConcat (rev items)]) [] false
          else if c =? code ")" then
            match outer with
            | [] => SyntaxError ErrUnexpectedParen
            | (alts0, items0) :: outer' =>
                parseLoop fuel' t1 outer' alts0
                  (mkAlternate (alts ++ [mkConcat (rev items)]) :: items0) false
            end
          else if c =? code "^" then push BeginText t1
          else if c =? code "$" then push EndText t1
          else if c =? code "." then push AnyCharNotNL t1
          else if c =? code "[" then
            let '(neg, t2) :=
              match t1 with
              | h :: t2 => if h =? code "^" then (true, t2) else (false, t1)
              | [] => (false, t1)
              end in
            match parseClassItems t2 true [] with
            | SyntaxError e => SyntaxError e
            | Parsed (rs, rest) => push (CharClass neg rs) rest
            end
          else if (c =? code "*") || (c =? code "+") || (c =? code "?") then
            let op := if c =? code "*" then Star else if c =? code "+" then Plus else Quest in
            let rest :=
              match t1 with
              | q :: t2 => if q =? code "?" then t2 else t1
              | [] => t1
              end in
            if lastRepeat then SyntaxError ErrInvalidRepeatOp
            else
              match items with
              | [] => SyntaxError ErrMissingRepeatArgument
              | r :: items' => parseLoop fuel' rest outer alts (op r :: items') true
              end
          else if c =? code "{" then SyntaxError Unsupported
          else if c =? code "\" then
            match t1 with
            | [] => SyntaxError ErrTrailingBackslash
            | e :: t2 =>
                if e =? code "d" then push (CharClass false [(48, 57)]) t2
                else if (e <? 128) && negb (isAlnum e) then push (Literal e) t2
                else SyntaxError Unsupported
            end
          else push (Literal c) t1
      end
  end.

(** Patterns are modelled as far as they are ASCII, which those of [sam.go]
    are; a rune of the pattern is then a byte of it. *)
Definition Parse (pattern : string) : parsed regex :=
  let t := bytes pattern in
  if forallb (fun b => b <? 128) t
  then parseLoop (S (List.length t)) t [] [] [] false
  else SyntaxError Unsupported.

(** Matching.  [nullable r atBegin atEnd] tells whether [r] matches the
    empty string at a position that is the beginning and/or the end of the
    text; [deriv c r atBegin] is what remains to be matched after [r] has
    read the rune [c]. *)
Definition inRanges (c : rune) (ranges : list (rune * rune)) : bool :=
  existsb (fun '(lo, hi) => (lo <=? c) && (c <=? hi)) ranges.

Fixpoint nullable (r : regex) (atBegin atEnd : bool) : bool :=
  match r with
  | NoMatch | Literal _ | CharClass _ _ | AnyCharNotNL | AnyChar => false
  | EmptyMatch => true
  | BeginText => atBegin
  | EndText => atEnd
  | Concat r1 r2 => nullable r1 atBegin atEnd && nullable r2 atBegin atEnd
  | Alternate r1 r2 => nullable r1 atBegin atEnd || nullable r2 atBegin atEnd
  | Star _ | Quest _ => true
  | Plus r1 => nullable r1 atBegin atEnd
  end.

Definition cat (r1 r2 : regex) : regex :=
  match r1 with
  | NoMatch => NoMatch
  | EmptyMatch => r2
  | _ => Concat r1 r2
  end.

Definition alt (r1 r2 : regex) : regex :=
  match r1, r2 with
  | NoMatch, _ => r2
  | _, NoMatch => r1
  | _, _ => Alternate r1 r2
  end.

Fixpoint deriv (c : rune) (r : regex) (atBegin : bool) : regex :=
  match r with
  | NoMatch | EmptyMatch | BeginText | EndText => NoMatch
  | Literal x => if c =? x then EmptyMatch else NoMatch
  | CharClass neg ranges => if xorb neg (inRanges c ranges) then EmptyMatch else NoMatch
  | AnyCharNotNL => if c =? 10 then NoMatch else EmptyMatch
  | AnyChar => EmptyMatch
  | Concat r1 r2 =>
      alt (cat (deriv c r1 atBegin) r2)
          (if nullable r1 atBegin false then deriv c r2 atBegin else NoMatch)
  | Alternate r1 r2 => alt (deriv c r1 atBegin) (deriv c r2 atBegin)
  | Star r1 => cat (deriv c r1 atBegin) (Star r1)
  | Plus r1 => cat (deriv c r1 atBegin) (Star r1)
  | Quest r1 => deriv c r1 atBegin
  end.

Fixpoint matchHere (r : regex) (s : list rune) (atBegin : bool) : bool :=
  match s with
  | [] => nullable r atBegin true
  | c :: s' => matchHere (deriv c r atBegin) s' false
  end.

(** A match may start and end anywhere in the text. *)
Definition search (r : regex) (s : list rune) : bool :=
  matchHere (Concat (Star AnyChar) (Concat r (Star AnyChar))) s true.

Definition regexpMatch (pattern b : string) : bool * option parseError :=
  match Parse pattern with
  | SyntaxError e => (false, Some e)
  | Parsed r => (search r (runes b), None)
  end.
#[global] Arguments regexpMatch : simpl never.

(** The meaning of the expressions, against which the matcher is checked
    below. *)
Definition isNil {A : Type} (l : list A) : bool :=
  match l with
  | [] => true
  | _ :: _ => false
  end.

(** [Matches r atBegin w atEnd]: the expression [r] matches the runes [w],
    where [atBegin] tells that [w] starts at the beginning of the text and
    [atEnd] that it ends at the end of the text. *)
Inductive Matches : regex -> bool -> list rune -> bool -> Prop :=
| M_EmptyMatch b e : Matches EmptyMatch b [] e
| M_Literal c b e : Matches (Literal c) b [c] e
| M_CharClass neg ranges c b e :
    xorb neg (inRanges c ranges) = true -> Matches (CharClass neg ranges) b [c] e
| M_AnyCharNotNL c b e : c <> 10 -> Matches AnyCharNotNL b [c] e
| M_AnyChar c b e : Matches AnyChar b [c] e
| M_BeginText e : Matches BeginText true [] e
| M_EndText b : Matches EndText b [] true
| M_Concat r1 r2 b w1 w2 e :
    Matches r1 b w1 (e && isNil w2) -> Matches r2 (b && isNil w1) w2 e ->
    Matches (Concat r1 r2) b (w1 ++ w2) e
| M_AlternateL r1 r2 b w e : Matches r1 b w e -> Matches (Alternate r1 r2) b w e
| M_AlternateR r1 r2 b w e : Matches r2 b w e -> Matches (Alternate r1 r2) b w e
| M_StarNone r b e : Matches (Star r) b [] e
| M_StarMore r b w1 w2 e :
    Matches r b w1 (e && isNil w2) -> Matches (Star r) (b && isNil w1) w2 e ->
    Matches (Star r) b (w1 ++ w2) e
| M_Plus r b w1 w2 e :
    Matches r b w1 (e && isNil w2) -> Matches (Star r) (b && isNil w1) w2 e ->
    Matches (Plus r) b (w1 ++ w2) e
| M_QuestNone r b e : Matches (Quest r) b [] e
| M_QuestOne r b w e : Matches r b w e -> Matches (Quest r) b w e.

(** The runes that the name pattern of [validateRefSeqDict] and the version
    pattern of [validateHeader] ask for. *)
Definition nameStart : list (rune * rune) := [(33, 41); (43, 60); (62, 126)].
Definition digits : list (rune * rune) := [(48, 57)].

(** ** Errors of the package *)

Inductive error : Type :=
| SAMerror (str : string).

(** ** Header line *)

Record HeaderLine : Type := mkHeaderLine {
  Version : string;
  SortOrder : string
}.

Definition validateHeader (hl : HeaderLine) : bool * option error :=
  let '(m, _) := regexpMatch "^[0-9]+.[0-9]+$" (Version hl) in
  if negb m then (m, Some (SAMerror "Invalid version in SAM Header"))
  else (m, None).

Definition hlParseMap : gmap string (string -> HeaderLine -> HeaderLine) :=
  list_to_map [
    ("VN", fun val hl => mkHeaderLine val (SortOrder hl));
    ("SO", fun val hl => mkHeaderLine (Version hl) val)
  ].

Definition parseHeader (line : string) : exec HeaderLine :=
  let tvs := Split line TAB in
  rest ← sliceFrom1 tvs;
  rangeM (fun hl tv =>
            let tva := Split tv COLON in
            tag ← index tva 0;
            val ← index tva 1;
            match hlParseMap !! tag with
            | Some parseFunc => Done (parseFunc val hl)
            | None => Done hl
            end)
         rest (mkHeaderLine "" "").

(** ** Reference sequence dictionary line *)

Record RefSeqDict : Type := mkRefSeqDict {
  Name : string;
  Length : Z;
  AssemblyID : string;
  MD5 : string;
  Species : string;
  URI : string
}.

Definition validateRefSeqDict (rsd : RefSeqDict) : bool * option error :=
  let '(m, _) := regexpMatch "[!-)+-<>-~][!-~]*" (Name rsd) in
  if negb m then (false, Some (SAMerror "Invalid reference sequence name"))
  else ((Length rsd >=? 1) && (Length rsd <=? 0x1FFFFFFF), None).

Definition parseRefSeqDict (line : string) : exec RefSeqDict :=
  let tvs := Split line TAB in
  rest ← sliceFrom1 tvs;
  rangeM (fun rsd tv =>
            let tva := Split tv COLON in
            tag ← index tva 0;
            if String.eqb tag "SN" then
              v ← index tva 1;
              Done (mkRefSeqDict v (Length rsd) (AssemblyID rsd) (MD5 rsd) (Species rsd) (URI rsd))
            else if String.eqb tag "LN" then
              s ← index tva 1;
              let '(v, _) := Atoi s in
              Done (mkRefSeqDict (Name rsd) (uint32 v) (AssemblyID rsd) (MD5 rsd) (Species rsd) (URI rsd))
            else if String.eqb tag "AS" then
              v ← index tva 1;
              Done (mkRefSeqDict (Name rsd) (Length rsd) v (MD5 rsd) (Species rsd) (URI rsd))
            else if String.eqb tag "M5" then
              v ← index tva 1;
              Done (mkRefSeqDict (Name rsd) (Length rsd) (AssemblyID rsd) v (Species rsd) (URI rsd))
            else if String.eqb tag "SP" then
              v ← index tva 1;
              Done (mkRefSeqDict (Name rsd) (Length rsd) (AssemblyID rsd) (MD5 rsd) v (URI rsd))
            else if String.eqb tag "UR" then
              v ← index tva 1;
              Done (mkRefSeqDict (Name rsd) (Length rsd) (AssemblyID rsd) (MD5 rsd) (Species rsd) v)
            else Done rsd)
         rest (mkRefSeqDict "" 0 "" "" "" "").

(** ** Read group line *)

Record ReadGroup : Type := mkReadGroup {
  RG_ID : string;
  SeqCenter : string;
  Description : string;
  Date : string;
  FlowOrder : string;
  KeySeq : string;
  Lib : string;
  Programs : string;
  PMIS : string;
  Platform : string;
  Unit : string;
  Sample : string
}.

Definition validPlatforms : gmap string bool :=
  list_to_map [
    ("CAPILLARY", true);
    ("LS454", true);
    ("ILLUMINA", true);
    ("SOLID", true);
    ("HELICOS", true);
    ("IONTORRENT", true);
    ("PACBIO", true)
  ].

(** [m[key]] on a [map[string]bool]: [false] for a key that is absent. *)
Definition lookupBool (m : gmap string bool) (key : string) : bool :=
  default false (m !! key).

Definition validateReadGroup (rg : ReadGroup) : bool * option error :=
  let flowOrderOK :=
    if negb (String.eqb (FlowOrder rg) "")
    then fst (regexpMatch "*|[ACMGRSVTWYHKDBN]+" (FlowOrder rg))
    else true in
  if negb flowOrderOK then (false, Some (SAMerror "Invalid flow order in read group"))
  else
    let platformOK :=
      if negb (String.eqb (Platform rg) "")
      then lookupBool validPlatforms (Platform rg)
      else true in
    if negb platformOK then (false, Some (SAMerror "Invalid platform in read group"))
    else (true, None).

Definition rgParseMap : gmap string (string -> ReadGroup -> ReadGroup) :=
  list_to_map [
    ("ID", fun s rg => mkReadGroup s (SeqCenter rg) (Description rg) (Date rg) (FlowOrder rg)
                         (KeySeq rg) (Lib rg) (Programs rg) (PMIS rg) (Platform rg) (Unit rg) (Sample rg));
    ("CN", fun s rg => mkReadGroup (RG_ID rg) s (Description rg) (Date rg) (FlowOrder rg)
                         (KeySeq rg) (Lib rg) (Programs rg) (PMIS rg) (Platform rg) (Unit rg) (Sample rg));
    ("DS", fun s rg => mkReadGroup (RG_ID rg) (SeqCenter rg) s (Date rg) (FlowOrder rg)
                         (KeySeq rg) (Lib rg) (Programs rg) (PMIS rg) (Platform rg) (Unit rg) (Sample rg));
    ("DT", fun s rg => mkReadGroup (RG_ID rg) (SeqCenter rg) (Description rg) s (FlowOrder rg)
                         (KeySeq rg) (Lib rg) (Programs rg) (PMIS rg) (Platform rg) (Unit rg) (Sample rg));
    ("FO", fun s rg => mkReadGroup (RG_ID rg) (SeqCenter rg) (Description rg) (Date rg) s
                         (KeySeq rg) (Lib rg) (Programs rg) (PMIS rg) (Platform rg) (Unit rg) (Sample rg));
    ("KS", fun s rg => mkReadGroup (RG_ID rg) (SeqCenter rg) (Description rg) (Date rg) (FlowOrder rg)
                         s (Lib rg) (Programs rg) (PMIS rg) (Platform rg) (Unit rg) (Sample rg));
    ("LB", fun s rg => mkReadGroup (RG_ID rg) (SeqCenter rg) (Description rg) (Date rg) (FlowOrder rg)
                         (KeySeq rg) s (Programs rg) (PMIS rg) (Platform rg) (Unit rg) (Sample rg));
    ("PG", fun s rg => mkReadGroup (RG_ID rg) (SeqCenter rg) (Description rg) (Date rg) (FlowOrder rg)
                         (KeySeq rg) (Lib rg) s (PMIS rg) (Platform rg) (Unit rg) (Sample rg));
    ("PI", fun s rg => mkReadGroup (RG_ID rg) (SeqCenter rg) (Description rg) (Date rg) (FlowOrder rg)
                         (KeySeq rg) (Lib rg) (Programs rg) s (Platform rg) (Unit rg) (Sample rg));
    ("PL", fun s rg => mkReadGroup (RG_ID rg) (SeqCenter rg) (Description rg) (Date rg) (FlowOrder rg)
                         (KeySeq rg) (Lib rg) (Programs rg) (PMIS rg) s (Unit rg) (Sample rg));
    ("PU", fun s rg => mkReadGroup (RG_ID rg) (SeqCenter rg) (Description rg) (Date rg) (FlowOrder rg)
                         (KeySeq rg) (Lib rg) (Programs rg) (PMIS rg) (Platform rg) s (Sample rg));
    ("SM", fun s rg => mkReadGroup (RG_ID rg) (SeqCenter rg) (Description rg) (Date rg) (FlowOrder rg)
                         (KeySeq rg) (Lib rg) (Programs rg) (PMIS rg) (Platform rg) (Unit rg) s)
  ].

Definition parseReadGroup (line : string) : exec ReadGroup :=
  let tvs := Split line TAB in
  rest ← sliceFrom1 tvs;
  rangeM (fun rg tv =>
            let tva := Split tv COLON in
            tag ← index tva 0;
            val ← index tva 1;
            match rgParseMap !! tag with
            | Some parseFunc => Done (parseFunc val rg)
            | None => Done rg
            end)
         rest (mkReadGroup "" "" "" "" "" "" "" "" "" "" "" "").

(** ** Program line *)

Record Program : Type := mkProgram {
  PG_ID : string;
  PG_Name : string;
  CmdLine : string;
  PrevID : string
}.

Definition validateProgram (prog : Program) : bool * option error :=
  if String.eqb (PG_ID prog) "" then (false, Some (SAMerror "Program ID is required"))
  else (true, None).

Definition programParseMap : gmap string (string -> Program -> Program) :=
  list_to_map [
    ("ID", fun s prog => mkProgram s (PG_Name prog) (CmdLine prog) (PrevID prog));
    ("PN", fun s prog => mkProgram (PG_ID prog) s (CmdLine prog) (PrevID prog));
    ("CL", fun s prog => mkProgram (PG_ID prog) (PG_Name prog) s (PrevID prog));
    ("PP", fun s prog => mkProgram (PG_ID prog) (PG_Name prog) (CmdLine prog) s)
  ].

Definition parseProgram (line : string) : exec Program :=
  let tvs := Split line TAB in
  rest ← sliceFrom1 tvs;
  rangeM (fun prog tv =>
            let tva := Split tv COLON in
            tag ← index tva 0;
            val ← index tva 1;
            match programParseMap !! tag with
            | Some parseFunc => Done (parseFunc val prog)
            | None => Done prog
            end)
         rest (mkProgram "" "" "" "").

(** ** Alignment line *)

Record Alignment : Type := mkAlignment {
  Qname : string;
  Flag : Z;
  RefName : string;
  Pos : Z;
  Mapq : Z;
  Cigar : string;
  NextRef : string;
  NextPos : Z;
  TemplateLen : Z;
  Seq : string;
  Qual : string
}.

Definition validateAlignment (a : Alignment) : bool * option error :=
  if negb (fst (regexpMatch "*|[!-?A-~]+" (Qname a)))
  then (false, Some (SAMerror "Invalid qname in alignment"))
  else if (Flag a <? 0) || (Flag a >? 0xFFFF)
  then (false, Some (SAMerror "Invalid flag in alignment"))
  else if negb (fst (regexpMatch "*|[!-()+-<>-~][!-~]*" (RefName a)))
  then (false, Some (SAMerror "Invalid reference sequence name in alignment"))
  else if (Pos a <? 0) || (Pos a >? 0x1FFFFFFF)
  then (false, Some (SAMerror "Alignment mapping position out of valid range"))
  else if (Mapq a <? 0) || (Mapq a >? 0xFF)
  then (false, Some (SAMerror "Alignment mapping quality out of valid range"))
  else if negb (fst (regexpMatch "*|([0-9]+[MIDNSHPX=])+" (Cigar a)))
  then (false, Some (SAMerror "Invalid CIGAR string in alignment"))
  else if negb (fst (regexpMatch "*|=|[!-()+-<>-~][!-~]*" (NextRef a)))
  then (false, Some (SAMerror "Invalid next reference name in alignment"))
  else if (NextPos a <? 0) || (NextPos a >? 0x1FFFFFFF)
  then (false, Some (SAMerror "Alignment mapping position out of valid range"))
  else if (TemplateLen a <? - 0x1FFFFFFF) || (TemplateLen a >? 0x1FFFFFFF)
  then (false, Some (SAMerror "Invalid template length"))
  else if negb (fst (regexpMatch "*|[A-Za-z=.]+" (Seq a)))
  then (false, Some (SAMerror "Invalid sequence in alignment"))
  else if negb (fst (regexpMatch "*|[!-~]+" (Qual a)))
  then (false, Some (SAMerror "Invalie Phred quality in alignment"))
  else (true, None).

Definition parseAlignment (line : string) : exec Alignment :=
  let fields := Split line TAB in
  qname ← index fields 0;
  f1 ← index fields 1;
  let '(flagVal, _) := Atoi f1 in
  refName ← index fields 2;
  f3 ← index fields 3;
  let '(posVal, _) := Atoi f3 in
  f4 ← index fields 4;
  let '(mapqVal, _) := Atoi f4 in
  cigar ← index fields 5;
  nextRef ← index fields 6;
  f7 ← index fields 7;
  let '(nextPosVal, _) := Atoi f7 in
  f8 ← index fields 8;
  let '(templateLenVal, _) := Atoi f8 in
  seq ← index fields 9;
  qual ← index fields 10;
  Done (mkAlignment qname (uint16 flagVal) refName (uint32 posVal) (uint8 mapqVal)
          cigar nextRef (uint32 nextPosVal) (int32 templateLenVal) seq qual).

(** ** The scan driver

    [ReadSAMFile] is modelled from the point where the file is open: its
    input is the sequence of lines that [reader.ReadLine] delivers.  The six
    values it returns are kept in a record; a [nil] pointer is [None] (an
    empty list that was allocated is [Some []]). *)

Record SAMFile : Type := mkSAMFile {
  ret_header : option HeaderLine;
  ret_rsdl : option (list RefSeqDict);
  ret_rgl : option (list ReadGroup);
  ret_progl : option (list Program);
  ret_al : option (list Alignment);
  ret_err : option error
}.

(** The variables of [ReadSAMFile] that live across iterations. *)
Record scan : Type := mkScan {
  header : option HeaderLine;
  rsdl : list RefSeqDict;
  rgl : list ReadGroup;
  progl : list Program;
  al : list Alignment;
  rsdNames : gmap string bool;
  rgIDs : gmap string bool;
  progIDs : gmap string bool
}.

Definition scan0 : scan := mkScan None [] [] [] [] ∅ ∅ ∅.

(** One iteration of the loop either goes on with the next line or leaves
    the function through a [return]. *)
Inductive control : Type :=
| Next (st : scan)
| Return (r : SAMFile).

Definition iteration (st : scan) (s : string) : exec control :=
  lineTag ← slice_1_3 s;
  if String.eqb lineTag "HD" then
    hl ← parseHeader s;
    let '(valid, err) := validateHeader hl in
    if negb valid then Done (Return (mkSAMFile (Some hl) None None None None err))
    else Done (Next (mkScan (Some hl) (rsdl st) (rgl st) (progl st) (al st)
                       (rsdNames st) (rgIDs st) (progIDs st)))
  else if String.eqb lineTag "SQ" then
    rsd ← parseRefSeqDict s;
    let '(valid, err) := validateRefSeqDict rsd in
    if negb valid then Done (Return (mkSAMFile (header st) None None None None err))
    else if lookupBool (rsdNames st) (Name rsd) then
      Done (Return (mkSAMFile (header st) (Some (rsdl st)) None None None
                      (Some (SAMerror "Reference sequence name is not unique"))))
    else Done (Next (mkScan (header st) (rsdl st ++ [rsd]) (rgl st) (progl st) (al st)
                       (<[Name rsd := true]> (rsdNames st)) (rgIDs st) (progIDs st)))
  else if String.eqb lineTag "RG" then
    rg ← parseReadGroup s;
    let '(valid, err) := validateReadGroup rg in
    if negb valid then
      Done (Return (mkSAMFile (header st) (Some (rsdl st)) (Some (rgl st)) None None err))
    else if lookupBool (rgIDs st) (RG_ID rg) then
      Done (Return (mkSAMFile (header st) (Some (rsdl st)) (Some (rgl st)) None None
                      (Some (SAMerror "Read group name is not unique"))))
    else Done (Next (mkScan (header st) (rsdl st) (rgl st ++ [rg]) (progl st) (al st)
                       (rsdNames st) (<[RG_ID rg := true]> (rgIDs st)) (progIDs st)))
  else if String.eqb lineTag "PG" then
    prog ← parseProgram s;
    let '(valid, err) := validateProgram prog in
    if negb valid then
      Done (Return (mkSAMFile (header st) (Some (rsdl st)) (Some (rgl st)) (Some (progl st)) None err))
    else if lookupBool (progIDs st) (PG_ID prog) then
      Done (Return (mkSAMFile (header st) (Some (rsdl st)) (Some (rgl st)) (Some (progl st)) None
                      (Some (SAMerror "Program ID is not unique"))))
    else Done (Next (mkScan (header st) (rsdl st) (rgl st) (progl st ++ [prog]) (al st)
                       (rsdNames st) (rgIDs st) (<[PG_ID prog := true]> (progIDs st))))
  else if String.eqb lineTag "CO" then
    Done (Next st)
  else
    a ← parseAlignment s;
    let '(valid, err) := validateAlignment a in
    if negb valid then
      Done (Return (mkSAMFile (header st) (Some (rsdl st)) (Some (rgl st)) (Some (progl st))
                      (Some (al st)) err))
    else Done (Next (mkScan (header st) (rsdl st) (rgl st) (progl st) (al st ++ [a])
                       (rsdNames st) (rgIDs st) (progIDs st))).

(** The loop over the lines.  When the lines are exhausted the function
    returns everything it has, with the [err] of [os.Open], which is [nil]
    there (the loop's own [err] is a different variable). *)
Fixpoint scanLines (st : scan) (lines : list string) : exec control :=
  match lines with
  | [] => Done (Next st)
  | s :: rest =>
      c ← iteration st s;
      match c with
      | Next st' => scanLines st' rest
      | Return r => Done (Return r)
      end
  end.

Definition ReadSAMFile (lines : list string) : exec SAMFile :=
  c ← scanLines scan0 lines;
  match c with
  | Next st =>
      Done (mkSAMFile (header st) (Some (rsdl st)) (Some (rgl st)) (Some (progl st))
              (Some (al st)) None)
  | Return r => Done r
  end.

(** ** Vocabulary of the specification

    The specification speaks of the record type of a line, of the fields of
    a line and of the records accumulated from a sequence of lines.  These
    notions are defined here from the code's own functions. *)

Fixpoint contains (c : ascii) (s : string) : bool :=
  match s with
  | EmptyString => false
  | String a s' => Ascii.eqb a c || contains c s'
  end.

(** A line written from its tab-separated fields. *)
Definition line (fields : list string) : string := Join fields TAB.

(** The record type that the [switch] of [ReadSAMFile] selects. *)
Inductive recordType : Type :=
| Header
| RefSeq
| ReadGrp
| Prog
| Comment
| Align.

#[global] Instance recordType_eq_dec : EqDecision recordType.
Proof. solve_decision. Defined.

Definition typeOfTag (lineTag : string) : recordType :=
  if String.eqb lineTag "HD" then Header
  else if String.eqb lineTag "SQ" then RefSeq
  else if String.eqb lineTag "RG" then ReadGrp
  else if String.eqb lineTag "PG" then Prog
  else if String.eqb lineTag "CO" then Comment
  else Align.

Definition classify (s : string) : exec recordType :=
  lineTag ← slice_1_3 s; Done (typeOfTag lineTag).

(** The records of each type that a sequence of lines contributes, in the
    order of the lines, and the header they leave. *)
Definition recordsOf {A : Type} (ty : recordType) (parse : string -> exec A)
    (lines : list string) : list A :=
  flat_map (fun s =>
              match classify s, parse s with
              | Done ty', Done r => if decide (ty' = ty) then [r] else []
              | _, _ => []
              end) lines.

Fixpoint lastHeader (lines : list string) (h0 : option HeaderLine) : option HeaderLine :=
  match lines with
  | [] => h0
  | s :: rest =>
      match classify s, parseHeader s with
      | Done Header, Done hl => lastHeader rest (Some hl)
      | _, _ => lastHeader rest h0
      end
  end.

(** The decimal reading of a numeric field, stated without the loop of
    [ParseUint]: an optional sign, then digits.  [digitPrefixValue] is the
    value of the leading digits, [isDecimal] tells that there is nothing
    else, and [storedInt] is the integer that this reading gives for a
    field: 0 for a field that is not a decimal integer (unless its leading
    digits already pass [2^64 - 1]), otherwise the value, brought into the
    range of [int]. *)
Fixpoint digitPrefixValue (s : string) (n : Z) : Z :=
  match s with
  | EmptyString => n
  | String c s' =>
      if isDigit c then digitPrefixValue s' (n * 10 + (byteval c - 48)) else n
  end.

Fixpoint allDigits (s : string) : bool :=
  match s with
  | EmptyString => true
  | String c s' => isDigit c && allDigits s'
  end.

Definition isNegative (s : string) : bool :=
  match s with
  | String c _ => Ascii.eqb c "-"
  | EmptyString => false
  end.

Definition unsignedPart (s : string) : string :=
  match s with
  | String c rest => if Ascii.eqb c "+" || Ascii.eqb c "-" then rest else s
  | EmptyString => EmptyString
  end.

Definition isDecimal (s : string) : bool :=
  let body := unsignedPart s in
  negb (String.eqb body "") && allDigits body.

Definition decimalValue (s : string) : Z :=
  let v := digitPrefixValue (unsignedPart s) 0 in
  if isNegative s then - v else v.

Definition MaxInt : Z := 2 ^ 63 - 1.
Definition MinInt : Z := - 2 ^ 63.

Definition clampInt (v : Z) : Z := Z.max MinInt (Z.min v MaxInt).

Definition storedInt (s : string) : Z :=
  if negb (isDecimal s) && (digitPrefixValue (unsignedPart s) 0 <? 2 ^ 64) then 0
  else clampInt (decimalValue s).

(** What a state holds after the lines [pre] have been scanned from [st0]:
    the last header of [pre], and the records of [pre] behind those of
    [st0], type by type. *)
Definition collected (st0 st : scan) (pre : list string) : Prop :=
  header st = lastHeader pre (header st0) /\
  rsdl st = (rsdl st0 ++ recordsOf RefSeq parseRefSeqDict pre)%list /\
  rgl st = (rgl st0 ++ recordsOf ReadGrp parseReadGroup pre)%list /\
  progl st = (progl st0 ++ recordsOf Prog parseProgram pre)%list /\
  al st = (al st0 ++ recordsOf Align parseAlignment pre)%list.

(** The map [rsdNames] holds exactly the names of the records in [rsdl],
    and no two of these records have the same name. *)
Definition namesTracked (st : scan) : Prop :=
  (forall k, lookupBool (rsdNames st) k = true <-> k ∈ map Name (rsdl st)) /\
  NoDup (map Name (rsdl st)).

(** The loop body shared by [parseHeader], [parseReadGroup] and
    [parseProgram], over the table of the record type. *)
Definition tagValueStep {R : Type} (table : gmap string (string -> R -> R))
    (acc : R) (tv : string) : exec R :=
  let tva := Split tv COLON in
  tag ← index tva 0;
  val ← index tva 1;
  match table !! tag with
  | Some parseFunc => Done (parseFunc val acc)
  | None => Done acc
  end.

(** The loop body of [parseRefSeqDict]. *)
Definition refSeqStep (rsd : RefSeqDict) (tv : string) : exec RefSeqDict :=
  let tva := Split tv COLON in
  tag ← index tva 0;
  if String.eqb tag "SN" then
    v ← index tva 1;
    Done (mkRefSeqDict v (Length rsd) (AssemblyID rsd) (MD5 rsd) (Species rsd) (URI rsd))
  else if String.eqb tag "LN" then
    s ← index tva 1;
    let '(v, _) := Atoi s in
    Done (mkRefSeqDict (Name rsd) (uint32 v) (AssemblyID rsd) (MD5 rsd) (Species rsd) (URI rsd))
  else if String.eqb tag "AS" then
    v ← index tva 1;
    Done (mkRefSeqDict (Name rsd) (Length rsd) v (MD5 rsd) (Species rsd) (URI rsd))
  else if String.eqb tag "M5" then
    v ← index tva 1;
    Done (mkRefSeqDict (Name rsd) (Length rsd) (AssemblyID rsd) v (Species rsd) (URI rsd))
  else if String.eqb tag "SP" then
    v ← index tva 1;
    Done (mkRefSeqDict (Name rsd) (Length rsd) (AssemblyID rsd) (MD5 rsd) v (URI rsd))
  else if String.eqb tag "UR" then
    v ← index tva 1;
    Done (mkRefSeqDict (Name rsd) (Length rsd) (AssemblyID rsd) (MD5 rsd) (Species rsd) v)
  else Done rsd.

Definition refSeqKeys : list string := ["SN"; "LN"; "AS"; "M5"; "SP"; "UR"].

Definition platformNames : list string :=
  ["CAPILLARY"; "LS454"; "ILLUMINA"; "SOLID"; "HELICOS"; "IONTORRENT"; "PACBIO"].

Definition tagCodes : list string := ["HD"; "SQ"; "RG"; "PG"; "CO"].

(** The header pattern as the comment on [HeaderLine.Version] documents it,
    with the dot escaped. *)
Definition documentedVersionPattern : string := "^[0-9]+\.[0-9]+$".

(** Lines used in the examples. *)
Definition hdLine : string := line ["@HD"; "VN:1.0"; "SO:coordinate"].
Definition sqLine : string := line ["@SQ"; "SN:chr1"; "LN:248956422"].
Definition alnLine : string :=
  line ["r001"; "99"; "chr1"; "7"; "30"; "8M"; "="; "37"; "39"; "TTAGATAA"; "*"].
Definition chr1Record : RefSeqDict := mkRefSeqDict "chr1" 248956422 "" "" "" "".

(** The state of the scan after [pre], when the scan gets that far. *)
Definition stateAfter (pre : list string) : scan :=
  match scanLines scan0 pre with
  | Done (Next st) => st
  | _ => scan0
  end.

Ltac tag_cases tag :=
  destruct (String.eqb tag "HD") eqn:?;
  [|destruct (String.eqb tag "SQ") eqn:?;
    [|destruct (String.eqb tag "RG") eqn:?;
      [|destruct (String.eqb tag "PG") eqn:?;
        [|destruct (String.eqb tag "CO") eqn:?]]]].

(** ** Vocabulary of the further properties *)

(** The identifiers of the read groups and of the programs seen so far. *)
Definition idsTracked (st : scan) : Prop :=
  ((forall k, lookupBool (rgIDs st) k = true <-> k ∈ map RG_ID (rgl st)) /\
   NoDup (map RG_ID (rgl st))) /\
  ((forall k, lookupBool (progIDs st) k = true <-> k ∈ map PG_ID (progl st)) /\
   NoDup (map PG_ID (progl st))).

(** Every record that the scan holds passed its validator, and the scan
    holds no alignment. *)
Definition allValid (st : scan) : Prop :=
  Forall (fun r => fst (validateRefSeqDict r) = true) (rsdl st) /\
  Forall (fun r => fst (validateReadGroup r) = true) (rgl st) /\
  Forall (fun r => fst (validateProgram r) = true) (progl st) /\
  al st = [].

Definition scanInv (st : scan) : Prop :=
  namesTracked st /\ idsTracked st /\ allValid st.

(** The collections of a result are, where they are set, those of the
    state [st]. *)
Definition returnedFrom (st : scan) (r : SAMFile) : Prop :=
  (forall L, ret_rsdl r = Some L -> L = rsdl st) /\
  (forall L, ret_rgl r = Some L -> L = rgl st) /\
  (forall L, ret_progl r = Some L -> L = progl st) /\
  (forall L, ret_al r = Some L -> L = al st).

(** The result of a scan that went through all the lines. *)
Definition completion (st : scan) : SAMFile :=
  mkSAMFile (header st) (Some (rsdl st)) (Some (rgl st)) (Some (progl st)) (Some (al st)) None.

(** The errors that the scan can return. *)
Definition scanErrors : list error :=
  [SAMerror "Invalid version in SAM Header";
   SAMerror "Invalid reference sequence name";
   SAMerror "Reference sequence name is not unique";
   SAMerror "Invalid flow order in read group";
   SAMerror "Invalid platform in read group";
   SAMerror "Read group name is not unique";
   SAMerror "Program ID is required";
   SAMerror "Program ID is not unique";
   SAMerror "Invalid qname in alignment"].

(** A string that can stand as a key or as a value of a field: it has no
    tab and no colon. *)
Definition plain (s : string) : Prop :=
  contains TAB s = false /\ contains COLON s = false.

(** Lines written from a record, one field KEY:VALUE per string field, in
    the order of the struct. *)
Definition writeHeader (hl : HeaderLine) : string :=
  line ["@HD"; "VN:" ++ Version hl; "SO:" ++ SortOrder hl].

Definition writeProgram (prog : Program) : string :=
  line ["@PG"; "ID:" ++ PG_ID prog; "PN:" ++ PG_Name prog; "CL:" ++ CmdLine prog;
        "PP:" ++ PrevID prog].

Definition writeReadGroup (rg : ReadGroup) : string :=
  line ["@RG"; "ID:" ++ RG_ID rg; "CN:" ++ SeqCenter rg; "DS:" ++ Description rg;
        "DT:" ++ Date rg; "FO:" ++ FlowOrder rg; "KS:" ++ KeySeq rg; "LB:" ++ Lib rg;
        "PG:" ++ Programs rg; "PI:" ++ PMIS rg; "PL:" ++ Platform rg; "PU:" ++ Unit rg;
        "SM:" ++ Sample rg].

(** ** The earlier revision

    The first half of [sam.go] is the earlier revision of the package.  Its
    parsers are those of the later revision, to the letter; its validators
    return a [bool] only, and its [ReadSAMFile] does not call them: it parses
    every line and keeps every record. *)
Module Rev1.

Definition validateHeader (hl : HeaderLine) : bool :=
  let '(m, _) := regexpMatch "^[0-9]+.[0-9]+$" (Version hl) in m.

Definition validateRefSeqDict (rsd : RefSeqDict) : bool :=
  let '(m, _) := regexpMatch "[!-)+-<>-~][!-~]*" (Name rsd) in
  if negb m then false
  else (Length rsd >=? 1) && (Length rsd <=? 0x1FFFFFFF).

Definition validateReadGroup (rg : ReadGroup) : bool :=
  if negb (String.eqb (FlowOrder rg) "")
  then fst (regexpMatch "*|[ACMGRSVTWYHKDBN]+" (FlowOrder rg))
  else true.

Definition validateProgram (prog : Program) : bool :=
  negb (String.eqb (PG_ID prog) "").

(** The variables of [ReadSAMFile] that live across iterations. *)
Record lists : Type := mkLists {
  header : option HeaderLine;
  rsdl : list RefSeqDict;
  rgl : list ReadGroup;
  progl : list Program;
  al : list Alignment
}.

Definition lists0 : lists := mkLists None [] [] [] [].

Definition iteration (st : lists) (s : string) : exec lists :=
  lineTag ← slice_1_3 s;
  if String.eqb lineTag "HD" then
    hl ← parseHeader s;
    Done (mkLists (Some hl) (rsdl st) (rgl st) (progl st) (al st))
  else if String.eqb lineTag "SQ" then
    refSeqDict ← parseRefSeqDict s;
    Done (mkLists (header st) (rsdl st ++ [refSeqDict]) (rgl st) (progl st) (al st))
  else if String.eqb lineTag "RG" then
    rg ← parseReadGroup s;
    Done (mkLists (header st) (rsdl st) (rgl st ++ [rg]) (progl st) (al st))
  else if String.eqb lineTag "PG" then
    prog ← parseProgram s;
    Done (mkLists (header st) (rsdl st) (rgl st) (progl st ++ [prog]) (al st))
  else if String.eqb lineTag "CO" then
    Done st
  else
    a ← parseAlignment s;
    Done (mkLists (header st) (rsdl st) (rgl st) (progl st) (al st ++ [a])).

Definition scanLines (st : lists) (lines : list string) : exec lists :=
  rangeM iteration lines st.

Definition ReadSAMFile (lines : list string) : exec SAMFile :=
  st ← scanLines lists0 lines;
  Done (mkSAMFile (header st) (Some (rsdl st)) (Some (rgl st)) (Some (progl st))
          (Some (al st)) None).

End Rev1.

(** The lists of the later revision's state. *)
Definition listsOf (st : scan) : Rev1.lists :=
  Rev1.mkLists (header st) (rsdl st) (rgl st) (progl st) (al st).

(** ** The file

    [ReadSAMFile] opens the file with [os.Open] and reads it through a
    [bufio.Reader], one call of [ReadLine] for each iteration of its loop. *)

Definition LF : ascii := ascii_of_nat 10.
Definition CR : ascii := ascii_of_nat 13.

Module os.

(** [*PathError]: the operation, the path and the error number of the system
    call. *)
Record PathError : Type := mkPathError {
  Op : string;
  Path : string;
  Err : Z
}.

(** What is at a path: the error number of [open], or the bytes that the
    reads of the opened file deliver before their first error, the end of the
    file or another. *)
Definition fileSystem : Type := string -> Z + list ascii.

(** [os.Open(name)] *)
Definition Open (fs : fileSystem) (name : string) : PathError + list ascii :=
  match fs name with
  | inl errno => inl (mkPathError "open" name errno)
  | inr file => inr file
  end.

End os.

Module bufio.

Definition defaultBufSize : nat := 4096.

Inductive readError : Type :=
| ErrBufferFull
| EOF.

(** A reader: the size of its buffer and the bytes it has not delivered
    yet. *)
Record Reader : Type := mkReader {
  size : nat;
  unread : list ascii
}.

(** [bufio.NewReader(rd)] *)
Definition NewReader (rd : list ascii) : Reader := mkReader defaultBufSize rd.

(** [bytes.IndexByte(b, c)], with [None] for -1. *)
Fixpoint IndexByte (b : list ascii) (c : ascii) : option nat :=
  match b with
  | [] => None
  | x :: b' => if Ascii.eqb x c then Some 0%nat else option_map S (IndexByte b' c)
  end.

(** [b.ReadSlice(delim)].  The buffer is filled from the bytes not delivered
    yet until the delimiter is in it, the reads fail or it is full; it holds
    at most [size b] bytes. *)
Definition ReadSlice (b : Reader) (delim : ascii) : list ascii * option readError * Reader :=
  match IndexByte (take (size b) (unread b)) delim with
  | Some i => (take (S i) (unread b), None, mkReader (size b) (drop (S i) (unread b)))
  | None =>
      if (length (unread b) <? size b)%nat
      then (unread b, Some EOF, mkReader (size b) [])
      else (take (size b) (unread b), Some ErrBufferFull,
            mkReader (size b) (drop (size b) (unread b)))
  end.

(** [line[len(line)-1]], where there is one. *)
Definition lastByte (line : list ascii) : option ascii :=
  line !! (length line - 1)%nat.

(** [line[:len(line)-1]] *)
Definition dropLast (line : list ascii) : list ascii :=
  take (length line - 1)%nat line.

(** The end of [ReadLine]: a line that ends in a line feed is delivered
    without it, and without the carriage return before it. *)
Definition dropEOL (line : list ascii) : list ascii :=
  match lastByte line with
  | Some c =>
      if Ascii.eqb c LF then
        match lastByte (dropLast line) with
        | Some c' => if Ascii.eqb c' CR then dropLast (dropLast line) else dropLast line
        | None => dropLast line
        end
      else line
  | None => line
  end.

(** [b.ReadLine()]: the line, [isPrefix], the error and the reader after the
    call.  When the buffer is full of a line that goes on, what it holds is
    delivered as a line of its own, but for a last carriage return, which is
    put back. *)
Definition ReadLine (b : Reader) : list ascii * bool * option readError * Reader :=
  let '(line, err, b') := ReadSlice b LF in
  match err with
  | Some ErrBufferFull =>
      match lastByte line with
      | Some c =>
          if Ascii.eqb c CR
          then (dropLast line, true, None, mkReader (size b') (CR :: unread b'))
          else (line, true, None, b')
      | None => (line, true, None, b')
      end
  | _ =>
      match line with
      | [] => ([], false, err, b')
      | _ => (dropEOL line, false, None, b')
      end
  end.

(** [for line, _, err := reader.ReadLine(); err == nil; line, _, err =
    reader.ReadLine()]: the strings [string(line)] that the body of the loop
    receives.  Every delivery takes one byte at least from the reader, so the
    loop ends within as many calls as the reader has bytes, and one more. *)
Fixpoint ReadLines (fuel : nat) (b : Reader) : list string :=
  match fuel with
  | O => []
  | S fuel' =>
      let '(line, _, err, b') := ReadLine b in
      match err with
      | Some _ => []
      | None => string_of_list_ascii line :: ReadLines fuel' b'
      end
  end.

Definition deliveries (file : list ascii) : list string :=
  ReadLines (S (length file)) (NewReader file).

End bufio.

(** The deliveries from a reader whose buffer has [n] bytes. *)
Definition linesOf (n : nat) (bs : list ascii) : list string :=
  bufio.ReadLines (S (length bs)) (bufio.mkReader n bs).

(** The bytes end at the end of a line. *)
Definition wholeLines (bs : list ascii) : Prop :=
  bs = [] \/ exists p, bs = (p ++ [LF])%list.

(** The error that [ReadSAMFile] returns is the one of [os.Open] or a
    [SAMerror]. *)
Inductive returnedError : Type :=
| OpenError (e : os.PathError)
| ScanError (e : error).

(** The six values that [ReadSAMFile] returns. *)
Record returned : Type := mkReturned {
  out_header : option HeaderLine;
  out_rsdl : option (list RefSeqDict);
  out_rgl : option (list ReadGroup);
  out_progl : option (list Program);
  out_al : option (list Alignment);
  out_err : option returnedError
}.

Definition ofScan (r : SAMFile) : returned :=
  mkReturned (ret_header r) (ret_rsdl r) (ret_rgl r) (ret_progl r) (ret_al r)
    (option_map ScanError (ret_err r)).

(** [ReadSAMFile(fileName)] from the call of [os.Open] on; [loop] is the
    loop of the revision, on the lines it receives.  Both revisions open the
    file in the same way.  That the error of [os.Open] is also printed is
    left out. *)
Definition openAndScan (loop : list string -> exec SAMFile)
    (fs : os.fileSystem) (fileName : string) : exec returned :=
  match os.Open fs fileName with
  | inl err => Done (mkReturned None None None None None (Some (OpenError err)))
  | inr file => r ← loop (bufio.deliveries file); Done (ofScan r)
  end.

Definition ReadSAMFileAt : os.fileSystem -> string -> exec returned :=
  openAndScan ReadSAMFile.

Definition Rev1_ReadSAMFileAt : os.fileSystem -> string -> exec returned :=
  openAndScan Rev1.ReadSAMFile.

(** The bytes of a file that holds the given lines, each ended by a line
    feed. *)
Definition fileOf (lines : list string) : list ascii :=
  concat (map (fun l => list_ascii_of_string l ++ [LF])%list lines).

(** A file system with one file, [reads.sam]; [2] is [ENOENT]. *)
Definition oneFile (file : list ascii) : os.fileSystem :=
  fun name => if String.eqb name "reads.sam" then inr file else inl 2.

(** * Properties of the library models *)

(** The models on inputs whose results are known from the documentation of
    the Go packages. *)

Example Split_keeps_empty_fields :
  Split (line ["a"; ""; "b"; ""]) TAB = ["a"; ""; "b"; ""] /\ Split "" TAB = [""].
Proof. split; reflexivity. Qed.

Example Split_on_every_colon : Split "CL:bwa:mem" COLON = ["CL"; "bwa"; "mem"].
Proof. reflexivity. Qed.

Example Atoi_values :
  Atoi "248956422" = (248956422, None) /\
  Atoi "-12" = (-12, None) /\
  Atoi "+7" = (7, None) /\
  Atoi "" = (0, Some ErrSyntax) /\
  Atoi "-" = (0, Some ErrSyntax) /\
  Atoi "12a" = (0, Some ErrSyntax) /\
  Atoi " 12" = (0, Some ErrSyntax) /\
  Atoi "9223372036854775807" = (MaxInt, None) /\
  Atoi "9223372036854775808" = (MaxInt, Some ErrRange) /\
  Atoi "-9223372036854775808" = (MinInt, None) /\
  Atoi "-9223372036854775809" = (MinInt, Some ErrRange).
Proof. repeat split; vm_compute; reflexivity. Qed.

Example conversions_wrap :
  uint16 65536 = 0 /\ uint8 (-1) = 255 /\ uint32 (2 ^ 32 + 5) = 5 /\
  int32 (2 ^ 31) = - 2 ^ 31 /\ int32 (-1) = -1.
Proof. repeat split; reflexivity. Qed.

Example runes_of_utf8 :
  runes "chr1" = [99; 104; 114; 49] /\
  decodeRunes [195; 169] = [233] /\
  decodeRunes [226; 130; 172; 65] = [8364; 65] /\
  decodeRunes [255; 65] = [RuneError; 65] /\
  decodeRunes [192; 128] = [RuneError; RuneError].
Proof. repeat split; vm_compute; reflexivity. Qed.

Example Parse_version_pattern :
  Parse "^[0-9]+.[0-9]+$" =
    Parsed (Concat BeginText
              (Concat (Plus (CharClass false [(48, 57)]))
                 (Concat AnyCharNotNL
                    (Concat (Plus (CharClass false [(48, 57)])) EndText)))).
Proof. vm_compute. reflexivity. Qed.

Example Parse_name_pattern :
  Parse "[!-)+-<>-~][!-~]*" =
    Parsed (Concat (CharClass false [(33, 41); (43, 60); (62, 126)])
              (Star (CharClass false [(33, 126)]))).
Proof. vm_compute. reflexivity. Qed.

(** The patterns that start with a star do not compile; with the star
    escaped, as the comments of [sam.go] have them, they do. *)
Example Parse_leading_star :
  Parse "*|[ACMGRSVTWYHKDBN]+" = SyntaxError ErrMissingRepeatArgument /\
  Parse "*|[!-?A-~]+" = SyntaxError ErrMissingRepeatArgument /\
  Parse "*|[!-()+-<>-~][!-~]*" = SyntaxError ErrMissingRepeatArgument /\
  Parse "*|([0-9]+[MIDNSHPX=])+" = SyntaxError ErrMissingRepeatArgument /\
  Parse "*|=|[!-()+-<>-~][!-~]*" = SyntaxError ErrMissingRepeatArgument /\
  Parse "*|[A-Za-z=.]+" = SyntaxError ErrMissingRepeatArgument /\
  Parse "*|[!-~]+" = SyntaxError ErrMissingRepeatArgument /\
  Parse "\*|[ACMGRSVTWYHKDBN]+" =
    Parsed (Alternate (Literal 42)
              (Plus (CharClass false
                       [(65, 65); (67, 67); (77, 77); (71, 71); (82, 82); (83, 83); (86, 86);
                        (84, 84); (87, 87); (89, 89); (72, 72); (75, 75); (68, 68); (66, 66);
                        (78, 78)]))).
Proof. repeat split; vm_compute; reflexivity. Qed.

Example Parse_errors :
  Parse "a**" = SyntaxError ErrInvalidRepeatOp /\
  Parse "(a" = SyntaxError ErrMissingParen /\
  Parse "a)" = SyntaxError ErrUnexpectedParen /\
  Parse "[a" = SyntaxError ErrMissingBracket /\
  Parse "[z-a]" = SyntaxError ErrInvalidCharRange /\
  Parse "a|*" = SyntaxError ErrMissingRepeatArgument.
Proof. repeat split; vm_compute; reflexivity. Qed.

Example regexpMatch_searches :
  regexpMatch "^[0-9]+.[0-9]+$" "1.0" = (true, None) /\
  regexpMatch "^[0-9]+.[0-9]+$" "1.0a" = (false, None) /\
  regexpMatch "^[0-9]+.[0-9]+$" "10" = (false, None) /\
  regexpMatch "[0-9]+" "chr12x" = (true, None) /\
  regexpMatch "[!-)+-<>-~][!-~]*" "chr1" = (true, None) /\
  regexpMatch "[!-)+-<>-~][!-~]*" "" = (false, None) /\
  regexpMatch "[!-)+-<>-~][!-~]*" "*=" = (false, None) /\
  regexpMatch "[!-)+-<>-~][!-~]*" "*a" = (true, None) /\
  regexpMatch "a|b*c$" "xbbc" = (true, None) /\
  regexpMatch "(ab)+$" "abab" = (true, None) /\
  regexpMatch "^(ab)+$" "aba" = (false, None).
Proof. repeat split; vm_compute; reflexivity. Qed.

Section SplitJoin.
Variable sep : ascii.

Lemma Split_not_nil (s : string) : Split s sep <> [].
Proof.
  induction s as [|c s IH]; simpl; [discriminate|].
  destruct (Ascii.eqb c sep); [discriminate|].
  destruct (Split s sep); discriminate.
Qed.

Lemma Split_without_sep (s : string) :
  contains sep s = false -> Split s sep = [s].
Proof.
  induction s as [|c s IH]; simpl; [reflexivity|].
  intros H. apply orb_false_iff in H as [Hc Hs].
  rewrite Hc, (IH Hs). reflexivity.
Qed.

Lemma Split_field_then_sep (f rest : string) :
  contains sep f = false ->
  Split (f ++ String sep rest) sep = f :: Split rest sep.
Proof.
  induction f as [|c f IH]; simpl.
  - intros _. rewrite Ascii.eqb_refl. reflexivity.
  - intros H. apply orb_false_iff in H as [Hc Hf].
    rewrite Hc, (IH Hf). reflexivity.
Qed.

(** Splitting a line gives back the fields it was written from, as long as
    no field contains the separator. *)
Lemma Split_Join (fields : list string) :
  fields <> [] ->
  Forall (fun f => contains sep f = false) fields ->
  Split (Join fields sep) sep = fields.
Proof.
  induction fields as [|f fs IH]; [congruence|].
  intros _ Hall. inversion Hall as [|? ? Hf Hfs]; subst.
  destruct fs as [|g fs].
  - simpl. apply Split_without_sep, Hf.
  - change (Join (f :: g :: fs) sep) with (f ++ String sep (Join (g :: fs) sep)).
    rewrite Split_field_then_sep by exact Hf.
    rewrite IH; [reflexivity | discriminate | exact Hfs].
Qed.
End SplitJoin.

Lemma contains_app (c : ascii) (s1 s2 : string) :
  contains c (s1 ++ s2) = contains c s1 || contains c s2.
Proof.
  induction s1 as [|a s1 IH]; simpl; [reflexivity|].
  rewrite IH. apply orb_assoc.
Qed.

Lemma line_fields (t : string) (fs : list string) :
  Forall (fun f => contains TAB f = false) (t :: fs) ->
  sliceFrom1 (Split (line (t :: fs)) TAB) = Done fs.
Proof.
  intros H. unfold line. rewrite Split_Join; [reflexivity | discriminate | exact H].
Qed.

Lemma Forall_insert_field (P : string -> Prop) (t f : string) (fs1 fs2 : list string) :
  Forall P (t :: fs1 ++ fs2) -> P f -> Forall P (t :: fs1 ++ f :: fs2).
Proof.
  intros H Hf. inversion H as [|? ? Ht Hall]; subst.
  apply Forall_app in Hall as [H1 H2].
  constructor; [exact Ht|]. apply Forall_app. split; [exact H1|]. constructor; assumption.
Qed.

(** ** The pattern parser has fuel enough *)

Lemma parseClassItems_shorter (n : nat) (t : list rune) (first : bool)
    (acc rs : list (rune * rune)) (rest : list rune) :
  (List.length t <= n)%nat ->
  parseClassItems t first acc = Parsed (rs, rest) ->
  (List.length rest < List.length t)%nat.
Proof.
  revert t first acc. induction n as [|n IH]; intros t first acc Hn H.
  - destruct t; [discriminate | simpl in Hn; lia].
  - destruct t as [|c t1]; [discriminate|].
    simpl in H, Hn.
    destruct ((c =? code "]") && negb first).
    { injection H as _ <-. simpl. lia. }
    destruct (c =? code "\"); [discriminate|].
    destruct ((c =? code "[") && _); [discriminate|].
    destruct t1 as [|d [|h t3]].
    + apply IH in H; simpl in *; lia.
    + apply IH in H; simpl in *; lia.
    + destruct ((d =? code "-") && negb (h =? code "]")).
      * destruct (h =? code "\"); [discriminate|].
        destruct (h <? c); [discriminate|].
        apply IH in H; simpl in *; lia.
      * apply IH in H; simpl in *; lia.
Qed.

Lemma parseClassItems_error (n : nat) (t : list rune) (first : bool)
    (acc : list (rune * rune)) (e : parseError) :
  (List.length t <= n)%nat ->
  parseClassItems t first acc = SyntaxError e -> e <> OutOfFuel.
Proof.
  revert t first acc. induction n as [|n IH]; intros t first acc Hn H.
  - destruct t; [injection H as <-; discriminate | simpl in Hn; lia].
  - destruct t as [|c t1]; [injection H as <-; discriminate|].
    simpl in H, Hn.
    destruct ((c =? code "]") && negb first); [discriminate|].
    destruct (c =? code "\"); [injection H as <-; discriminate|].
    destruct ((c =? code "[") && _); [injection H as <-; discriminate|].
    destruct t1 as [|d [|h t3]].
    + apply IH in H; simpl in *; [assumption | lia].
    + apply IH in H; simpl in *; [assumption | lia].
    + destruct ((d =? code "-") && negb (h =? code "]")).
      * destruct (h =? code "\"); [injection H as <-; discriminate|].
        destruct (h <? c); [injection H as <-; discriminate|].
        apply IH in H; simpl in *; [assumption | lia].
      * apply IH in H; simpl in *; [assumption | lia].
Qed.

(** With more fuel than the pattern has runes, the parser does not run out
    of it. *)
Lemma parseLoop_fuel (fuel : nat) (t : list rune)
    (outer : list (list regex * list regex)) (alts items : list regex) (lastRepeat : bool) :
  (List.length t < fuel)%nat ->
  parseLoop fuel t outer alts items lastRepeat <> SyntaxError OutOfFuel.
Proof.
  revert t outer alts items lastRepeat.
  induction fuel as [|fuel IH]; intros t outer alts items lastRepeat Hlen; [lia|].
  destruct t as [|c t1]; simpl.
  - destruct outer; discriminate.
  - simpl in Hlen.
    repeat match goal with
           | |- (if ?b then _ else _) <> _ => destruct b
           | |- (match ?x with Parsed _ => _ | SyntaxError _ => _ end) <> _ => destruct x eqn:?
           | |- (match ?x with [] => _ | _ :: _ => _ end) <> _ => destruct x eqn:?
           | |- (let '(_, _) := ?x in _) <> _ => destruct x eqn:?
           | |- (match ?x with (_, _) => _ end) <> _ => destruct x eqn:?
           | |- SyntaxError _ <> _ => discriminate
           | |- parseLoop _ _ _ _ _ _ <> _ => apply IH; simpl in *; try lia
           end.
    + match goal with
      | H : parseClassItems _ _ _ = Parsed _ |- _ =>
          apply (parseClassItems_shorter _ _ _ _ _ _ (le_n _)) in H
      end.
      destruct t1 as [|h t2]; [simplify_eq; simpl in *; lia|].
      destruct (h =? code "^"); simplify_eq; unfold rune in *; simpl in *; lia.
    + match goal with
      | H : parseClassItems _ _ _ = SyntaxError ?e |- _ =>
          apply (parseClassItems_error _ _ _ _ _ (le_n _)) in H
      end.
      congruence.
    + destruct t1 as [|q t2]; [simpl in *; lia|].
      destruct (q =? code "?"); simpl in *; lia.
Qed.

Lemma Parse_has_fuel (pattern : string) : Parse pattern <> SyntaxError OutOfFuel.
Proof.
  unfold Parse. destruct (forallb _ _); [|discriminate].
  apply parseLoop_fuel. apply Nat.lt_succ_diag_r.
Qed.

(** ** The matcher against the meaning of the expressions *)

Create HintDb regex.
#[local] Hint Constructors Matches : regex.

Lemma Matches_nil_nullable (r : regex) (b e : bool) (w : list rune) :
  Matches r b w e -> w = [] -> nullable r b e = true.
Proof.
  induction 1; intros Hw; simpl; try discriminate; try reflexivity.
  - apply app_eq_nil in Hw as [-> ->]. simpl in *.
    rewrite !andb_true_r in *. rewrite IHMatches1, IHMatches2; reflexivity.
  - rewrite IHMatches; [reflexivity | exact Hw].
  - rewrite IHMatches; [apply orb_true_r | exact Hw].
  - apply app_eq_nil in Hw as [-> ->]. simpl in *.
    rewrite !andb_true_r in *. apply IHMatches1. reflexivity.
Qed.

Lemma nullable_Matches_nil (r : regex) (b e : bool) :
  nullable r b e = true -> Matches r b [] e.
Proof.
  induction r; simpl; intros H; try discriminate; auto with regex.
  - subst. constructor.
  - subst. constructor.
  - apply andb_true_iff in H as [H1 H2].
    change (@nil rune) with (@nil rune ++ @nil rune)%list.
    constructor; simpl; rewrite andb_true_r; auto.
  - apply orb_true_iff in H as [H|H]; auto with regex.
  - change (@nil rune) with (@nil rune ++ @nil rune)%list.
    constructor; simpl; rewrite ?andb_true_r; auto with regex.
Qed.

Lemma Matches_NoMatch (b e : bool) (w : list rune) : ~ Matches NoMatch b w e.
Proof. intros H. inversion H. Qed.

Lemma Matches_cat (r1 r2 : regex) (b e : bool) (w : list rune) :
  Matches (cat r1 r2) b w e <-> Matches (Concat r1 r2) b w e.
Proof.
  destruct r1; simpl; try tauto.
  - split; intros H; [inversion H|].
    inversion H; subst. exfalso. eapply Matches_NoMatch; eassumption.
  - split; intros H.
    + change w with ([] ++ w)%list. constructor; [constructor|].
      simpl. rewrite andb_true_r. exact H.
    + inversion H as [| | | | | | |? ? ? ? ? ? H1 H2| | | | | | |]; subst.
      inversion H1; subst. simpl in *. rewrite andb_true_r in H2. exact H2.
Qed.

Lemma Matches_alt (r1 r2 : regex) (b e : bool) (w : list rune) :
  Matches (alt r1 r2) b w e <-> Matches (Alternate r1 r2) b w e.
Proof.
  assert (HL : forall r, Matches r b w e <-> Matches (Alternate NoMatch r) b w e).
  { intros r. split; intros H; [auto with regex|].
    inversion H; subst; [exfalso; eapply Matches_NoMatch; eassumption | assumption]. }
  assert (HR : forall r, Matches r b w e <-> Matches (Alternate r NoMatch) b w e).
  { intros r. split; intros H; [auto with regex|].
    inversion H; subst; [assumption | exfalso; eapply Matches_NoMatch; eassumption]. }
  destruct r1; simpl; try apply HL; destruct r2; simpl; try apply HR; tauto.
Qed.

Lemma Matches_deriv (c : rune) (r : regex) (b e : bool) (w : list rune) :
  Matches (deriv c r b) false w e -> Matches r b (c :: w) e.
Proof.
  revert w e. induction r; simpl; intros w e H.
  - inversion H.
  - inversion H.
  - destruct (Z.eqb_spec c c0); inversion H; subst. constructor.
  - destruct (xorb negated (inRanges c ranges)) eqn:Hc; inversion H; subst.
    constructor. exact Hc.
  - destruct (Z.eqb_spec c 10); inversion H; subst. constructor. assumption.
  - inversion H; subst. constructor.
  - inversion H.
  - inversion H.
  - apply Matches_alt in H.
    inversion H as [| | | | | | | |? ? ? ? ? H1|? ? ? ? ? H1| | | | |]; subst.
    + apply Matches_cat in H1.
      inversion H1 as [| | | | | | |? ? ? w1 w2 ? Ha Hb| | | | | | |]; subst.
      change (c :: w1 ++ w2)%list with ((c :: w1) ++ w2)%list.
      constructor; [apply IHr1, Ha|]. simpl. rewrite andb_false_r. exact Hb.
    + destruct (nullable r1 b false) eqn:Hn; [|inversion H1].
      change (c :: w) with ([] ++ c :: w)%list.
      constructor.
      * simpl. rewrite andb_false_r. apply nullable_Matches_nil, Hn.
      * simpl. rewrite andb_true_r. apply IHr2, H1.
  - apply Matches_alt in H. inversion H; subst; auto with regex.
  - apply Matches_cat in H.
    inversion H as [| | | | | | |? ? ? w1 w2 ? Ha Hb| | | | | | |]; subst.
    change (c :: w1 ++ w2)%list with ((c :: w1) ++ w2)%list.
    constructor; [apply IHr, Ha|]. simpl. rewrite andb_false_r. exact Hb.
  - apply Matches_cat in H.
    inversion H as [| | | | | | |? ? ? w1 w2 ? Ha Hb| | | | | | |]; subst.
    change (c :: w1 ++ w2)%list with ((c :: w1) ++ w2)%list.
    constructor; [apply IHr, Ha|]. simpl. rewrite andb_false_r. exact Hb.
  - constructor. apply IHr, H.
Qed.

Lemma deriv_Matches (r : regex) (b e : bool) (cw : list rune) :
  Matches r b cw e ->
  forall x w, cw = x :: w -> Matches (deriv x r b) false w e.
Proof.
  induction 1 as [b e|c b e|neg ranges c b e Hc|c b e Hc|c b e|e|b
                 |r1 r2 b w1 w2 e H1 IH1 H2 IH2|r1 r2 b w0 e H1 IH1|r1 r2 b w0 e H1 IH1
                 |r b e|r b w1 w2 e H1 IH1 H2 IH2|r b w1 w2 e H1 IH1 H2 IH2
                 |r b e|r b w0 e H1 IH1];
    intros x w Hcw; simpl; try discriminate.
  - injection Hcw as <- <-. rewrite Z.eqb_refl. constructor.
  - injection Hcw as <- <-. rewrite Hc. constructor.
  - injection Hcw as <- <-. destruct (Z.eqb_spec c 10); [contradiction | constructor].
  - injection Hcw as <- <-. constructor.
  - apply Matches_alt. destruct w1 as [|c1 w1'].
    + simpl in Hcw. subst w2. simpl in H1, H2. rewrite andb_false_r in H1.
      rewrite andb_true_r in H2.
      apply M_AlternateR. rewrite (Matches_nil_nullable _ _ _ _ H1 eq_refl).
      specialize (IH2 x w eq_refl). simpl in IH2. rewrite andb_true_r in IH2. exact IH2.
    + simpl in Hcw. injection Hcw as <- <-.
      apply M_AlternateL, Matches_cat. constructor; [apply IH1; reflexivity|].
      simpl in H2. rewrite andb_false_r in H2. exact H2.
  - apply Matches_alt. apply M_AlternateL. auto.
  - apply Matches_alt. apply M_AlternateR. auto.
  - destruct w1 as [|c1 w1'].
    + simpl in Hcw. subst w2.
      specialize (IH2 x w eq_refl). simpl in IH2. rewrite andb_true_r in IH2. exact IH2.
    + simpl in Hcw. injection Hcw as <- <-.
      apply Matches_cat. constructor; [apply IH1; reflexivity|].
      simpl in H2. rewrite andb_false_r in H2. exact H2.
  - destruct w1 as [|c1 w1'].
    + simpl in Hcw. subst w2.
      specialize (IH2 x w eq_refl). simpl in IH2. rewrite andb_true_r in IH2. exact IH2.
    + simpl in Hcw. injection Hcw as <- <-.
      apply Matches_cat. constructor; [apply IH1; reflexivity|].
      simpl in H2. rewrite andb_false_r in H2. exact H2.
  - auto.
Qed.

(** The derivative matcher decides the semantics. *)
Lemma matchHere_Matches (r : regex) (w : list rune) (b : bool) :
  matchHere r w b = true <-> Matches r b w true.
Proof.
  revert r b. induction w as [|c w IH]; intros r b; simpl.
  - split; [apply nullable_Matches_nil | intros H; eapply Matches_nil_nullable; eauto].
  - rewrite IH. split; [apply Matches_deriv | intros H; eapply deriv_Matches; eauto].
Qed.

Lemma Matches_Star_AnyChar (w : list rune) (b e : bool) : Matches (Star AnyChar) b w e.
Proof.
  revert b. induction w as [|c w IH]; intros b; [constructor|].
  change (c :: w) with ([c] ++ w)%list. constructor; [constructor | apply IH].
Qed.

(** [search] finds a match anywhere in the text. *)
Lemma search_spec (r : regex) (s : list rune) :
  search r s = true <->
  exists pre w post, s = (pre ++ w ++ post)%list /\ Matches r (isNil pre) w (isNil post).
Proof.
  unfold search. rewrite matchHere_Matches. split.
  - intros H.
    inversion H as [| | | | | | |? ? ? pre rest ? Ha Hb| | | | | | |]; subst.
    inversion Hb as [| | | | | | |? ? ? w post ? Hc Hd| | | | | | |]; subst.
    exists pre, w, post. split; [reflexivity|]. exact Hc.
  - intros (pre & w & post & -> & H).
    constructor; [apply Matches_Star_AnyChar|].
    constructor; [exact H | apply Matches_Star_AnyChar].
Qed.

Lemma regexpMatch_spec (pattern b : string) :
  fst (regexpMatch pattern b) = true <->
  exists r, Parse pattern = Parsed r /\
  exists pre w post,
    runes b = (pre ++ w ++ post)%list /\ Matches r (isNil pre) w (isNil post).
Proof.
  unfold regexpMatch. destruct (Parse pattern) as [r|err]; simpl.
  - rewrite search_spec. split.
    + intros H. exists r. split; [reflexivity | exact H].
    + intros (r' & Hr & H). injection Hr as <-. exact H.
  - split; [discriminate | intros (r & Hr & _); discriminate].
Qed.

Lemma Matches_Star_class (ranges : list (rune * rune)) (b e : bool) (w : list rune) :
  Matches (Star (CharClass false ranges)) b w e <->
  Forall (fun c => inRanges c ranges = true) w.
Proof.
  split.
  - intros H. remember (Star (CharClass false ranges)) as r eqn:Hr.
    induction H as [| | | | | | | | | | |r0 b w1 w2 e H1 _ H2 IH2| | | ]; try discriminate.
    + constructor.
    + injection Hr as ->. apply Forall_app. split; [|apply IH2; reflexivity].
      inversion H1; subst. constructor; [assumption | constructor].
  - revert b. induction w as [|c w IH]; intros b Hall; [constructor|].
    inversion Hall; subst.
    change (c :: w) with ([c] ++ w)%list. constructor; [constructor; assumption | auto].
Qed.

Lemma Matches_Plus_class (ranges : list (rune * rune)) (b e : bool) (w : list rune) :
  Matches (Plus (CharClass false ranges)) b w e <->
  w <> [] /\ Forall (fun c => inRanges c ranges = true) w.
Proof.
  split.
  - intros H. inversion H as [| | | | | | | | | | | |? ? w1 w2 ? H1 H2|  | ]; subst.
    inversion H1; subst. split; [discriminate|].
    constructor; [assumption|]. eapply Matches_Star_class, H2.
  - intros [Hne Hall]. destruct w as [|c w]; [contradiction|].
    inversion Hall; subst.
    change (c :: w) with ([c] ++ w)%list.
    constructor; [constructor; assumption | apply Matches_Star_class; assumption].
Qed.

(** The name check of [validateRefSeqDict] asks for one rune of the first
    class anywhere in the name. *)
Lemma name_pattern_spec (name : string) :
  fst (regexpMatch "[!-)+-<>-~][!-~]*" name) = true <->
  exists c, c ∈ runes name /\ inRanges c nameStart = true.
Proof.
  rewrite regexpMatch_spec. split.
  - intros (r & Hr & pre & w & post & Hs & H).
    vm_compute in Hr. injection Hr as <-.
    inversion H as [| | | | | | |? ? ? w1 w2 ? Ha Hb| | | | | | |]; subst.
    inversion Ha as [| |? ? c ? ? Hc| | | | | | | | | | | |]; subst.
    exists c. split; [|exact Hc].
    rewrite Hs. rewrite !elem_of_app. right. left. left. apply elem_of_cons. left. reflexivity.
  - intros (c & Hin & Hc).
    apply list_elem_of_split in Hin as (pre & post & Hs).
    eexists. split; [vm_compute; reflexivity|].
    exists pre, [c], post. split; [exact Hs|].
    change [c] with ([c] ++ [])%list. constructor; [constructor; exact Hc | constructor].
Qed.

(** What the version pattern of [validateHeader] accepts: digits, then any
    one rune but a newline, then digits. *)
Lemma version_pattern_spec (v : string) :
  fst (regexpMatch "^[0-9]+.[0-9]+$" v) = true <->
  exists d1 c d2,
    runes v = (d1 ++ [c] ++ d2)%list /\ c <> 10 /\
    d1 <> [] /\ Forall (fun x => inRanges x digits = true) d1 /\
    d2 <> [] /\ Forall (fun x => inRanges x digits = true) d2.
Proof.
  rewrite regexpMatch_spec. split.
  - intros (r & Hr & pre & w & post & Hs & H).
    vm_compute in Hr. injection Hr as <-.
    inversion H as [| | | | | | |? ? ? w0 w1 ? Hbeg H1| | | | | | |]; subst.
    inversion Hbeg as [| | | | |? Hb| | | | | | | | |]; subst.
    destruct pre; [|discriminate]. clear Hbeg Hb.
    inversion H1 as [| | | | | | |? ? ? d1 w2 ? Hd1 H2| | | | | | |]; subst.
    inversion H2 as [| | | | | | |? ? ? w3 w4 ? Hany H3| | | | | | |]; subst.
    inversion Hany as [| | |c ? ? Hc| | | | | | | | | | |]; subst.
    inversion H3 as [| | | | | | |? ? ? d2 w5 ? Hd2 H4| | | | | | |]; subst.
    inversion H4 as [| | | | | |? He| | | | | | | |]; subst.
    destruct post; [|discriminate].
    apply Matches_Plus_class in Hd1 as [Hn1 Ha1], Hd2 as [Hn2 Ha2].
    exists d1, c, d2. simpl in Hs. rewrite !app_nil_r in Hs. tauto.
  - intros (d1 & c & d2 & Hs & Hc & Hn1 & Ha1 & Hn2 & Ha2).
    eexists. split; [vm_compute; reflexivity|].
    exists [], (d1 ++ [c] ++ d2)%list, []. split; [rewrite app_nil_r; exact Hs|].
    change (d1 ++ [c] ++ d2)%list with ([] ++ (d1 ++ ([c] ++ (d2 ++ []))))%list
      || replace (d1 ++ [c] ++ d2)%list with ([] ++ (d1 ++ ([c] ++ (d2 ++ []))))%list
           by (simpl; rewrite app_nil_r; reflexivity).
    constructor; [constructor|].
    constructor; [apply Matches_Plus_class; tauto|].
    constructor; [constructor; exact Hc|].
    constructor; [apply Matches_Plus_class; tauto | simpl; constructor].
Qed.

(** ** [strconv.Atoi] against the decimal reading *)

Lemma isDigit_range (c : ascii) :
  isDigit c = true -> 0 <= byteval c - 48 <= 9.
Proof. unfold isDigit. intros H. apply andb_true_iff in H as [H1 H2]. lia. Qed.

Lemma digitPrefixValue_ge (s : string) (n : Z) :
  0 <= n -> n <= digitPrefixValue s n.
Proof.
  revert n. induction s as [|c s IH]; intros n Hn; simpl; [lia|].
  destruct (isDigit c) eqn:Hd; [|lia].
  pose proof (isDigit_range c Hd).
  specialize (IH (n * 10 + (byteval c - 48))). lia.
Qed.

(** The loop of [ParseUint] from an accumulator below [2^64]: a range error
    as soon as the leading digits pass [2^64 - 1], else a syntax error if
    some byte is not a digit, else the value. *)
Lemma ParseUint_loop_spec (s : string) (n : Z) :
  0 <= n < 2 ^ 64 ->
  ParseUint_loop s n =
    if digitPrefixValue s n <? 2 ^ 64
    then (if allDigits s then (digitPrefixValue s n, None) else (0, Some ErrSyntax))
    else (2 ^ 64 - 1, Some ErrRange).
Proof.
  revert n. induction s as [|c s IH]; intros n Hn; simpl.
  - destruct (Z.ltb_spec n (2 ^ 64)); [reflexivity | lia].
  - destruct (isDigit c) eqn:Hd; simpl.
    + pose proof (isDigit_range c Hd) as Hr.
      set (d := byteval c - 48) in *.
      assert (Hge : n * 10 + d <= digitPrefixValue s (n * 10 + d))
        by (apply digitPrefixValue_ge; lia).
      change (maxUint64 / 10 + 1) with 1844674407370955162.
      change (2 ^ IntSize - 1) with 18446744073709551615.
      change (2 ^ 64) with 18446744073709551616 in *.
      destruct (Z.geb_spec n 1844674407370955162) as [Hc|Hc].
      * destruct (Z.ltb_spec (digitPrefixValue s (n * 10 + d)) 18446744073709551616);
          [lia | reflexivity].
      * destruct (Z_lt_ge_dec (n * 10 + d) 18446744073709551616) as [Hlt|Hov].
        -- rewrite (Z.mod_small (n * 10 + d)) by lia.
           replace (n * 10 + d <? n * 10) with false by (symmetry; apply Z.ltb_ge; lia).
           replace (n * 10 + d >? 18446744073709551615) with false
             by (symmetry; rewrite Z.gtb_ltb; apply Z.ltb_ge; lia).
           simpl. apply IH. lia.
        -- replace ((n * 10 + d) mod 18446744073709551616)
             with (n * 10 + d - 18446744073709551616).
           2:{ apply Z.mod_unique with (q := 1); lia. }
           replace (n * 10 + d - 18446744073709551616 <? n * 10) with true
             by (symmetry; apply Z.ltb_lt; lia).
           simpl.
           destruct (Z.ltb_spec (digitPrefixValue s (n * 10 + d)) 18446744073709551616);
             [lia | reflexivity].
    + destruct (Z.ltb_spec n (2 ^ 64)); [reflexivity | lia].
Qed.

Lemma ParseUint_spec (s : string) :
  ParseUint s =
    if digitPrefixValue s 0 <? 2 ^ 64
    then (if negb (String.eqb s "") && allDigits s
          then (digitPrefixValue s 0, None) else (0, Some ErrSyntax))
    else (2 ^ 64 - 1, Some ErrRange).
Proof.
  destruct s as [|c s]; [reflexivity|].
  unfold ParseUint. apply ParseUint_loop_spec. lia.
Qed.

(** The integer that [Atoi] returns is the one of the decimal reading. *)
Lemma Atoi_storedInt (s : string) : fst (Atoi s) = storedInt s.
Proof.
  unfold Atoi, ParseInt, storedInt, isDecimal, decimalValue.
  destruct s as [|c0 rest]; [reflexivity|].
  unfold unsignedPart, isNegative.
  set (body := if Ascii.eqb c0 "+" || Ascii.eqb c0 "-" then rest else String c0 rest).
  rewrite (ParseUint_spec body).
  pose proof (digitPrefixValue_ge body 0 ltac:(lia)) as Hge.
  set (v := digitPrefixValue body 0) in *.
  set (dec := negb (String.eqb body "") && allDigits body).
  change (2 ^ (IntSize - 1)) with 9223372036854775808.
  unfold clampInt, MaxInt, MinInt.
  change (2 ^ 63) with 9223372036854775808.
  change (2 ^ 64) with 18446744073709551616.
  destruct (Z.ltb_spec v 18446744073709551616) as [Hv|Hv].
  - destruct dec; [|reflexivity].
    cbn [negb andb].
    destruct (Ascii.eqb c0 "-"); cbn [negb andb];
      [destruct (Z.gtb_spec v 9223372036854775808)
      |destruct (Z.geb_spec v 9223372036854775808)]; cbn [fst]; lia.
  - rewrite andb_false_r.
    replace (18446744073709551616 - 1 >? 9223372036854775808) with true by reflexivity.
    replace (18446744073709551616 - 1 >=? 9223372036854775808) with true by reflexivity.
    destruct (Ascii.eqb c0 "-"); cbn [negb andb fst]; lia.
Qed.

(** ** Loops over the fields of a metadata line *)

Lemma rangeM_app {A B : Type} (body : B -> A -> exec B) (xs ys : list A) (acc : B) :
  rangeM body (xs ++ ys) acc = (acc' ← rangeM body xs acc; rangeM body ys acc').
Proof.
  revert acc. induction xs as [|x xs IH]; intros acc; simpl; [reflexivity|].
  destruct (body acc x) as [acc'|f]; simpl; [apply IH | reflexivity].
Qed.

Section FieldLoop.
Context {R : Type}.
Variable body : R -> string -> exec R.

(** A field on which the body changes nothing can be left out. *)
Lemma rangeM_skip (fs1 fs2 : list string) (f : string) (acc : R) :
  (forall acc', body acc' f = Done acc') ->
  rangeM body (fs1 ++ f :: fs2) acc = rangeM body (fs1 ++ fs2) acc.
Proof.
  intros Hskip. rewrite !rangeM_app.
  destruct (rangeM body fs1 acc) as [acc'|]; [|reflexivity].
  cbn [mbind exec_bind]. simpl. rewrite Hskip. reflexivity.
Qed.

(** When the body can only panic in one way, a field on which it does panic
    makes the whole loop panic. *)
Lemma rangeM_panic (e : fault) (fs1 fs2 : list string) (f : string) (acc : R) :
  (forall acc' x e', body acc' x = Panic e' -> e' = e) ->
  (forall acc', body acc' f = Panic e) ->
  rangeM body (fs1 ++ f :: fs2) acc = Panic e.
Proof.
  intros Honly Hf. revert acc.
  induction fs1 as [|x fs1 IH]; intros acc; simpl.
  - rewrite Hf. reflexivity.
  - destruct (body acc x) as [acc'|e'] eqn:Hx; cbn [mbind exec_bind].
    + apply IH.
    + f_equal. eapply Honly, Hx.
Qed.
End FieldLoop.

Section TagValue.
Context {R : Type}.
Variable table : gmap string (string -> R -> R).

Lemma tagValueStep_unknown (key val : string) (acc : R) :
  contains COLON key = false -> table !! key = None ->
  tagValueStep table acc (key ++ String COLON val) = Done acc.
Proof.
  intros Hkey Hnone. unfold tagValueStep.
  rewrite Split_field_then_sep by exact Hkey.
  destruct (Split val COLON) as [|v vs] eqn:Hv; [apply Split_not_nil in Hv; contradiction|].
  cbn. rewrite Hnone. reflexivity.
Qed.

Lemma tagValueStep_no_colon (f : string) (acc : R) :
  contains COLON f = false ->
  tagValueStep table acc f = Panic IndexOutOfRange.
Proof.
  intros Hf. unfold tagValueStep. rewrite Split_without_sep by exact Hf. reflexivity.
Qed.

Lemma tagValueStep_only_fault (acc : R) (x : string) (e : fault) :
  tagValueStep table acc x = Panic e -> e = IndexOutOfRange.
Proof.
  unfold tagValueStep, index.
  destruct (Split x COLON !! 0%nat); cbn [mbind exec_bind]; [|congruence].
  destruct (Split x COLON !! 1%nat); cbn [mbind exec_bind]; [|congruence].
  destruct (table !! s); discriminate.
Qed.
End TagValue.

Lemma parseHeader_loop (s : string) :
  parseHeader s =
    (rest ← sliceFrom1 (Split s TAB); rangeM (tagValueStep hlParseMap) rest (mkHeaderLine "" "")).
Proof. reflexivity. Qed.

Lemma parseReadGroup_loop (s : string) :
  parseReadGroup s =
    (rest ← sliceFrom1 (Split s TAB);
     rangeM (tagValueStep rgParseMap) rest (mkReadGroup "" "" "" "" "" "" "" "" "" "" "" "")).
Proof. reflexivity. Qed.

Lemma parseProgram_loop (s : string) :
  parseProgram s =
    (rest ← sliceFrom1 (Split s TAB); rangeM (tagValueStep programParseMap) rest (mkProgram "" "" "" "")).
Proof. reflexivity. Qed.

Lemma parseRefSeqDict_loop (s : string) :
  parseRefSeqDict s =
    (rest ← sliceFrom1 (Split s TAB); rangeM refSeqStep rest (mkRefSeqDict "" 0 "" "" "" "")).
Proof. reflexivity. Qed.

Lemma refSeqStep_unknown (f key : string) (vs : list string) (rsd : RefSeqDict) :
  Split f COLON = key :: vs -> key ∉ refSeqKeys ->
  refSeqStep rsd f = Done rsd.
Proof.
  intros Hf Hkey. unfold refSeqStep. rewrite Hf. cbn [index lookup list_lookup mbind exec_bind].
  unfold refSeqKeys in Hkey. rewrite !not_elem_of_cons in Hkey.
  destruct Hkey as (H1 & H2 & H3 & H4 & H5 & H6 & _).
  apply String.eqb_neq in H1, H2, H3, H4, H5, H6.
  rewrite H1, H2, H3, H4, H5, H6. reflexivity.
Qed.

Lemma refSeqStep_LN (v : string) (rsd : RefSeqDict) :
  contains COLON v = false ->
  refSeqStep rsd ("LN" ++ String COLON v) =
    Done (mkRefSeqDict (Name rsd) (uint32 (storedInt v)) (AssemblyID rsd) (MD5 rsd)
            (Species rsd) (URI rsd)).
Proof.
  intros Hv. unfold refSeqStep.
  rewrite Split_field_then_sep by reflexivity.
  rewrite Split_without_sep by exact Hv.
  cbn [index lookup list_lookup mbind exec_bind]. cbn [String.eqb Ascii.eqb Bool.eqb].
  rewrite <- Atoi_storedInt. destruct (Atoi v). reflexivity.
Qed.

Lemma refSeqStep_only_fault (acc : RefSeqDict) (x : string) (e : fault) :
  refSeqStep acc x = Panic e -> e = IndexOutOfRange.
Proof.
  unfold refSeqStep, index.
  destruct (Split x COLON !! 0%nat) as [tag|]; cbn [mbind exec_bind]; [|congruence].
  destruct (Split x COLON !! 1%nat) as [v|]; cbn [mbind exec_bind];
    repeat match goal with
           | |- context [if ?b then _ else _] => destruct b
           end;
    try destruct (Atoi v); congruence.
Qed.

(** A key of the table on its own, without a colon, is looked up and its
    value is then read from a slice of one element. *)
Lemma refSeqStep_bare_key (key : string) (acc : RefSeqDict) :
  key ∈ refSeqKeys -> refSeqStep acc key = Panic IndexOutOfRange.
Proof.
  unfold refSeqKeys. intros H.
  repeat (apply elem_of_cons in H as [->|H]; [reflexivity|]).
  inversion H.
Qed.

(** ** The alignment parser on the fields of its line *)

Lemma parseAlignment_fields (s f0 f1 f2 f3 f4 f5 f6 f7 f8 f9 f10 : string) (extra : list string) :
  Split s TAB = f0 :: f1 :: f2 :: f3 :: f4 :: f5 :: f6 :: f7 :: f8 :: f9 :: f10 :: extra ->
  parseAlignment s =
    Done (mkAlignment f0 (uint16 (storedInt f1)) f2 (uint32 (storedInt f3))
            (uint8 (storedInt f4)) f5 f6 (uint32 (storedInt f7)) (int32 (storedInt f8)) f9 f10).
Proof.
  intros H. unfold parseAlignment. rewrite H.
  cbn [index lookup list_lookup mbind exec_bind].
  rewrite <- !Atoi_storedInt.
  destruct (Atoi f1), (Atoi f3), (Atoi f4), (Atoi f7), (Atoi f8). reflexivity.
Qed.

Lemma parseAlignment_short (s : string) :
  (List.length (Split s TAB) < 11)%nat ->
  parseAlignment s = Panic IndexOutOfRange.
Proof.
  intros H. unfold parseAlignment.
  destruct (Split s TAB) as [|f0 fs]; [reflexivity|].
  do 10 (destruct fs as [|? fs];
         [cbn [index lookup list_lookup mbind exec_bind];
          repeat (match goal with |- context [Atoi ?x] => destruct (Atoi x) end);
          reflexivity|]).
  simpl in H. lia.
Qed.

(** Every pattern of [validateAlignment] starts with a repetition operator
    that has nothing to repeat, so none compiles; the first check already
    fails, whatever the alignment. *)
Lemma validateAlignment_rejects (a : Alignment) :
  validateAlignment a = (false, Some (SAMerror "Invalid qname in alignment")).
Proof. reflexivity. Qed.

(** * Properties of the scan driver *)

Lemma scanLines_app (pre rest : list string) (st : scan) :
  scanLines st (pre ++ rest) =
    (c ← scanLines st pre;
     match c with
     | Next st' => scanLines st' rest
     | Return r => Done (Return r)
     end).
Proof.
  revert st. induction pre as [|s pre IH]; intros st; simpl; [reflexivity|].
  destruct (iteration st s) as [[st'|r]|f]; simpl; [apply IH | reflexivity | reflexivity].
Qed.

(** When the scan reaches line [s] in state [st], the result of the whole
    function is decided by the iteration on [s] if that iteration returns or
    panics. *)
Lemma ReadSAMFile_returns_at (pre post : list string) (s : string) (st : scan) (r : SAMFile) :
  scanLines scan0 pre = Done (Next st) ->
  iteration st s = Done (Return r) ->
  ReadSAMFile (pre ++ s :: post) = Done r.
Proof.
  intros Hpre Hs. unfold ReadSAMFile.
  rewrite scanLines_app, Hpre. simpl. rewrite Hs. reflexivity.
Qed.

Lemma ReadSAMFile_panics_at (pre post : list string) (s : string) (st : scan) (f : fault) :
  scanLines scan0 pre = Done (Next st) ->
  iteration st s = Panic f ->
  ReadSAMFile (pre ++ s :: post) = Panic f.
Proof.
  intros Hpre Hs. unfold ReadSAMFile.
  rewrite scanLines_app, Hpre. simpl. rewrite Hs. reflexivity.
Qed.

Lemma recordsOf_app {A : Type} (ty : recordType) (parse : string -> exec A)
    (xs ys : list string) :
  recordsOf ty parse (xs ++ ys) = (recordsOf ty parse xs ++ recordsOf ty parse ys)%list.
Proof. unfold recordsOf. apply flat_map_app. Qed.

Lemma recordsOf_other {A : Type} (ty ty' : recordType) (parse : string -> exec A) (s : string) :
  classify s = Done ty' -> ty' <> ty -> recordsOf ty parse [s] = [].
Proof.
  intros Hc Hne. unfold recordsOf. simpl. rewrite Hc.
  destruct (parse s); [|reflexivity].
  destruct (decide (ty' = ty)); [contradiction | reflexivity].
Qed.

Lemma recordsOf_same {A : Type} (ty : recordType) (parse : string -> exec A)
    (s : string) (r : A) :
  classify s = Done ty -> parse s = Done r -> recordsOf ty parse [s] = [r].
Proof.
  intros Hc Hp. unfold recordsOf. simpl. rewrite Hc, Hp.
  destruct (decide (ty = ty)); [reflexivity | contradiction].
Qed.

Lemma lastHeader_other (s : string) (ty : recordType) (h0 : option HeaderLine) :
  classify s = Done ty -> ty <> Header -> lastHeader [s] h0 = h0.
Proof. intros Hc Hne. simpl. rewrite Hc. destruct ty; congruence. Qed.

Lemma collected_refl (st : scan) : collected st st [].
Proof. unfold collected. simpl. rewrite !app_nil_r. tauto. Qed.

Lemma collected_step (st0 st1 st2 : scan) (s : string) (rest : list string) :
  collected st0 st1 [s] -> collected st1 st2 rest -> collected st0 st2 (s :: rest).
Proof.
  unfold collected.
  intros (Hh1 & Hq1 & Hg1 & Hp1 & Ha1) (Hh2 & Hq2 & Hg2 & Hp2 & Ha2).
  change (s :: rest) with ([s] ++ rest)%list.
  rewrite !recordsOf_app, !app_assoc, <- Hq1, <- Hg1, <- Hp1, <- Ha1.
  repeat split; try assumption.
  rewrite Hh2, Hh1. simpl.
  destruct (classify s) as [[]|]; try reflexivity.
  destruct (parseHeader s); reflexivity.
Qed.

Ltac other_records Hc :=
  repeat (erewrite (recordsOf_other _ _ _ _ Hc) by discriminate);
  rewrite ?app_nil_r.

Lemma iteration_collected (st0 st : scan) (s : string) :
  iteration st0 s = Done (Next st) -> collected st0 st [s].
Proof.
  unfold iteration. intros H.
  destruct (slice_1_3 s) as [tag|] eqn:Htag; [|discriminate].
  assert (Hc : classify s = Done (typeOfTag tag)) by (unfold classify; rewrite Htag; reflexivity).
  cbn [mbind exec_bind negb] in H. unfold typeOfTag in Hc. revert H Hc.
  tag_cases tag; intros H Hc.
  - destruct (parseHeader s) as [hl|] eqn:Hp; [|discriminate]. cbn [mbind exec_bind negb] in H.
    destruct (validateHeader hl) as [[] e]; cbn [mbind exec_bind negb] in H; [|discriminate].
    injection H as <-. unfold collected. cbn [header rsdl rgl progl al].
    other_records Hc. simpl. rewrite Hc, Hp. tauto.
  - destruct (parseRefSeqDict s) as [r|] eqn:Hp; [|discriminate]. cbn [mbind exec_bind negb] in H.
    destruct (validateRefSeqDict r) as [[] e]; cbn [mbind exec_bind negb] in H; [|discriminate].
    destruct (lookupBool (rsdNames st0) (Name r)); [discriminate|].
    injection H as <-. unfold collected. cbn [header rsdl rgl progl al].
    rewrite (recordsOf_same _ _ _ _ Hc Hp), (lastHeader_other _ _ _ Hc) by discriminate.
    other_records Hc. tauto.
  - destruct (parseReadGroup s) as [r|] eqn:Hp; [|discriminate]. cbn [mbind exec_bind negb] in H.
    destruct (validateReadGroup r) as [[] e]; cbn [mbind exec_bind negb] in H; [|discriminate].
    destruct (lookupBool (rgIDs st0) (RG_ID r)); [discriminate|].
    injection H as <-. unfold collected. cbn [header rsdl rgl progl al].
    rewrite (recordsOf_same _ _ _ _ Hc Hp), (lastHeader_other _ _ _ Hc) by discriminate.
    other_records Hc. tauto.
  - destruct (parseProgram s) as [r|] eqn:Hp; [|discriminate]. cbn [mbind exec_bind negb] in H.
    destruct (validateProgram r) as [[] e]; cbn [mbind exec_bind negb] in H; [|discriminate].
    destruct (lookupBool (progIDs st0) (PG_ID r)); [discriminate|].
    injection H as <-. unfold collected. cbn [header rsdl rgl progl al].
    rewrite (recordsOf_same _ _ _ _ Hc Hp), (lastHeader_other _ _ _ Hc) by discriminate.
    other_records Hc. tauto.
  - injection H as <-. unfold collected.
    rewrite (lastHeader_other _ _ _ Hc) by discriminate.
    other_records Hc. tauto.
  - destruct (parseAlignment s) as [r|] eqn:Hp; [|discriminate].
    cbn [mbind exec_bind] in H. rewrite validateAlignment_rejects in H. discriminate.
Qed.

Lemma scanLines_collected (pre : list string) (st0 st : scan) :
  scanLines st0 pre = Done (Next st) -> collected st0 st pre.
Proof.
  revert st0. induction pre as [|s pre IH]; intros st0 H; simpl in H.
  - injection H as <-. apply collected_refl.
  - destruct (iteration st0 s) as [[st1|r]|f] eqn:Hs; simpl in H; try discriminate.
    eapply collected_step; [apply iteration_collected, Hs | apply IH, H].
Qed.

(** ** The names seen so far *)

Lemma lookupBool_insert (m : gmap string bool) (k k' : string) :
  lookupBool (<[k := true]> m) k' = if decide (k = k') then true else lookupBool m k'.
Proof. unfold lookupBool. rewrite lookup_insert. case_decide; reflexivity. Qed.

Lemma namesTracked_scan0 : namesTracked scan0.
Proof.
  split; [|constructor].
  intros k. unfold lookupBool. simpl. rewrite lookup_empty. simpl.
  split; [discriminate | intros H; inversion H].
Qed.

Lemma iteration_namesTracked (st0 st : scan) (s : string) :
  iteration st0 s = Done (Next st) -> namesTracked st0 -> namesTracked st.
Proof.
  unfold iteration. intros H Inv.
  destruct (slice_1_3 s) as [tag|]; [|discriminate].
  cbn [mbind exec_bind] in H. revert H.
  tag_cases tag; intros H.
  - destruct (parseHeader s) as [hl|]; [|discriminate]. cbn [mbind exec_bind] in H.
    destruct (validateHeader hl) as [[] e]; cbn [negb] in H; [|discriminate].
    injection H as <-. exact Inv.
  - destruct (parseRefSeqDict s) as [r|]; [|discriminate]. cbn [mbind exec_bind] in H.
    destruct (validateRefSeqDict r) as [[] e]; cbn [negb] in H; [|discriminate].
    destruct (lookupBool (rsdNames st0) (Name r)) eqn:Hseen; [discriminate|].
    injection H as <-. destruct Inv as [Hmem Hnd].
    assert (Hfresh : Name r ∉ map Name (rsdl st0)).
    { intros Hin. apply Hmem in Hin. congruence. }
    split; cbn [rsdl rsdNames].
    + intros k. rewrite lookupBool_insert, map_app, elem_of_app. simpl.
      rewrite list_elem_of_singleton.
      case_decide; subst; [tauto|].
      rewrite Hmem. split; [tauto | intros [?|?]; congruence].
    + rewrite map_app. simpl. apply NoDup_app. repeat split; try assumption.
      * intros x Hx Hx'. apply list_elem_of_singleton in Hx'. subst. contradiction.
      * apply NoDup_singleton.
  - destruct (parseReadGroup s) as [r|]; [|discriminate]. cbn [mbind exec_bind] in H.
    destruct (validateReadGroup r) as [[] e]; cbn [negb] in H; [|discriminate].
    destruct (lookupBool (rgIDs st0) (RG_ID r)); [discriminate|].
    injection H as <-. exact Inv.
  - destruct (parseProgram s) as [r|]; [|discriminate]. cbn [mbind exec_bind] in H.
    destruct (validateProgram r) as [[] e]; cbn [negb] in H; [|discriminate].
    destruct (lookupBool (progIDs st0) (PG_ID r)); [discriminate|].
    injection H as <-. exact Inv.
  - injection H as <-. exact Inv.
  - destruct (parseAlignment s) as [r|]; [|discriminate]. cbn [mbind exec_bind] in H.
    rewrite validateAlignment_rejects in H. discriminate.
Qed.

Lemma scanLines_namesTracked (pre : list string) (st0 st : scan) :
  scanLines st0 pre = Done (Next st) -> namesTracked st0 -> namesTracked st.
Proof.
  revert st0. induction pre as [|s pre IH]; intros st0 H Inv; simpl in H.
  - injection H as <-. exact Inv.
  - destruct (iteration st0 s) as [[st1|r]|f] eqn:Hs; cbn [mbind exec_bind] in H; try discriminate.
    eapply IH; [exact H | eapply iteration_namesTracked; eassumption].
Qed.

Lemma no_record_of_name (L : list RefSeqDict) (n : string) :
  n ∉ map Name L -> filter (fun x => Name x = n) L = [].
Proof.
  induction L as [|x L IH]; intros Hn; [reflexivity|].
  simpl in Hn. apply not_elem_of_cons in Hn as [Hx Hn].
  rewrite filter_cons, decide_False by congruence. apply IH, Hn.
Qed.

Lemma one_record_per_name (L : list RefSeqDict) (r : RefSeqDict) :
  NoDup (map Name L) -> r ∈ L ->
  List.length (filter (fun x => Name x = Name r) L) = 1%nat.
Proof.
  induction L as [|x L IH]; intros Hnd Hin; [inversion Hin|].
  simpl in Hnd. apply NoDup_cons in Hnd as [Hx Hnd].
  rewrite filter_cons. apply elem_of_cons in Hin as [->|Hin].
  - rewrite decide_True by reflexivity.
    rewrite no_record_of_name by exact Hx. reflexivity.
  - rewrite decide_False; [apply IH; assumption|].
    intros Heq. apply Hx. rewrite Heq. apply list_elem_of_fmap_2, Hin.
Qed.

Lemma recordsOf_elem {A : Type} (ty : recordType) (parse : string -> exec A)
    (lines : list string) (s : string) (r : A) :
  s ∈ lines -> classify s = Done ty -> parse s = Done r ->
  r ∈ recordsOf ty parse lines.
Proof.
  intros Hin Hc Hp. apply list_elem_of_In. unfold recordsOf. apply in_flat_map.
  exists s. split; [apply list_elem_of_In, Hin|].
  rewrite Hc, Hp. rewrite decide_True by reflexivity. left. reflexivity.
Qed.

(** * The claims of the specification *)

(** ** C1: what is returned when the scan stops *)

(** C1, counterexample.  A program line, then a read-group line with an
    unknown platform: the scan stops at the second line and returns the
    Program collection unset, although it holds the record of the first. *)
Lemma populated_collection_is_returned_unset :
  recordsOf Prog parseProgram [line ["@PG"; "ID:p1"]] = [mkProgram "p1" "" "" ""] /\
  ReadSAMFile [line ["@PG"; "ID:p1"]; line ["@RG"; "ID:g1"; "PL:BAD"]] =
    Done (mkSAMFile None (Some []) (Some []) None None
            (Some (SAMerror "Invalid platform in read group"))).
Proof. split; vm_compute; reflexivity. Qed.

(** C1, amended.  When the scan stops at a line, which collections come
    back is decided by the record type of that line: those of the types up
    to it in the order header, RefSeqDict, ReadGroup, Program, alignment are
    returned as accumulated from the lines before, in order, and the later
    ones are returned unset, populated or not.  A failing header comes back
    itself, with all four collections unset.  (For a RefSeqDict line the
    statement covers the duplicate name.) *)
Theorem abort_returns_by_failing_type
    (pre post : list string) (s : string) (st : scan) (ty : recordType) (r : SAMFile) :
  scanLines scan0 pre = Done (Next st) ->
  classify s = Done ty ->
  iteration st s = Done (Return r) ->
  ReadSAMFile (pre ++ s :: post) = Done r /\
  match ty with
  | Header =>
      exists hl, parseHeader s = Done hl /\ ret_header r = Some hl /\
      ret_rsdl r = None /\ ret_rgl r = None /\ ret_progl r = None /\ ret_al r = None
  | RefSeq =>
      forall rsd, parseRefSeqDict s = Done rsd -> fst (validateRefSeqDict rsd) = true ->
      ret_header r = lastHeader pre None /\
      ret_rsdl r = Some (recordsOf RefSeq parseRefSeqDict pre) /\
      ret_rgl r = None /\ ret_progl r = None /\ ret_al r = None
  | ReadGrp =>
      ret_header r = lastHeader pre None /\
      ret_rsdl r = Some (recordsOf RefSeq parseRefSeqDict pre) /\
      ret_rgl r = Some (recordsOf ReadGrp parseReadGroup pre) /\
      ret_progl r = None /\ ret_al r = None
  | Prog =>
      ret_header r = lastHeader pre None /\
      ret_rsdl r = Some (recordsOf RefSeq parseRefSeqDict pre) /\
      ret_rgl r = Some (recordsOf ReadGrp parseReadGroup pre) /\
      ret_progl r = Some (recordsOf Prog parseProgram pre) /\
      ret_al r = None
  | Comment => False
  | Align =>
      ret_header r = lastHeader pre None /\
      ret_rsdl r = Some (recordsOf RefSeq parseRefSeqDict pre) /\
      ret_rgl r = Some (recordsOf ReadGrp parseReadGroup pre) /\
      ret_progl r = Some (recordsOf Prog parseProgram pre) /\
      ret_al r = Some (recordsOf Align parseAlignment pre)
  end.
Proof.
  intros Hpre Hc Hs.
  split; [eapply ReadSAMFile_returns_at; eassumption|].
  pose proof (scanLines_collected _ _ _ Hpre) as (Hh & Hq & Hg & Hp & Ha).
  simpl in Hh, Hq, Hg, Hp, Ha. rewrite <- Hh, <- Hq, <- Hg, <- Hp, <- Ha.
  clear Hh Hq Hg Hp Ha Hpre.
  unfold iteration in Hs. unfold classify in Hc.
  destruct (slice_1_3 s) as [tag|]; [|discriminate].
  cbn [mbind exec_bind] in Hs, Hc. injection Hc as <-. unfold typeOfTag.
  revert Hs. tag_cases tag; intros Hs.
  - destruct (parseHeader s) as [hl|]; [|discriminate]. cbn [mbind exec_bind] in Hs.
    destruct (validateHeader hl) as [[] e]; cbn [negb] in Hs; [discriminate|].
    injection Hs as <-. exists hl. simpl. tauto.
  - intros rsd Hrsd Hvalid. rewrite Hrsd in Hs. cbn [mbind exec_bind] in Hs.
    destruct (validateRefSeqDict rsd) as [valid e]. simpl in Hvalid. subst valid.
    cbn [negb] in Hs.
    destruct (lookupBool (rsdNames st) (Name rsd)); [|discriminate].
    injection Hs as <-. simpl. tauto.
  - destruct (parseReadGroup s) as [rg|]; [|discriminate]. cbn [mbind exec_bind] in Hs.
    destruct (validateReadGroup rg) as [[] e]; cbn [negb] in Hs.
    + destruct (lookupBool (rgIDs st) (RG_ID rg)); [|discriminate].
      injection Hs as <-. simpl. tauto.
    + injection Hs as <-. simpl. tauto.
  - destruct (parseProgram s) as [prog|]; [|discriminate]. cbn [mbind exec_bind] in Hs.
    destruct (validateProgram prog) as [[] e]; cbn [negb] in Hs.
    + destruct (lookupBool (progIDs st) (PG_ID prog)); [|discriminate].
      injection Hs as <-. simpl. tauto.
    + injection Hs as <-. simpl. tauto.
  - discriminate.
  - destruct (parseAlignment s) as [a|]; [|discriminate]. cbn [mbind exec_bind] in Hs.
    destruct (validateAlignment a) as [[] e]; cbn [negb] in Hs; [discriminate|].
    injection Hs as <-. simpl. tauto.
Qed.

Lemma abort_returns_by_failing_type_witness :
  ReadSAMFile ([hdLine; sqLine; line ["@PG"; "ID:p1"]] ++ line ["@RG"; "ID:g1"; "PL:BAD"] :: [alnLine]) =
    Done (mkSAMFile (Some (mkHeaderLine "1.0" "coordinate")) (Some [chr1Record]) (Some []) None None
            (Some (SAMerror "Invalid platform in read group"))) /\
  recordsOf RefSeq parseRefSeqDict [hdLine; sqLine; line ["@PG"; "ID:p1"]] = [chr1Record] /\
  recordsOf Prog parseProgram [hdLine; sqLine; line ["@PG"; "ID:p1"]] = [mkProgram "p1" "" "" ""].
Proof.
  split; [|split; vm_compute; reflexivity].
  apply (abort_returns_by_failing_type [hdLine; sqLine; line ["@PG"; "ID:p1"]] [alnLine]
           (line ["@RG"; "ID:g1"; "PL:BAD"])
           (stateAfter [hdLine; sqLine; line ["@PG"; "ID:p1"]]) ReadGrp).
  - vm_compute. reflexivity.
  - vm_compute. reflexivity.
  - vm_compute. reflexivity.
Defined.

(** ** C2: the end-to-end scenario *)

(** An alignment line that the scan reaches never enters the collection:
    either it has too few fields and the parser panics, or it is parsed and
    rejected for its qname. *)
Lemma alignment_line_stops_scan (pre post : list string) (s : string) (st : scan) (a : Alignment) :
  scanLines scan0 pre = Done (Next st) ->
  classify s = Done Align ->
  parseAlignment s = Done a ->
  ReadSAMFile (pre ++ s :: post) =
    Done (mkSAMFile (header st) (Some (rsdl st)) (Some (rgl st)) (Some (progl st)) (Some (al st))
            (Some (SAMerror "Invalid qname in alignment"))).
Proof.
  intros Hpre Hc Hp. apply ReadSAMFile_returns_at with (st := st); [exact Hpre|].
  unfold iteration. unfold classify in Hc.
  destruct (slice_1_3 s) as [tag|]; [|discriminate].
  cbn [mbind exec_bind] in *. injection Hc as Hty. unfold typeOfTag in Hty.
  revert Hty. tag_cases tag; try discriminate. intros _.
  rewrite Hp. cbn [mbind exec_bind]. rewrite validateAlignment_rejects. reflexivity.
Qed.

(** C2.  On the header line, the @SQ line for chr1 and a well-formed
    alignment line, the code returns the header and the chr1 record, but no
    alignment and the error "Invalid qname in alignment": the alignment line
    is parsed into its eleven fields and then rejected. *)
Theorem scenario_alignment_is_rejected :
  parseAlignment alnLine =
    Done (mkAlignment "r001" 99 "chr1" 7 30 "8M" "=" 37 39 "TTAGATAA" "*") /\
  ReadSAMFile [hdLine; sqLine; alnLine] =
    Done (mkSAMFile (Some (mkHeaderLine "1.0" "coordinate")) (Some [chr1Record])
            (Some []) (Some []) (Some [])
            (Some (SAMerror "Invalid qname in alignment"))).
Proof. split; vm_compute; reflexivity. Qed.

(** ** C3: alignment lines with fewer than eleven fields *)

(** C3, counterexample.  A line of five fields is an alignment line, and the
    scan does not return an error for it: it panics. *)
Lemma five_field_alignment_panics :
  classify (line ["r001"; "99"; "chr1"; "7"; "30"]) = Done Align /\
  List.length (Split (line ["r001"; "99"; "chr1"; "7"; "30"]) TAB) = 5%nat /\
  ReadSAMFile [line ["r001"; "99"; "chr1"; "7"; "30"]] = Panic IndexOutOfRange /\
  (forall r, ReadSAMFile [line ["r001"; "99"; "chr1"; "7"; "30"]] <> Done r).
Proof. repeat split; try (vm_compute; reflexivity). intros r. vm_compute. discriminate. Qed.

(** C3, amended.  For a line classified as an alignment that has fewer than
    eleven tab-separated fields, the alignment parser panics with an index
    out of range, and so does the scan when it reaches the line: no error
    value is returned. *)
Theorem short_alignment_line_panics (pre post : list string) (s : string) (st : scan) :
  scanLines scan0 pre = Done (Next st) ->
  classify s = Done Align ->
  (List.length (Split s TAB) < 11)%nat ->
  parseAlignment s = Panic IndexOutOfRange /\
  ReadSAMFile (pre ++ s :: post) = Panic IndexOutOfRange.
Proof.
  intros Hpre Hc Hlen.
  pose proof (parseAlignment_short s Hlen) as Hp.
  split; [exact Hp|].
  apply ReadSAMFile_panics_at with (st := st); [exact Hpre|].
  unfold iteration. unfold classify in Hc.
  destruct (slice_1_3 s) as [tag|]; [|discriminate].
  cbn [mbind exec_bind] in *. injection Hc as Hty. unfold typeOfTag in Hty.
  revert Hty. tag_cases tag; try discriminate. intros _.
  rewrite Hp. reflexivity.
Qed.

Lemma short_alignment_line_panics_witness :
  parseAlignment (line ["r001"; "99"; "chr1"; "7"; "30"]) = Panic IndexOutOfRange /\
  ReadSAMFile ([hdLine; sqLine] ++ line ["r001"; "99"; "chr1"; "7"; "30"] :: [alnLine]) =
    Panic IndexOutOfRange.
Proof.
  apply (short_alignment_line_panics [hdLine; sqLine] [alnLine]
           (line ["r001"; "99"; "chr1"; "7"; "30"]) (stateAfter [hdLine; sqLine])).
  - vm_compute. reflexivity.
  - vm_compute. reflexivity.
  - vm_compute. lia.
Defined.

(** ** C4: the version pattern *)

(** What [validateHeader] accepts: digits, any one rune but a newline,
    digits.  The rune in the middle need not be a dot. *)
Lemma validateHeader_accepts (hl : HeaderLine) :
  fst (validateHeader hl) = true <->
  exists d1 c d2,
    runes (Version hl) = (d1 ++ [c] ++ d2)%list /\ c <> 10 /\
    d1 <> [] /\ Forall (fun x => inRanges x digits = true) d1 /\
    d2 <> [] /\ Forall (fun x => inRanges x digits = true) d2.
Proof.
  rewrite <- version_pattern_spec. unfold validateHeader.
  destruct (regexpMatch "^[0-9]+.[0-9]+$" (Version hl)) as [[] e]; simpl; tauto.
Qed.

(** C4.  "12x3" passes [validateHeader]: the dot of the pattern is not
    escaped and stands for any character.  The pattern documented on
    [HeaderLine.Version], with the dot escaped, rejects it. *)
Theorem unescaped_dot_accepts_12x3 :
  validateHeader (mkHeaderLine "12x3" "") = (true, None) /\
  regexpMatch documentedVersionPattern "12x3" = (false, None) /\
  ReadSAMFile [line ["@HD"; "VN:12x3"]] =
    Done (mkSAMFile (Some (mkHeaderLine "12x3" "")) (Some []) (Some []) (Some []) (Some []) None).
Proof. repeat split; vm_compute; reflexivity. Qed.

(** ** C5: the length of a reference sequence *)

(** What [validateRefSeqDict] accepts: a name with a rune of the first class
    somewhere in it, and a length in the range. *)
Lemma validateRefSeqDict_accepts (rsd : RefSeqDict) :
  fst (validateRefSeqDict rsd) = true <->
  (exists c, c ∈ runes (Name rsd) /\ inRanges c nameStart = true) /\
  1 <= Length rsd <= 0x1FFFFFFF.
Proof.
  rewrite <- name_pattern_spec. unfold validateRefSeqDict.
  destruct (regexpMatch "[!-)+-<>-~][!-~]*" (Name rsd)) as [[] e]; cbn [negb fst].
  - rewrite andb_true_iff, Z.geb_le, Z.leb_le. tauto.
  - split; [discriminate | intros [? _]; discriminate].
Qed.

(** The range check of [validateRefSeqDict] comes with no error value. *)
Lemma validateRefSeqDict_out_of_range (rsd : RefSeqDict) :
  fst (regexpMatch "[!-)+-<>-~][!-~]*" (Name rsd)) = true ->
  Length rsd < 1 \/ 536870911 < Length rsd ->
  validateRefSeqDict rsd = (false, None).
Proof.
  intros Hname Hlen. unfold validateRefSeqDict.
  destruct (regexpMatch "[!-)+-<>-~][!-~]*" (Name rsd)) as [m e].
  simpl in Hname. subst m. cbn [negb]. f_equal.
  apply andb_false_iff. destruct Hlen; [left | right]; lia.
Qed.

(** C5.  An @SQ line with length 0 (and one with length 2^29) stops the
    scan, but the error that comes back is nil. *)
Theorem out_of_range_length_returns_nil_error :
  parseRefSeqDict (line ["@SQ"; "SN:chr1"; "LN:0"]) = Done (mkRefSeqDict "chr1" 0 "" "" "" "") /\
  ReadSAMFile [line ["@SQ"; "SN:chr1"; "LN:0"]] =
    Done (mkSAMFile None None None None None None) /\
  ReadSAMFile [hdLine; line ["@SQ"; "SN:chr1"; "LN:536870912"]; alnLine] =
    Done (mkSAMFile (Some (mkHeaderLine "1.0" "coordinate")) None None None None None).
Proof. repeat split; vm_compute; reflexivity. Qed.

(** ** C6: duplicate reference sequence names *)

(** C6.  When the scan reaches an @SQ line that passes the grammar and whose
    name was given by an earlier @SQ line, it stops there with the error
    "Reference sequence name is not unique"; the RefSeqDict collection it
    returns is the one accumulated from the lines before: it holds the first
    record and no other record of that name. *)
Theorem duplicate_name_aborts_on_second
    (pre post : list string) (s1 s2 : string) (r1 r2 : RefSeqDict) (st : scan) :
  scanLines scan0 pre = Done (Next st) ->
  s1 ∈ pre -> classify s1 = Done RefSeq -> parseRefSeqDict s1 = Done r1 ->
  classify s2 = Done RefSeq -> parseRefSeqDict s2 = Done r2 ->
  fst (validateRefSeqDict r2) = true ->
  Name r1 = Name r2 ->
  ReadSAMFile (pre ++ s2 :: post) =
    Done (mkSAMFile (header st) (Some (recordsOf RefSeq parseRefSeqDict pre)) None None None
            (Some (SAMerror "Reference sequence name is not unique"))) /\
  r1 ∈ recordsOf RefSeq parseRefSeqDict pre /\
  List.length (filter (fun r => Name r = Name r2) (recordsOf RefSeq parseRefSeqDict pre)) = 1%nat.
Proof.
  intros Hpre Hin Hc1 Hp1 Hc2 Hp2 Hvalid Hname.
  pose proof (scanLines_collected _ _ _ Hpre) as (_ & Hrsdl & _).
  pose proof (scanLines_namesTracked _ _ _ Hpre namesTracked_scan0) as [Hmem Hnd].
  simpl in Hrsdl.
  assert (Hr1 : r1 ∈ rsdl st) by (rewrite Hrsdl; eapply recordsOf_elem; eassumption).
  rewrite <- Hrsdl. split; [|split; [exact Hr1|]].
  - apply ReadSAMFile_returns_at with (st := st); [exact Hpre|].
    unfold iteration. unfold classify in Hc2.
    destruct (slice_1_3 s2) as [tag|]; [|discriminate].
    cbn [mbind exec_bind] in *. injection Hc2 as Hty. unfold typeOfTag in Hty.
    revert Hty. tag_cases tag; try discriminate. intros _.
    rewrite Hp2. cbn [mbind exec_bind].
    destruct (validateRefSeqDict r2) as [valid e]. simpl in Hvalid. subst valid.
    cbn [negb].
    replace (lookupBool (rsdNames st) (Name r2)) with true; [reflexivity|].
    symmetry. apply Hmem. rewrite <- Hname. apply list_elem_of_fmap_2, Hr1.
  - rewrite <- Hname. apply one_record_per_name; assumption.
Qed.

Lemma duplicate_name_aborts_on_second_witness :
  ReadSAMFile ([hdLine; sqLine] ++ line ["@SQ"; "SN:chr1"; "LN:20"] :: [alnLine]) =
    Done (mkSAMFile (Some (mkHeaderLine "1.0" "coordinate")) (Some [chr1Record]) None None None
            (Some (SAMerror "Reference sequence name is not unique"))) /\
  chr1Record ∈ recordsOf RefSeq parseRefSeqDict [hdLine; sqLine] /\
  List.length (filter (fun r => Name r = "chr1")
                 (recordsOf RefSeq parseRefSeqDict [hdLine; sqLine])) = 1%nat.
Proof.
  apply (duplicate_name_aborts_on_second [hdLine; sqLine] [alnLine] sqLine
           (line ["@SQ"; "SN:chr1"; "LN:20"]) chr1Record (mkRefSeqDict "chr1" 20 "" "" "" "")
           (stateAfter [hdLine; sqLine])).
  - vm_compute. reflexivity.
  - apply list_elem_of_In. simpl. tauto.
  - vm_compute. reflexivity.
  - vm_compute. reflexivity.
  - vm_compute. reflexivity.
  - vm_compute. reflexivity.
  - vm_compute. reflexivity.
  - reflexivity.
Defined.

(** ** C7: read groups *)

Lemma validPlatforms_names (p : string) :
  lookupBool validPlatforms p = true <-> p ∈ platformNames.
Proof.
  unfold platformNames. split.
  - unfold lookupBool, validPlatforms. cbn [list_to_map foldr fst snd].
    rewrite !lookup_insert, lookup_empty. intros Hp.
    repeat case_decide; subst; try (apply list_elem_of_In; simpl; tauto).
    discriminate Hp.
  - intros Hp.
    repeat (apply elem_of_cons in Hp as [->|Hp]; [vm_compute; reflexivity|]).
    inversion Hp.
Qed.

(** What [validateReadGroup] accepts: the flow-order pattern does not
    compile, so a flow order is accepted only when it is empty. *)
Lemma validateReadGroup_accepts (rg : ReadGroup) :
  fst (validateReadGroup rg) = true <->
  FlowOrder rg = "" /\ (Platform rg = "" \/ Platform rg ∈ platformNames).
Proof.
  unfold validateReadGroup.
  change (regexpMatch "*|[ACMGRSVTWYHKDBN]+" (FlowOrder rg))
    with (false, Some ErrMissingRepeatArgument).
  destruct (String.eqb_spec (FlowOrder rg) "") as [Hfo|Hfo]; cbn [negb fst].
  - destruct (String.eqb_spec (Platform rg) "") as [Hpl|Hpl]; cbn [negb fst].
    + tauto.
    + destruct (lookupBool validPlatforms (Platform rg)) eqn:Hv; cbn [negb fst].
      * apply validPlatforms_names in Hv. tauto.
      * split; [discriminate|]. intros [_ [?|Hin]]; [contradiction|].
        apply validPlatforms_names in Hin. congruence.
  - split; [discriminate | tauto].
Qed.

(** C7.  A read group with flow order ACGT and platform ILLUMINA is
    rejected, for its flow order. *)
Theorem valid_flow_order_is_rejected :
  validateReadGroup (mkReadGroup "grp1" "" "" "" "ACGT" "" "" "" "" "ILLUMINA" "" "") =
    (false, Some (SAMerror "Invalid flow order in read group")) /\
  ReadSAMFile [line ["@RG"; "ID:grp1"; "FO:ACGT"; "PL:ILLUMINA"]] =
    Done (mkSAMFile None (Some []) (Some []) None None
            (Some (SAMerror "Invalid flow order in read group"))).
Proof. split; vm_compute; reflexivity. Qed.

(** ** C8: unknown keys and fields without a colon *)

(** C8, counterexample.  A header line with a field that has no colon is not
    parsed: the parser panics, and the scan with it. *)
Lemma colonless_header_field_panics :
  parseHeader (line ["@HD"; "VN:1.0"; "ZZ"]) = Panic IndexOutOfRange /\
  parseHeader (line ["@HD"; "VN:1.0"]) = Done (mkHeaderLine "1.0" "") /\
  ReadSAMFile [line ["@HD"; "VN:1.0"; "ZZ"]] = Panic IndexOutOfRange /\
  (forall r, ReadSAMFile [line ["@HD"; "VN:1.0"; "ZZ"]] <> Done r).
Proof. repeat split; try (vm_compute; reflexivity). intros r. vm_compute. discriminate. Qed.

(** C8, amended.  In a metadata line, a field KEY:VALUE whose key is unknown
    to the record type is skipped and the record is the one parsed without
    the field.  A field without a colon is skipped only by the RefSeqDict
    parser, when the field is none of its keys; on one of its keys without a
    colon the RefSeqDict parser panics, and the header, read-group and
    program parsers, which read the value before they look the key up, panic
    on any field without a colon: an index out of range. *)
Theorem unknown_fields_skipped_colonless_fields_panic
    (t key val : string) (fs1 fs2 : list string) :
  Forall (fun f => contains TAB f = false) (t :: fs1 ++ fs2) ->
  contains TAB key = false -> contains TAB val = false ->
  contains COLON key = false ->
  let withField := line (t :: fs1 ++ (key ++ String COLON val) :: fs2) in
  let withBareKey := line (t :: fs1 ++ key :: fs2) in
  let without := line (t :: fs1 ++ fs2) in
  (hlParseMap !! key = None -> parseHeader withField = parseHeader without) /\
  (key ∉ refSeqKeys -> parseRefSeqDict withField = parseRefSeqDict without) /\
  (rgParseMap !! key = None -> parseReadGroup withField = parseReadGroup without) /\
  (programParseMap !! key = None -> parseProgram withField = parseProgram without) /\
  (key ∉ refSeqKeys -> parseRefSeqDict withBareKey = parseRefSeqDict without) /\
  (key ∈ refSeqKeys -> parseRefSeqDict withBareKey = Panic IndexOutOfRange) /\
  parseHeader withBareKey = Panic IndexOutOfRange /\
  parseReadGroup withBareKey = Panic IndexOutOfRange /\
  parseProgram withBareKey = Panic IndexOutOfRange.
Proof.
  intros Hall Hkt Hvt Hkc withField withBareKey without.
  assert (Hf : contains TAB (key ++ String COLON val) = false).
  { rewrite contains_app. simpl. rewrite Hkt, Hvt. reflexivity. }
  pose proof (line_fields _ _ Hall) as L0.
  pose proof (line_fields _ _ (Forall_insert_field _ _ _ _ _ Hall Hf)) as L1.
  pose proof (line_fields _ _ (Forall_insert_field _ _ _ _ _ Hall Hkt)) as L2.
  subst withField withBareKey without.
  rewrite !parseHeader_loop, !parseReadGroup_loop, !parseProgram_loop, !parseRefSeqDict_loop.
  rewrite L0, L1, L2. cbn [mbind exec_bind].
  repeat split.
  - intros Hnone. apply rangeM_skip. intros acc. apply tagValueStep_unknown; assumption.
  - intros Hnone. apply rangeM_skip. intros acc.
    eapply refSeqStep_unknown; [apply Split_field_then_sep, Hkc | exact Hnone].
  - intros Hnone. apply rangeM_skip. intros acc. apply tagValueStep_unknown; assumption.
  - intros Hnone. apply rangeM_skip. intros acc. apply tagValueStep_unknown; assumption.
  - intros Hnone. apply rangeM_skip. intros acc.
    eapply refSeqStep_unknown; [apply Split_without_sep, Hkc | exact Hnone].
  - intros Hkey. apply rangeM_panic; [apply refSeqStep_only_fault|].
    intros acc. apply refSeqStep_bare_key, Hkey.
  - apply rangeM_panic; [apply tagValueStep_only_fault | intros; apply tagValueStep_no_colon, Hkc].
  - apply rangeM_panic; [apply tagValueStep_only_fault | intros; apply tagValueStep_no_colon, Hkc].
  - apply rangeM_panic; [apply tagValueStep_only_fault | intros; apply tagValueStep_no_colon, Hkc].
Qed.

Lemma unknown_fields_skipped_colonless_fields_panic_witness :
  (parseHeader (line ("@HD" :: ["VN:1.0"] ++ ("ZZ" ++ String COLON "foo") :: ["SO:coordinate"])) =
     parseHeader (line ("@HD" :: ["VN:1.0"] ++ ["SO:coordinate"])) /\
   parseRefSeqDict (line ("@HD" :: ["VN:1.0"] ++ "ZZ" :: ["SO:coordinate"])) =
     parseRefSeqDict (line ("@HD" :: ["VN:1.0"] ++ ["SO:coordinate"])) /\
   parseHeader (line ("@HD" :: ["VN:1.0"] ++ "ZZ" :: ["SO:coordinate"])) = Panic IndexOutOfRange) /\
  parseRefSeqDict (line ("@SQ" :: ["SN:chr1"] ++ "LN" :: ["UR:x"])) = Panic IndexOutOfRange.
Proof.
  split.
  - assert (Hall : Forall (fun f => contains TAB f = false)
                     ("@HD" :: ["VN:1.0"] ++ ["SO:coordinate"]))
      by (repeat constructor).
    pose proof (unknown_fields_skipped_colonless_fields_panic
                  "@HD" "ZZ" "foo" ["VN:1.0"] ["SO:coordinate"]
                  Hall eq_refl eq_refl eq_refl) as (H1 & _ & _ & _ & H5 & _ & H6 & _).
    split; [apply H1; vm_compute; reflexivity|].
    split; [apply H5|exact H6].
    vm_compute. intros H. repeat (apply elem_of_cons in H as [H|H]; [discriminate|]).
    inversion H.
  - assert (Hall : Forall (fun f => contains TAB f = false) ("@SQ" :: ["SN:chr1"] ++ ["UR:x"]))
      by (repeat constructor).
    pose proof (unknown_fields_skipped_colonless_fields_panic
                  "@SQ" "LN" "" ["SN:chr1"] ["UR:x"]
                  Hall eq_refl eq_refl eq_refl) as (_ & _ & _ & _ & _ & H6 & _).
    apply H6. vm_compute. apply elem_of_cons. right. apply elem_of_cons. left. reflexivity.
Defined.

(** ** C9: classification *)

Lemma typeOfTag_default (tag : string) :
  tag ∉ tagCodes -> typeOfTag tag = Align.
Proof.
  unfold tagCodes. rewrite !not_elem_of_cons.
  intros (H1 & H2 & H3 & H4 & H5 & _).
  apply String.eqb_neq in H1, H2, H3, H4, H5.
  unfold typeOfTag. rewrite H1, H2, H3, H4, H5. reflexivity.
Qed.

(** C9, counterexample.  The empty line and a two-byte line are not
    classified: the slice [s[1:3]] is out of range and the scan panics. *)
Lemma short_line_is_not_classified :
  classify "" = Panic SliceBoundsOutOfRange /\
  (forall ty, classify "" <> Done ty) /\
  ReadSAMFile [""] = Panic SliceBoundsOutOfRange /\
  ReadSAMFile [hdLine; "ab"] = Panic SliceBoundsOutOfRange.
Proof. repeat split; try (vm_compute; reflexivity). intros ty. vm_compute. discriminate. Qed.

(** C9, amended.  A line shorter than three bytes makes the scan panic at
    [s[1:3]].  A line of three bytes or more is classified by its bytes at
    offsets 1 and 2, whatever its first byte; when these are none of HD, SQ,
    RG, PG, CO the line is an alignment and goes to the alignment parser. *)
Theorem classification_by_bytes_1_and_2 (st : scan) (s : string) :
  ((String.length s < 3)%nat ->
     classify s = Panic SliceBoundsOutOfRange /\
     iteration st s = Panic SliceBoundsOutOfRange) /\
  (forall (c0 c1 c2 : ascii) (rest : string),
     s = String c0 (String c1 (String c2 rest)) ->
     classify s = Done (typeOfTag (String c1 (String c2 ""))) /\
     (String c1 (String c2 "") ∉ tagCodes ->
      classify s = Done Align /\
      iteration st s =
        (a ← parseAlignment s;
         let '(valid, err) := validateAlignment a in
         if negb valid
         then Done (Return (mkSAMFile (header st) (Some (rsdl st)) (Some (rgl st))
                              (Some (progl st)) (Some (al st)) err))
         else Done (Next (mkScan (header st) (rsdl st) (rgl st) (progl st) (al st ++ [a])
                            (rsdNames st) (rgIDs st) (progIDs st)))))).
Proof.
  split.
  - intros Hlen. destruct s as [|a [|b [|c r]]]; simpl in Hlen; try lia; split; reflexivity.
  - intros c0 c1 c2 rest ->. split; [reflexivity|].
    intros Hnot. split.
    + unfold classify. cbn [slice_1_3 mbind exec_bind]. rewrite typeOfTag_default by exact Hnot.
      reflexivity.
    + unfold iteration. cbn [slice_1_3 mbind exec_bind].
      unfold tagCodes in Hnot. rewrite !not_elem_of_cons in Hnot.
      destruct Hnot as (H1 & H2 & H3 & H4 & H5 & _).
      apply String.eqb_neq in H1, H2, H3, H4, H5.
      rewrite H1, H2, H3, H4, H5. reflexivity.
Qed.

Lemma classification_by_bytes_1_and_2_witness :
  (classify "ab" = Panic SliceBoundsOutOfRange /\
   iteration scan0 "ab" = Panic SliceBoundsOutOfRange) /\
  classify alnLine = Done Align.
Proof.
  split.
  - apply (proj1 (classification_by_bytes_1_and_2 scan0 "ab")). simpl. lia.
  - refine (proj1 (proj2 (proj2 (classification_by_bytes_1_and_2 scan0 alnLine)
                                 "r"%char "0"%char "0"%char _ eq_refl) _)).
    vm_compute. intros H. repeat (apply elem_of_cons in H as [H|H]; [discriminate|]).
    inversion H.
Defined.

(** ** C10: numeric fields *)

(** C10, counterexample.  A flag field that is not a decimal integer, but
    whose leading digits pass [2^64 - 1], is stored as 65535, not as 0; and
    the decimal integer [2^64], which is 0 modulo [2^16], is stored as 65535
    as well, because [Atoi] hands back the largest [int]. *)
Lemma undecodable_flag_is_stored_as_65535 :
  isDecimal "99999999999999999999x" = false /\
  Atoi "99999999999999999999x" = (MaxInt, Some ErrRange) /\
  parseAlignment
    (line ["r001"; "99999999999999999999x"; "chr1"; "7"; "30"; "8M"; "="; "37"; "39"; "TTAGATAA"; "*"]) =
    Done (mkAlignment "r001" 65535 "chr1" 7 30 "8M" "=" 37 39 "TTAGATAA" "*") /\
  isDecimal "18446744073709551616" = true /\
  decimalValue "18446744073709551616" mod 2 ^ 16 = 0 /\
  parseAlignment
    (line ["r001"; "18446744073709551616"; "chr1"; "7"; "30"; "8M"; "="; "37"; "39"; "TTAGATAA"; "*"]) =
    Done (mkAlignment "r001" 65535 "chr1" 7 30 "8M" "=" 37 39 "TTAGATAA" "*").
Proof. repeat split; vm_compute; reflexivity. Qed.

(** C10, amended.  The numeric fields of an alignment line and the LN value
    of an @SQ line are read by [Atoi], whose error is dropped, and what
    [Atoi] returns is converted to the type of the field by keeping its low
    bits (two's complement for the template length).  What [Atoi] returns is
    [storedInt]: 0 for a field that is not a decimal integer, unless its
    leading digits pass [2^64 - 1]; the value of a decimal integer in the
    range of [int]; and the nearest [int] in the remaining cases. *)
Theorem numeric_fields_store_converted_atoi_value
    (f0 f1 f2 f3 f4 f5 f6 f7 f8 f9 f10 t v : string) (extra fs : list string) :
  Forall (fun f => contains TAB f = false)
    (f0 :: f1 :: f2 :: f3 :: f4 :: f5 :: f6 :: f7 :: f8 :: f9 :: f10 :: extra) ->
  Forall (fun f => contains TAB f = false) (t :: fs) ->
  contains TAB v = false ->
  contains COLON v = false ->
  parseAlignment (line (f0 :: f1 :: f2 :: f3 :: f4 :: f5 :: f6 :: f7 :: f8 :: f9 :: f10 :: extra)) =
    Done (mkAlignment f0 (uint16 (storedInt f1)) f2 (uint32 (storedInt f3))
            (uint8 (storedInt f4)) f5 f6 (uint32 (storedInt f7)) (int32 (storedInt f8)) f9 f10) /\
  parseRefSeqDict (line (t :: fs ++ ["LN" ++ String COLON v])) =
    (rsd ← parseRefSeqDict (line (t :: fs));
     Done (mkRefSeqDict (Name rsd) (uint32 (storedInt v)) (AssemblyID rsd) (MD5 rsd)
             (Species rsd) (URI rsd))) /\
  (forall s, fst (Atoi s) = storedInt s).
Proof.
  intros Hal Hsq Hvt Hvc. split; [|split; [|exact Atoi_storedInt]].
  - apply parseAlignment_fields with (extra := extra).
    unfold line. apply Split_Join; [discriminate | exact Hal].
  - rewrite !parseRefSeqDict_loop.
    assert (Hsq' : Forall (fun f => contains TAB f = false) (t :: fs ++ ["LN" ++ String COLON v])).
    { inversion Hsq; subst. constructor; [assumption|].
      apply Forall_app. split; [assumption|]. repeat constructor.
      rewrite contains_app. simpl. exact Hvt. }
    rewrite (line_fields _ _ Hsq), (line_fields _ _ Hsq'). cbn [mbind exec_bind].
    rewrite rangeM_app.
    destruct (rangeM refSeqStep fs (mkRefSeqDict "" 0 "" "" "" "")) as [rsd|]; [|reflexivity].
    cbn [mbind exec_bind rangeM]. rewrite refSeqStep_LN by exact Hvc. reflexivity.
Qed.

Lemma numeric_fields_store_converted_atoi_value_witness :
  parseAlignment
    (line ["r001"; "65536"; "chr1"; "x7"; "-1"; "8M"; "="; "4294967297"; "-2147483649"; "TTAGATAA"; "*"]) =
    Done (mkAlignment "r001" 0 "chr1" 0 255 "8M" "=" 1 2147483647 "TTAGATAA" "*") /\
  parseRefSeqDict (line ("@SQ" :: ["SN:chr1"] ++ ["LN" ++ String COLON "4294967297"])) =
    Done (mkRefSeqDict "chr1" 1 "" "" "" "").
Proof.
  assert (Hal : Forall (fun f => contains TAB f = false)
                  ["r001"; "65536"; "chr1"; "x7"; "-1"; "8M"; "="; "4294967297"; "-2147483649";
                   "TTAGATAA"; "*"]) by (repeat constructor).
  assert (Hsq : Forall (fun f => contains TAB f = false) ["@SQ"; "SN:chr1"]) by (repeat constructor).
  destruct (numeric_fields_store_converted_atoi_value
              "r001" "65536" "chr1" "x7" "-1" "8M" "=" "4294967297" "-2147483649" "TTAGATAA" "*"
              "@SQ" "4294967297" [] ["SN:chr1"] Hal Hsq eq_refl eq_refl) as (H1 & H2 & _).
  split; [exact H1 | exact H2].
Defined.

(** * Further properties of the code *)

(** ** The reader *)

Lemma IndexByte_Some (b : list ascii) (c : ascii) (i : nat) :
  bufio.IndexByte b c = Some i <->
  (i < length b)%nat /\ b !! i = Some c /\ c ∉ take i b.
Proof.
  revert i. induction b as [|x b IH]; intros i; simpl.
  - split; [discriminate|]. intros [H _]. simpl in H. lia.
  - destruct (Ascii.eqb x c) eqn:Hx.
    + apply Ascii.eqb_eq in Hx. subst x. split.
      * intros [= <-]. simpl. split; [lia|]. split; [reflexivity|]. apply not_elem_of_nil.
      * intros (_ & Hi & Hn). destruct i; [reflexivity|].
        exfalso. apply Hn. simpl. apply elem_of_cons. left. reflexivity.
    + apply Ascii.eqb_neq in Hx.
      destruct (bufio.IndexByte b c) as [j|] eqn:Hj; simpl.
      * split.
        -- intros [= <-]. destruct (proj1 (IH j) eq_refl) as (H1 & H2 & H3).
           split; [simpl; lia|]. split; [exact H2|].
           simpl. rewrite not_elem_of_cons. split; [congruence|exact H3].
        -- intros (H1 & H2 & H3). destruct i as [|i].
           ++ simpl in H2. congruence.
           ++ simpl in H1, H2, H3. rewrite not_elem_of_cons in H3.
              f_equal. assert (Some j = Some i) as [= ->]; [|reflexivity].
              apply IH. split; [lia|]. split; [exact H2|apply H3].
      * split; [discriminate|]. intros (H1 & H2 & H3). destruct i as [|i].
        -- simpl in H2. congruence.
        -- simpl in H1, H2, H3. rewrite not_elem_of_cons in H3.
           assert (None = Some i); [|discriminate].
           apply IH. split; [lia|]. split; [exact H2|apply H3].
Qed.

Lemma IndexByte_None (b : list ascii) (c : ascii) :
  bufio.IndexByte b c = None <-> c ∉ b.
Proof.
  induction b as [|x b IH]; simpl.
  - split; [intros _; apply not_elem_of_nil|reflexivity].
  - destruct (Ascii.eqb x c) eqn:Hx.
    + apply Ascii.eqb_eq in Hx. subst x. split; [discriminate|].
      intros H. exfalso. apply H. apply elem_of_cons. left. reflexivity.
    + apply Ascii.eqb_neq in Hx. rewrite not_elem_of_cons.
      destruct (bufio.IndexByte b c); simpl.
      * split; [discriminate|]. intros [_ H]. apply IH in H. discriminate.
      * split; [|reflexivity]. intros _. split; [congruence|]. apply IH. reflexivity.
Qed.

Section Reader.
Variable n : nat.
Hypothesis n_ge_2 : (2 <= n)%nat.

(** A delivery takes at least one byte from the reader and leaves the size
    of the buffer as it is. *)
Lemma ReadLine_consumes (bs line : list ascii) (p : bool) (b' : bufio.Reader) :
  bufio.ReadLine (bufio.mkReader n bs) = (line, p, None, b') ->
  bufio.size b' = n /\ (length (bufio.unread b') < length bs)%nat.
Proof.
  unfold bufio.ReadLine, bufio.ReadSlice. cbn [bufio.size bufio.unread].
  destruct (bufio.IndexByte (take n bs) LF) as [i|] eqn:Hi.
  - apply IndexByte_Some in Hi as (Hlt & _ & _).
    rewrite length_take in Hlt.
    assert (Hd : (length (drop (S i) bs) < length bs)%nat) by (rewrite length_drop; lia).
    destruct (take (S i) bs) as [|x l] eqn:Ht.
    + intros [= _ _ <-]. simpl. split; [reflexivity|exact Hd].
    + repeat match goal with
             | |- context [match ?x with _ => _ end] => destruct x
             end; intros [= _ _ <-]; simpl; (split; [reflexivity|exact Hd]).
  - destruct (length bs <? n)%nat eqn:Hlen.
    + destruct bs as [|x bs]; [discriminate|].
      repeat match goal with
             | |- context [match ?x with _ => _ end] => destruct x
             end; intros [= _ _ <-]; simpl; (split; [reflexivity|lia]).
    + apply Nat.ltb_ge in Hlen.
      repeat match goal with
             | |- context [match ?x with _ => _ end] => destruct x
             end; intros [= _ _ <-]; cbn [bufio.size bufio.unread length];
        rewrite length_drop; (split; [reflexivity|lia]).
Qed.

(** With fuel for every byte and one more, [ReadLines] does not depend on
    its fuel: the loop ends at an error of [ReadLine]. *)
Lemma ReadLines_fuel (fuel fuel' : nat) (bs : list ascii) :
  (length bs < fuel)%nat -> (length bs < fuel')%nat ->
  bufio.ReadLines fuel (bufio.mkReader n bs) = bufio.ReadLines fuel' (bufio.mkReader n bs).
Proof.
  revert fuel' bs. induction fuel as [|fuel IH]; intros fuel' bs H H'; [lia|].
  destruct fuel' as [|fuel']; [lia|]. simpl.
  destruct (bufio.ReadLine (bufio.mkReader n bs)) as [[[line p] [e|]] [n' bs']] eqn:Hr;
    [reflexivity|].
  apply ReadLine_consumes in Hr as [Hn Hlt]. simpl in Hn, Hlt. subst n'.
  f_equal. apply IH; lia.
Qed.

Lemma linesOf_step (bs : list ascii) :
  linesOf n bs =
    match bufio.ReadLine (bufio.mkReader n bs) with
    | (line, _, None, b') => string_of_list_ascii line :: linesOf n (bufio.unread b')
    | _ => []
    end.
Proof.
  unfold linesOf at 1. cbn [bufio.ReadLines].
  destruct (bufio.ReadLine (bufio.mkReader n bs)) as [[[line p] [e|]] [n' bs']] eqn:Hr;
    [reflexivity|].
  apply ReadLine_consumes in Hr as [Hn Hlt]. cbn [bufio.size bufio.unread] in Hn, Hlt.
  subst n'. f_equal. unfold linesOf. cbn [bufio.unread]. apply ReadLines_fuel; lia.
Qed.

End Reader.

Lemma lastByte_snoc (l : list ascii) (x : ascii) : bufio.lastByte (l ++ [x]) = Some x.
Proof.
  unfold bufio.lastByte. rewrite length_app. simpl.
  replace (length l + 1 - 1)%nat with (length l) by lia.
  rewrite lookup_app_r by lia. rewrite Nat.sub_diag. reflexivity.
Qed.

Lemma dropLast_snoc (l : list ascii) (x : ascii) : bufio.dropLast (l ++ [x]) = l.
Proof.
  unfold bufio.dropLast. rewrite length_app. simpl.
  replace (length l + 1 - 1)%nat with (length l) by lia.
  rewrite take_app_length. reflexivity.
Qed.

Lemma IndexByte_app (b b' : list ascii) (c : ascii) (i : nat) :
  bufio.IndexByte b c = Some i -> bufio.IndexByte (b ++ b') c = Some i.
Proof.
  revert i. induction b as [|x b IH]; intros i; simpl; [discriminate|].
  destruct (Ascii.eqb x c); [trivial|].
  destruct (bufio.IndexByte b c) as [j|]; [|discriminate].
  rewrite (IH j eq_refl). trivial.
Qed.

Lemma IndexByte_first (co post : list ascii) (c : ascii) :
  c ∉ co -> bufio.IndexByte (co ++ c :: post) c = Some (length co).
Proof.
  induction co as [|x co IH]; intros H; simpl.
  - rewrite (proj2 (Ascii.eqb_eq c c) eq_refl). reflexivity.
  - rewrite not_elem_of_cons in H. destruct H as [Hx H].
    destruct (Ascii.eqb x c) eqn:E; [apply Ascii.eqb_eq in E; congruence|].
    rewrite (IH H). reflexivity.
Qed.

Section ReaderLines.
Variable n : nat.
Hypothesis n_ge_2 : (2 <= n)%nat.

Lemma ReadLine_found (bs : list ascii) (i : nat) :
  bufio.IndexByte (take n bs) LF = Some i ->
  bufio.ReadLine (bufio.mkReader n bs) =
    (bufio.dropEOL (take (S i) bs), false, None, bufio.mkReader n (drop (S i) bs)).
Proof.
  intros Hi. unfold bufio.ReadLine, bufio.ReadSlice. cbn [bufio.size bufio.unread].
  rewrite Hi. apply (IndexByte_Some) in Hi as (Hlt & _ & _).
  rewrite length_take in Hlt.
  destruct bs as [|x bs]; [simpl in Hlt; lia|]. reflexivity.
Qed.

Lemma ReadLine_full (bs : list ascii) :
  bufio.IndexByte (take n bs) LF = None -> (n <= length bs)%nat ->
  bufio.ReadLine (bufio.mkReader n bs) =
    match bufio.lastByte (take n bs) with
    | Some c =>
        if Ascii.eqb c CR
        then (bufio.dropLast (take n bs), true, None, bufio.mkReader n (CR :: drop n bs))
        else (take n bs, true, None, bufio.mkReader n (drop n bs))
    | None => (take n bs, true, None, bufio.mkReader n (drop n bs))
    end.
Proof.
  intros Hi Hn. unfold bufio.ReadLine, bufio.ReadSlice. cbn [bufio.size bufio.unread].
  rewrite Hi. apply Nat.ltb_ge in Hn. rewrite Hn. reflexivity.
Qed.

Lemma linesOf_nil : linesOf n [] = [].
Proof.
  rewrite linesOf_step by exact n_ge_2.
  unfold bufio.ReadLine, bufio.ReadSlice. cbn [bufio.size bufio.unread].
  rewrite take_nil. simpl. destruct n as [|k]; [lia|]. reflexivity.
Qed.

(** The first delivery from bytes that end at the end of a line does not
    depend on what follows them. *)
Lemma ReadLine_wholeLines (pre rest : list ascii) :
  wholeLines pre -> pre <> [] ->
  exists line p pre',
    bufio.ReadLine (bufio.mkReader n pre) = (line, p, None, bufio.mkReader n pre') /\
    bufio.ReadLine (bufio.mkReader n (pre ++ rest)) =
      (line, p, None, bufio.mkReader n (pre' ++ rest)) /\
    wholeLines pre' /\ (length pre' < length pre)%nat.
Proof.
  intros [->|[q Hq]] Hne; [contradiction|].
  destruct (bufio.IndexByte (take n pre) LF) as [i|] eqn:Hi.
  - assert (Hi' : bufio.IndexByte (take n (pre ++ rest)) LF = Some i).
    { rewrite take_app. apply IndexByte_app, Hi. }
    pose proof (proj1 (IndexByte_Some _ _ _) Hi) as (Hlt & _ & _).
    rewrite length_take in Hlt.
    exists (bufio.dropEOL (take (S i) pre)), false, (drop (S i) pre).
    split; [apply ReadLine_found, Hi|].
    split.
    { rewrite (ReadLine_found _ _ Hi').
      rewrite take_app_le by lia. rewrite drop_app_le by lia. reflexivity. }
    split.
    + subst pre. rewrite length_app in Hlt. simpl in Hlt.
      destruct (decide (S i <= length q)%nat) as [Hle|Hgt].
      * right. exists (drop (S i) q). rewrite drop_app_le by exact Hle. reflexivity.
      * left. apply drop_ge. rewrite length_app. simpl. lia.
    + rewrite length_drop. lia.
  - assert (Hlen : (n < length pre)%nat).
    { destruct (decide (n < length pre)%nat) as [|Hge]; [assumption|].
      exfalso. rewrite take_ge in Hi by lia.
      apply IndexByte_None in Hi. apply Hi. subst pre.
      apply elem_of_app. right. apply elem_of_cons. left. reflexivity. }
    assert (Hi' : bufio.IndexByte (take n (pre ++ rest)) LF = None).
    { rewrite take_app_le by lia. exact Hi. }
    assert (Hd : drop n pre = (drop n q ++ [LF])%list).
    { subst pre. rewrite length_app in Hlen. simpl in Hlen. apply drop_app_le. lia. }
    pose proof (ReadLine_full pre Hi ltac:(lia)) as R1.
    pose proof (ReadLine_full (pre ++ rest) Hi' ltac:(rewrite length_app; lia)) as R2.
    rewrite take_app_le in R2 by lia. rewrite drop_app_le in R2 by lia.
    destruct (bufio.lastByte (take n pre)) as [c|].
    + destruct (Ascii.eqb c CR).
      * exists (bufio.dropLast (take n pre)), true, (CR :: drop n pre).
        split; [exact R1|]. split; [exact R2|]. split.
        -- right. exists (CR :: drop n q). rewrite Hd. reflexivity.
        -- simpl. rewrite length_drop. lia.
      * exists (take n pre), true, (drop n pre).
        split; [exact R1|]. split; [exact R2|]. split.
        -- right. exists (drop n q). exact Hd.
        -- rewrite length_drop. lia.
    + exists (take n pre), true, (drop n pre).
      split; [exact R1|]. split; [exact R2|]. split.
      * right. exists (drop n q). exact Hd.
      * rewrite length_drop. lia.
Qed.

(** The lines of a file are those of its first lines, then those of the
    rest. *)
Lemma linesOf_app (pre rest : list ascii) :
  wholeLines pre -> linesOf n (pre ++ rest) = (linesOf n pre ++ linesOf n rest)%list.
Proof.
  remember (length pre) as k eqn:Hk. revert pre Hk.
  induction k as [k IH] using lt_wf_ind. intros pre Hk Hw.
  destruct pre as [|x pre0] eqn:Hpre.
  - rewrite linesOf_nil. reflexivity.
  - rewrite <- Hpre in *.
    destruct (ReadLine_wholeLines pre rest Hw ltac:(subst pre; discriminate))
      as (line & p & pre' & R1 & R2 & Hw' & Hlt).
    rewrite (linesOf_step n n_ge_2 (pre ++ rest)), R2.
    rewrite (linesOf_step n n_ge_2 pre), R1.
    cbn [bufio.unread]. rewrite <- app_comm_cons. f_equal.
    eapply IH; [|reflexivity|exact Hw']. lia.
Qed.

(** A line that fits the buffer with its line feed is delivered whole. *)
Lemma linesOf_line (co post : list ascii) :
  LF ∉ co -> (length co < n)%nat ->
  linesOf n (co ++ LF :: post) =
    string_of_list_ascii (bufio.dropEOL (co ++ [LF])) :: linesOf n post.
Proof.
  intros Hco Hlen.
  assert (Hi : bufio.IndexByte (take n (co ++ LF :: post)) LF = Some (length co)).
  { change (co ++ LF :: post)%list with (co ++ [LF] ++ post)%list.
    rewrite app_assoc, take_app.
    apply IndexByte_app. rewrite take_ge by (rewrite length_app; simpl; lia).
    rewrite <- (app_nil_r (co ++ [LF])), <- app_assoc. apply IndexByte_first, Hco. }
  rewrite (linesOf_step n n_ge_2), (ReadLine_found _ _ Hi). cbn [bufio.unread].
  change (co ++ LF :: post)%list with (co ++ [LF] ++ post)%list.
  rewrite app_assoc.
  replace (S (length co)) with (length (co ++ [LF])) by (rewrite length_app; simpl; lia).
  rewrite take_app_length, drop_app_length. reflexivity.
Qed.

End ReaderLines.

Lemma deliveries_linesOf (file : list ascii) :
  bufio.deliveries file = linesOf bufio.defaultBufSize file.
Proof. reflexivity. Qed.

Lemma defaultBufSize_ge_2 : (2 <= bufio.defaultBufSize)%nat.
Proof. unfold bufio.defaultBufSize. lia. Qed.

(** A line with CO at its bytes 1 and 2 is delivered as a line with CO at
    its bytes 1 and 2. *)
Lemma dropEOL_comment (c : ascii) (text : list ascii) :
  exists text',
    bufio.dropEOL ((c :: "C"%char :: "O"%char :: text) ++ [LF]) =
      c :: "C"%char :: "O"%char :: text'.
Proof.
  unfold bufio.dropEOL. rewrite lastByte_snoc, dropLast_snoc.
  rewrite (proj2 (Ascii.eqb_eq LF LF) eq_refl).
  destruct text as [|x text _] using rev_ind.
  - exists []. reflexivity.
  - change (c :: "C"%char :: "O"%char :: text ++ [x])%list
      with ((c :: "C"%char :: "O"%char :: text) ++ [x])%list.
    rewrite lastByte_snoc, dropLast_snoc.
    destruct (Ascii.eqb x CR); eexists; reflexivity.
Qed.

Lemma openAndScan_same (loop : list string -> exec SAMFile)
    (fs fs' : os.fileSystem) (name name' : string) (file file' : list ascii) :
  fs name = inr file -> fs' name' = inr file' ->
  loop (bufio.deliveries file) = loop (bufio.deliveries file') ->
  openAndScan loop fs name = openAndScan loop fs' name'.
Proof.
  intros H H' E. unfold openAndScan, os.Open. rewrite H, H', E. reflexivity.
Qed.

(** ** The scan driver *)

Lemma ReadSAMFile_scanLines (lines : list string) :
  ReadSAMFile lines =
    (c ← scanLines scan0 lines;
     match c with
     | Next st => Done (completion st)
     | Return r => Done r
     end).
Proof. reflexivity. Qed.

Lemma scanInv_scan0 : scanInv scan0.
Proof.
  split; [apply namesTracked_scan0|]. split.
  - split; (split; [|constructor]); intros k; unfold lookupBool; simpl;
      rewrite lookup_empty; simpl; (split; [discriminate | intros H; inversion H]).
  - repeat split; constructor.
Qed.

Lemma tracked_insert {A : Type} (f : A -> string) (m : gmap string bool) (L : list A) (x : A) :
  ((forall k, lookupBool m k = true <-> k ∈ map f L) /\ NoDup (map f L)) ->
  lookupBool m (f x) = false ->
  (forall k, lookupBool (<[f x := true]> m) k = true <-> k ∈ map f (L ++ [x])) /\
  NoDup (map f (L ++ [x])).
Proof.
  intros [Hmem Hnd] Hseen.
  assert (Hfresh : f x ∉ map f L) by (intros Hin; apply Hmem in Hin; congruence).
  split.
  - intros k. rewrite lookupBool_insert, map_app, elem_of_app. simpl.
    rewrite list_elem_of_singleton.
    case_decide; subst; [tauto|].
    rewrite Hmem. split; [tauto | intros [?|?]; congruence].
  - rewrite map_app. simpl. apply NoDup_app. repeat split; try assumption.
    + intros y Hy Hy'. apply list_elem_of_singleton in Hy'. subst. contradiction.
    + apply NoDup_singleton.
Qed.

(** One iteration keeps the invariant, and what it returns comes from the
    state it started in. *)
Lemma iteration_scanInv (st0 : scan) (s : string) (c : control) :
  scanInv st0 -> iteration st0 s = Done c ->
  match c with
  | Next st => scanInv st
  | Return r => returnedFrom st0 r
  end.
Proof.
  intros (Hn & (Hg & Hp) & (Vq & Vg & Vp & Va)) H. unfold iteration in H.
  destruct (slice_1_3 s) as [tag|]; [|discriminate].
  cbn [mbind exec_bind] in H. revert H.
  tag_cases tag; intros H.
  - destruct (parseHeader s) as [hl|]; [|discriminate]. cbn [mbind exec_bind] in H.
    destruct (validateHeader hl) as [[] e]; cbn [negb] in H; injection H as <-.
    + split; [exact Hn|]. split; [split; assumption|]. split; [|split; [|split]]; assumption.
    + repeat split; simpl; intros; discriminate.
  - destruct (parseRefSeqDict s) as [r|]; [|discriminate]. cbn [mbind exec_bind] in H.
    destruct (validateRefSeqDict r) as [[] e] eqn:Hv; cbn [negb] in H.
    + destruct (lookupBool (rsdNames st0) (Name r)) eqn:Hseen; injection H as <-.
      * repeat split; simpl; intros; congruence.
      * split; [apply (tracked_insert Name); assumption|].
        split; [split; assumption|].
        split; [|split; [|split]]; try assumption. cbn [rsdl].
        apply Forall_app. split; [assumption|]. constructor; [rewrite Hv; reflexivity | constructor].
    + injection H as <-. repeat split; simpl; intros; discriminate.
  - destruct (parseReadGroup s) as [r|]; [|discriminate]. cbn [mbind exec_bind] in H.
    destruct (validateReadGroup r) as [[] e] eqn:Hv; cbn [negb] in H.
    + destruct (lookupBool (rgIDs st0) (RG_ID r)) eqn:Hseen; injection H as <-.
      * repeat split; simpl; intros; congruence.
      * split; [assumption|].
        split; [split; [apply (tracked_insert RG_ID); assumption | assumption]|].
        split; [|split; [|split]]; try assumption. cbn [rgl].
        apply Forall_app. split; [assumption|]. constructor; [rewrite Hv; reflexivity | constructor].
    + injection H as <-. repeat split; simpl; intros; congruence.
  - destruct (parseProgram s) as [r|]; [|discriminate]. cbn [mbind exec_bind] in H.
    destruct (validateProgram r) as [[] e] eqn:Hv; cbn [negb] in H.
    + destruct (lookupBool (progIDs st0) (PG_ID r)) eqn:Hseen; injection H as <-.
      * repeat split; simpl; intros; congruence.
      * split; [assumption|].
        split; [split; [assumption | apply (tracked_insert PG_ID); assumption]|].
        split; [|split; [|split]]; try assumption. cbn [progl].
        apply Forall_app. split; [assumption|]. constructor; [rewrite Hv; reflexivity | constructor].
    + injection H as <-. repeat split; simpl; intros; congruence.
  - injection H as <-. split; [exact Hn|]. split; [split; assumption|].
    split; [|split; [|split]]; assumption.
  - destruct (parseAlignment s) as [a|]; [|discriminate]. cbn [mbind exec_bind] in H.
    rewrite validateAlignment_rejects in H. cbn [negb] in H. injection H as <-.
    repeat split; simpl; intros; congruence.
Qed.

Lemma scanLines_scanInv (lines : list string) (st0 : scan) (c : control) :
  scanInv st0 -> scanLines st0 lines = Done c ->
  exists st, scanInv st /\
    match c with
    | Next st' => st' = st
    | Return r => returnedFrom st r
    end.
Proof.
  revert st0. induction lines as [|s lines IH]; intros st0 Inv H; simpl in H.
  - injection H as <-. exists st0. auto.
  - destruct (iteration st0 s) as [[st1|r]|f] eqn:Hs; cbn [mbind exec_bind] in H; try discriminate.
    + apply (IH st1); [|exact H]. exact (iteration_scanInv _ _ _ Inv Hs).
    + injection H as <-. exists st0. split; [exact Inv|].
      exact (iteration_scanInv _ _ _ Inv Hs).
Qed.

(** Whatever [ReadSAMFile] returns comes from a state of the scan that has
    the invariant. *)
Lemma ReadSAMFile_from_state (lines : list string) (r : SAMFile) :
  ReadSAMFile lines = Done r -> exists st, scanInv st /\ returnedFrom st r.
Proof.
  rewrite ReadSAMFile_scanLines. intros H.
  destruct (scanLines scan0 lines) as [c|] eqn:Hc; [|discriminate].
  destruct (scanLines_scanInv _ _ _ scanInv_scan0 Hc) as (st & Inv & Hst).
  exists st. split; [exact Inv|].
  destruct c as [st'|r']; cbn [mbind exec_bind] in H; injection H as <-.
  - subst st'. repeat split; simpl; intros; congruence.
  - exact Hst.
Qed.

(** What an iteration returns is marked as a stop: it carries an error, or
    its alignment collection is unset; its error is one of [scanErrors]. *)
Lemma iteration_return_shape (st : scan) (s : string) (r : SAMFile) :
  iteration st s = Done (Return r) ->
  (ret_err r <> None \/ ret_al r = None) /\
  (forall e, ret_err r = Some e -> e ∈ scanErrors).
Proof.
  unfold iteration. intros H.
  destruct (slice_1_3 s) as [tag|]; [|discriminate].
  cbn [mbind exec_bind] in H. revert H.
  tag_cases tag; intros H.
  - destruct (parseHeader s) as [hl|]; [|discriminate]. cbn [mbind exec_bind] in H.
    unfold validateHeader in H. destruct (regexpMatch _ _) as [[] e0]; cbn [negb] in H;
      [discriminate|]. injection H as <-. simpl. split; [right; reflexivity|].
    intros e' [= <-]; unfold scanErrors; set_solver.
  - destruct (parseRefSeqDict s) as [x|]; [|discriminate]. cbn [mbind exec_bind] in H.
    unfold validateRefSeqDict in H. destruct (regexpMatch _ _) as [[] e0]; cbn [negb] in H.
    + destruct (_ && _); cbn [negb] in H.
      * destruct (lookupBool _ _); [|discriminate]. injection H as <-. simpl.
        split; [right; reflexivity|]. intros e' [= <-]; unfold scanErrors; set_solver.
      * injection H as <-. simpl. split; [right; reflexivity | discriminate].
    + injection H as <-. simpl. split; [right; reflexivity|].
      intros e' [= <-]; unfold scanErrors; set_solver.
  - destruct (parseReadGroup s) as [x|]; [|discriminate]. cbn [mbind exec_bind] in H.
    unfold validateReadGroup in H.
    repeat match type of H with
           | context [if ?b then _ else _] => destruct b; cbn [negb] in H
           end; try discriminate; injection H as <-; simpl;
      (split; [right; reflexivity|]; intros e' [= <-]; unfold scanErrors; set_solver).
  - destruct (parseProgram s) as [x|]; [|discriminate]. cbn [mbind exec_bind] in H.
    unfold validateProgram in H.
    repeat match type of H with
           | context [if ?b then _ else _] => destruct b; cbn [negb] in H
           end; try discriminate; injection H as <-; simpl;
      (split; [right; reflexivity|]; intros e' [= <-]; unfold scanErrors; set_solver).
  - discriminate.
  - destruct (parseAlignment s) as [a|]; [|discriminate]. cbn [mbind exec_bind] in H.
    rewrite validateAlignment_rejects in H. cbn [negb] in H. injection H as <-. simpl.
    split; [left; discriminate|]. intros e' [= <-]; unfold scanErrors; set_solver.
Qed.

Lemma scanLines_return_shape (lines : list string) (st : scan) (r : SAMFile) :
  scanLines st lines = Done (Return r) ->
  (ret_err r <> None \/ ret_al r = None) /\
  (forall e, ret_err r = Some e -> e ∈ scanErrors).
Proof.
  revert st. induction lines as [|s lines IH]; intros st H; simpl in H; [discriminate|].
  destruct (iteration st s) as [[st1|r1]|f] eqn:Hs; cbn [mbind exec_bind] in H; try discriminate.
  - eapply IH, H.
  - injection H as <-. eapply iteration_return_shape, Hs.
Qed.

(** An iteration that goes on was not on an alignment line. *)
Lemma iteration_next_type (st st' : scan) (s : string) :
  iteration st s = Done (Next st') ->
  exists ty, classify s = Done ty /\ ty <> Align.
Proof.
  unfold iteration, classify. intros H.
  destruct (slice_1_3 s) as [tag|]; [|discriminate].
  cbn [mbind exec_bind] in *. unfold typeOfTag. revert H.
  tag_cases tag; intros H; try (eexists; split; [reflexivity | discriminate]).
  destruct (parseAlignment s) as [a|]; [|discriminate]. cbn [mbind exec_bind] in H.
  rewrite validateAlignment_rejects in H. discriminate.
Qed.

Lemma scanLines_next_types (lines : list string) (st st' : scan) :
  scanLines st lines = Done (Next st') ->
  Forall (fun s => exists ty, classify s = Done ty /\ ty <> Align) lines.
Proof.
  revert st. induction lines as [|s lines IH]; intros st H; simpl in H; [constructor|].
  destruct (iteration st s) as [[st1|r1]|f] eqn:Hs; cbn [mbind exec_bind] in H; try discriminate.
  constructor; [eapply iteration_next_type, Hs | eapply IH, H].
Qed.

(** The error that the loop returns is one of nine. *)
Lemma scan_error_is_one_of_nine (lines : list string) (r : SAMFile) (e : error) :
  ReadSAMFile lines = Done r -> ret_err r = Some e -> e ∈ scanErrors.
Proof.
  rewrite ReadSAMFile_scanLines. intros H He.
  destruct (scanLines scan0 lines) as [[st|r']|] eqn:Hc; cbn [mbind exec_bind] in H;
    try discriminate; injection H as <-.
  - discriminate He.
  - exact (proj2 (scanLines_return_shape _ _ _ Hc) e He).
Qed.

(** X1. The error that [ReadSAMFile] returns is the error of [os.Open], with
    the five other values unset, or one of nine errors of the package; of
    the eleven messages of [validateAlignment] only the first, on the qname,
    is ever returned. *)
Theorem returned_error_is_open_error_or_one_of_nine
    (fs : os.fileSystem) (fileName : string) (r : returned) (e : returnedError) :
  ReadSAMFileAt fs fileName = Done r -> out_err r = Some e ->
  (exists errno, fs fileName = inl errno /\
     r = mkReturned None None None None None
           (Some (OpenError (os.mkPathError "open" fileName errno)))) \/
  (exists file e', fs fileName = inr file /\ e = ScanError e' /\ e' ∈ scanErrors).
Proof.
  unfold ReadSAMFileAt, openAndScan, os.Open. intros H He.
  destruct (fs fileName) as [errno|file].
  - left. exists errno. split; [reflexivity|]. injection H as <-. reflexivity.
  - right. destruct (ReadSAMFile (bufio.deliveries file)) as [r0|] eqn:H0; [|discriminate].
    cbn [mbind exec_bind] in H. injection H as <-.
    unfold ofScan in He. cbn [out_err] in He.
    destruct (ret_err r0) as [e0|] eqn:E0; [|discriminate]. injection He as <-.
    exists file, e0. split; [reflexivity|]. split; [reflexivity|].
    exact (scan_error_is_one_of_nine _ _ _ H0 E0).
Qed.

Lemma returned_error_is_open_error_or_one_of_nine_witness :
  ((exists errno, oneFile (fileOf [hdLine; sqLine; alnLine]) "reads.sam" = inl errno /\
      mkReturned (Some (mkHeaderLine "1.0" "coordinate")) (Some [chr1Record])
        (Some []) (Some []) (Some [])
        (Some (ScanError (SAMerror "Invalid qname in alignment"))) =
      mkReturned None None None None None
        (Some (OpenError (os.mkPathError "open" "reads.sam" errno)))) \/
   (exists file e',
      oneFile (fileOf [hdLine; sqLine; alnLine]) "reads.sam" = inr file /\
      ScanError (SAMerror "Invalid qname in alignment") = ScanError e' /\ e' ∈ scanErrors)) /\
  ((exists errno, oneFile (fileOf [hdLine; sqLine; alnLine]) "other.sam" = inl errno /\
      mkReturned None None None None None
        (Some (OpenError (os.mkPathError "open" "other.sam" 2))) =
      mkReturned None None None None None
        (Some (OpenError (os.mkPathError "open" "other.sam" errno)))) \/
   (exists file e',
      oneFile (fileOf [hdLine; sqLine; alnLine]) "other.sam" = inr file /\
      OpenError (os.mkPathError "open" "other.sam" 2) = ScanError e' /\ e' ∈ scanErrors)).
Proof.
  split.
  - apply (returned_error_is_open_error_or_one_of_nine
             (oneFile (fileOf [hdLine; sqLine; alnLine])) "reads.sam");
      [vm_compute; reflexivity|reflexivity].
  - apply (returned_error_is_open_error_or_one_of_nine
             (oneFile (fileOf [hdLine; sqLine; alnLine])) "other.sam");
      [vm_compute; reflexivity|reflexivity].
Defined.

(** X2. The scan stops at the first line that fails: once [ReadSAMFile] has
    panicked, or has returned an error or an unset alignment collection, the
    lines that follow change nothing. *)
Theorem lines_after_the_stop_are_not_read (lines more : list string) :
  (forall f, ReadSAMFile lines = Panic f -> ReadSAMFile (lines ++ more) = Panic f) /\
  (forall r, ReadSAMFile lines = Done r -> ret_err r <> None \/ ret_al r = None ->
             ReadSAMFile (lines ++ more) = Done r).
Proof.
  rewrite !ReadSAMFile_scanLines, scanLines_app.
  destruct (scanLines scan0 lines) as [[st|r']|f'] eqn:Hc; cbn [mbind exec_bind].
  - split; [discriminate|]. intros r [= <-] [H|H]; [contradiction H; reflexivity | discriminate H].
  - split; [discriminate|]. intros r H _. exact H.
  - split; [intros f H; exact H | discriminate].
Qed.

Lemma lines_after_the_stop_are_not_read_witness :
  ReadSAMFile ([line ["@SQ"; "SN:chr1"; "LN:0"]] ++ [hdLine; sqLine]) =
    Done (mkSAMFile None None None None None None) /\
  ReadSAMFile ([""] ++ [hdLine]) = Panic SliceBoundsOutOfRange.
Proof.
  split.
  - apply (proj2 (lines_after_the_stop_are_not_read [line ["@SQ"; "SN:chr1"; "LN:0"]] [hdLine; sqLine])).
    + vm_compute. reflexivity.
    + right. reflexivity.
  - apply (proj1 (lines_after_the_stop_are_not_read [""] [hdLine])). vm_compute. reflexivity.
Defined.

(** X3. When [ReadSAMFile] returns without an error and with an alignment
    collection, it went through all the lines: none of them is an alignment
    line, the header is the last header line, and the collections hold the
    records of all the @SQ, @RG and @PG lines in the order of the file. *)
Theorem completed_scan_returns_all_records (lines : list string) (r : SAMFile) :
  ReadSAMFile lines = Done r -> ret_err r = None -> ret_al r <> None ->
  r = mkSAMFile (lastHeader lines None)
        (Some (recordsOf RefSeq parseRefSeqDict lines))
        (Some (recordsOf ReadGrp parseReadGroup lines))
        (Some (recordsOf Prog parseProgram lines))
        (Some []) None /\
  Forall (fun s => exists ty, classify s = Done ty /\ ty <> Align) lines.
Proof.
  rewrite ReadSAMFile_scanLines. intros H He Ha.
  destruct (scanLines scan0 lines) as [[st|r']|] eqn:Hc; cbn [mbind exec_bind] in H;
    try discriminate; injection H as <-.
  - split; [|eapply scanLines_next_types, Hc].
    destruct (scanLines_collected _ _ _ Hc) as (Hh & Hq & Hg & Hp & _).
    destruct (scanLines_scanInv _ _ _ scanInv_scan0 Hc) as (st' & (_ & _ & (_ & _ & _ & Hal)) & <-).
    simpl in Hh, Hq, Hg, Hp. unfold completion. rewrite Hh, Hq, Hg, Hp, Hal. reflexivity.
  - destruct (proj1 (scanLines_return_shape _ _ _ Hc)); contradiction.
Qed.

Lemma completed_scan_returns_all_records_witness :
  mkSAMFile (Some (mkHeaderLine "1.0" "coordinate")) (Some [chr1Record]) (Some []) (Some []) (Some []) None =
  mkSAMFile (lastHeader [hdLine; sqLine] None)
    (Some (recordsOf RefSeq parseRefSeqDict [hdLine; sqLine]))
    (Some (recordsOf ReadGrp parseReadGroup [hdLine; sqLine]))
    (Some (recordsOf Prog parseProgram [hdLine; sqLine]))
    (Some []) None.
Proof.
  refine (proj1 (completed_scan_returns_all_records [hdLine; sqLine]
                   (mkSAMFile (Some (mkHeaderLine "1.0" "coordinate")) (Some [chr1Record])
                      (Some []) (Some []) (Some []) None) _ eq_refl _)).
  - vm_compute. reflexivity.
  - discriminate.
Defined.

(** A line that the loop receives with CO at its bytes 1 and 2 is
    skipped. *)
Lemma comment_delivery_changes_nothing (pre post : list string) (co : string) :
  classify co = Done Comment ->
  ReadSAMFile (pre ++ co :: post) = ReadSAMFile (pre ++ post).
Proof.
  intros Hc. rewrite !ReadSAMFile_scanLines, !scanLines_app.
  destruct (scanLines scan0 pre) as [[st|r]|f]; cbn [mbind exec_bind]; try reflexivity.
  simpl scanLines at 1.
  replace (iteration st co) with (@Done control (Next st)); [reflexivity|].
  unfold iteration. unfold classify in Hc.
  destruct (slice_1_3 co) as [tag|]; [|discriminate].
  cbn [mbind exec_bind] in *. injection Hc as Hty. unfold typeOfTag in Hty.
  revert Hty. tag_cases tag; try discriminate. reflexivity.
Qed.

(** X4. A comment line of the file that fits the buffer of the reader with
    its line feed, 4096 bytes, is skipped: the file with the line and the
    file without it give the same result.  The line starts at the start of
    the file or after a line feed, and has CO at its bytes 1 and 2. *)
Theorem comment_line_changes_nothing
    (fs fs' : os.fileSystem) (name name' : string) (before after text : list ascii)
    (c : ascii) :
  let co := (c :: "C"%char :: "O"%char :: text) in
  fs name = inr (before ++ co ++ LF :: after)%list ->
  fs' name' = inr (before ++ after)%list ->
  before = [] \/ (exists p, before = (p ++ [LF])%list) ->
  LF ∉ co -> (length co < bufio.defaultBufSize)%nat ->
  ReadSAMFileAt fs name = ReadSAMFileAt fs' name'.
Proof.
  intros co H H' Hw Hco Hlen. subst co.
  apply (openAndScan_same _ _ _ _ _ _ _ H H').
  rewrite (deliveries_linesOf (before ++ after)), (deliveries_linesOf (before ++ _ ++ _)).
  rewrite (linesOf_app _ defaultBufSize_ge_2 before after Hw).
  rewrite (linesOf_app _ defaultBufSize_ge_2 before (_ ++ _) Hw).
  rewrite (linesOf_line _ defaultBufSize_ge_2) by assumption.
  destruct (dropEOL_comment c text) as [text' ->].
  apply comment_delivery_changes_nothing. reflexivity.
Qed.

Lemma comment_line_changes_nothing_witness :
  ReadSAMFileAt
    (oneFile (fileOf [hdLine; line ["@CO"; "no:colon needed"; ""]; sqLine])) "reads.sam" =
  ReadSAMFileAt (oneFile (fileOf [hdLine; sqLine])) "reads.sam".
Proof.
  refine (comment_line_changes_nothing
            (oneFile (fileOf [hdLine; line ["@CO"; "no:colon needed"; ""]; sqLine]))
            (oneFile (fileOf [hdLine; sqLine])) "reads.sam" "reads.sam"
            (fileOf [hdLine]) (fileOf [sqLine])
            (list_ascii_of_string (line [""; "no:colon needed"; ""])) "@"%char
            _ _ _ _ _).
  - vm_compute. reflexivity.
  - vm_compute. reflexivity.
  - right. exists (list_ascii_of_string hdLine). vm_compute. reflexivity.
  - vm_compute. intros H. repeat (apply elem_of_cons in H as [H|H]; [discriminate|]).
    inversion H.
  - vm_compute. lia.
Defined.

(** X5. When the scan reaches an @RG line that passes [validateReadGroup] and
    whose ID an earlier @RG line had, it stops with the error "Read group
    name is not unique" and returns the RefSeqDict and ReadGroup collections
    accumulated before the line.  The ID may be empty: read-group lines
    without an ID field all have the empty ID. *)
Theorem duplicate_read_group_id_aborts
    (pre post : list string) (s1 s2 : string) (r1 r2 : ReadGroup) (st : scan) :
  scanLines scan0 pre = Done (Next st) ->
  s1 ∈ pre -> classify s1 = Done ReadGrp -> parseReadGroup s1 = Done r1 ->
  classify s2 = Done ReadGrp -> parseReadGroup s2 = Done r2 ->
  fst (validateReadGroup r2) = true ->
  RG_ID r1 = RG_ID r2 ->
  ReadSAMFile (pre ++ s2 :: post) =
    Done (mkSAMFile (lastHeader pre None)
            (Some (recordsOf RefSeq parseRefSeqDict pre))
            (Some (recordsOf ReadGrp parseReadGroup pre)) None None
            (Some (SAMerror "Read group name is not unique"))) /\
  r1 ∈ recordsOf ReadGrp parseReadGroup pre.
Proof.
  intros Hpre Hin Hc1 Hp1 Hc2 Hp2 Hvalid Hid.
  pose proof (scanLines_collected _ _ _ Hpre) as (Hh & Hq & Hg & _).
  destruct (scanLines_scanInv _ _ _ scanInv_scan0 Hpre) as (st' & (_ & ((Hmem & _) & _) & _) & <-).
  simpl in Hh, Hq, Hg.
  assert (Hr1 : r1 ∈ rgl st) by (rewrite Hg; eapply recordsOf_elem; eassumption).
  rewrite <- Hh, <- Hq, <- Hg. split; [|exact Hr1].
  apply ReadSAMFile_returns_at with (st := st); [exact Hpre|].
  unfold iteration. unfold classify in Hc2.
  destruct (slice_1_3 s2) as [tag|]; [|discriminate].
  cbn [mbind exec_bind] in *. injection Hc2 as Hty. unfold typeOfTag in Hty.
  revert Hty. tag_cases tag; try discriminate. intros _.
  rewrite Hp2. cbn [mbind exec_bind].
  destruct (validateReadGroup r2) as [valid e]. simpl in Hvalid. subst valid.
  cbn [negb].
  replace (lookupBool (rgIDs st) (RG_ID r2)) with true; [reflexivity|].
  symmetry. apply Hmem. rewrite <- Hid. apply list_elem_of_fmap_2, Hr1.
Qed.

Lemma duplicate_read_group_id_aborts_witness :
  ReadSAMFile ([sqLine; line ["@RG"; "SM:s1"]] ++ line ["@RG"; "SM:s2"] :: [alnLine]) =
    Done (mkSAMFile None (Some [chr1Record])
            (Some [mkReadGroup "" "" "" "" "" "" "" "" "" "" "" "s1"]) None None
            (Some (SAMerror "Read group name is not unique"))) /\
  mkReadGroup "" "" "" "" "" "" "" "" "" "" "" "s1" ∈
    recordsOf ReadGrp parseReadGroup [sqLine; line ["@RG"; "SM:s1"]].
Proof.
  apply (duplicate_read_group_id_aborts [sqLine; line ["@RG"; "SM:s1"]] [alnLine]
           (line ["@RG"; "SM:s1"]) (line ["@RG"; "SM:s2"])
           (mkReadGroup "" "" "" "" "" "" "" "" "" "" "" "s1")
           (mkReadGroup "" "" "" "" "" "" "" "" "" "" "" "s2")
           (stateAfter [sqLine; line ["@RG"; "SM:s1"]])).
  - vm_compute. reflexivity.
  - apply list_elem_of_In. simpl. tauto.
  - vm_compute. reflexivity.
  - vm_compute. reflexivity.
  - vm_compute. reflexivity.
  - vm_compute. reflexivity.
  - vm_compute. reflexivity.
  - reflexivity.
Defined.

(** X6. When the scan reaches a @PG line with an ID that an earlier @PG line
    had, it stops with the error "Program ID is not unique" and returns the
    RefSeqDict, ReadGroup and Program collections accumulated before the
    line; a @PG line without an ID never gets that far, it stops the scan
    with "Program ID is required". *)
Theorem duplicate_program_id_aborts
    (pre post : list string) (s1 s2 : string) (r1 r2 : Program) (st : scan) :
  scanLines scan0 pre = Done (Next st) ->
  classify s2 = Done Prog -> parseProgram s2 = Done r2 ->
  (PG_ID r2 = "" ->
   ReadSAMFile (pre ++ s2 :: post) =
     Done (mkSAMFile (lastHeader pre None)
             (Some (recordsOf RefSeq parseRefSeqDict pre))
             (Some (recordsOf ReadGrp parseReadGroup pre))
             (Some (recordsOf Prog parseProgram pre)) None
             (Some (SAMerror "Program ID is required")))) /\
  (s1 ∈ pre -> classify s1 = Done Prog -> parseProgram s1 = Done r1 ->
   PG_ID r1 = PG_ID r2 ->
   ReadSAMFile (pre ++ s2 :: post) =
     Done (mkSAMFile (lastHeader pre None)
             (Some (recordsOf RefSeq parseRefSeqDict pre))
             (Some (recordsOf ReadGrp parseReadGroup pre))
             (Some (recordsOf Prog parseProgram pre)) None
             (Some (SAMerror "Program ID is not unique"))) /\
   r1 ∈ recordsOf Prog parseProgram pre).
Proof.
  intros Hpre Hc2 Hp2.
  pose proof (scanLines_collected _ _ _ Hpre) as (Hh & Hq & Hg & Hp & _).
  destruct (scanLines_scanInv _ _ _ scanInv_scan0 Hpre)
    as (st' & (_ & (_ & (Hmem & _)) & (_ & _ & Vp & _)) & <-).
  simpl in Hh, Hq, Hg, Hp. rewrite <- Hh, <- Hq, <- Hg, <- Hp.
  assert (Hit : iteration st s2 =
                  (let '(valid, err) := validateProgram r2 in
                   if negb valid then
                     Done (Return (mkSAMFile (header st) (Some (rsdl st)) (Some (rgl st))
                                     (Some (progl st)) None err))
                   else if lookupBool (progIDs st) (PG_ID r2) then
                     Done (Return (mkSAMFile (header st) (Some (rsdl st)) (Some (rgl st))
                                     (Some (progl st)) None
                                     (Some (SAMerror "Program ID is not unique"))))
                   else Done (Next (mkScan (header st) (rsdl st) (rgl st) (progl st ++ [r2]) (al st)
                                      (rsdNames st) (rgIDs st) (<[PG_ID r2 := true]> (progIDs st)))))).
  { unfold iteration. unfold classify in Hc2.
    destruct (slice_1_3 s2) as [tag|]; [|discriminate].
    cbn [mbind exec_bind] in *. injection Hc2 as Hty. unfold typeOfTag in Hty.
    revert Hty. tag_cases tag; try discriminate. intros _.
    rewrite Hp2. reflexivity. }
  split.
  - intros Hempty. apply ReadSAMFile_returns_at with (st := st); [exact Hpre|].
    rewrite Hit. unfold validateProgram. rewrite Hempty. reflexivity.
  - intros Hin Hc1 Hp1 Hid.
    assert (Hr1 : r1 ∈ progl st) by (rewrite Hp; eapply recordsOf_elem; eassumption).
    split; [|exact Hr1].
    apply ReadSAMFile_returns_at with (st := st); [exact Hpre|].
    rewrite Hit. unfold validateProgram.
    rewrite Forall_forall in Vp. pose proof (Vp _ Hr1) as Hv. unfold validateProgram in Hv.
    rewrite <- Hid. destruct (String.eqb (PG_ID r1) ""); [discriminate Hv|]. cbn [negb].
    replace (lookupBool (progIDs st) (PG_ID r1)) with true; [reflexivity|].
    symmetry. apply Hmem. apply list_elem_of_fmap_2, Hr1.
Qed.

Lemma duplicate_program_id_aborts_witness :
  ReadSAMFile ([line ["@PG"; "ID:bwa"]] ++ line ["@PG"; "ID:bwa"; "PN:again"] :: []) =
    Done (mkSAMFile None (Some []) (Some []) (Some [mkProgram "bwa" "" "" ""]) None
            (Some (SAMerror "Program ID is not unique"))) /\
  mkProgram "bwa" "" "" "" ∈ recordsOf Prog parseProgram [line ["@PG"; "ID:bwa"]].
Proof.
  refine (proj2 (duplicate_program_id_aborts [line ["@PG"; "ID:bwa"]] []
                   (line ["@PG"; "ID:bwa"]) (line ["@PG"; "ID:bwa"; "PN:again"])
                   (mkProgram "bwa" "" "" "") (mkProgram "bwa" "again" "" "")
                   (stateAfter [line ["@PG"; "ID:bwa"]]) _ _ _) _ _ _ _).
  - vm_compute. reflexivity.
  - vm_compute. reflexivity.
  - vm_compute. reflexivity.
  - apply list_elem_of_In. simpl. tauto.
  - vm_compute. reflexivity.
  - vm_compute. reflexivity.
  - reflexivity.
Defined.

(** X7. [ReadSAMFile] never returns an alignment: whenever it returns, the
    alignment collection is unset or empty. *)
Theorem no_alignment_is_ever_returned (lines : list string) (r : SAMFile) (L : list Alignment) :
  ReadSAMFile lines = Done r -> ret_al r = Some L -> L = [].
Proof.
  intros H HL. destruct (ReadSAMFile_from_state _ _ H) as (st & (_ & _ & (_ & _ & _ & Ha)) & (_ & _ & _ & Hr)).
  rewrite (Hr _ HL). exact Ha.
Qed.

Lemma no_alignment_is_ever_returned_witness :
  ReadSAMFile [hdLine; sqLine; alnLine] =
    Done (mkSAMFile (Some (mkHeaderLine "1.0" "coordinate")) (Some [chr1Record])
            (Some []) (Some []) (Some []) (Some (SAMerror "Invalid qname in alignment"))) /\
  @nil Alignment = [].
Proof.
  assert (H : ReadSAMFile [hdLine; sqLine; alnLine] =
                Done (mkSAMFile (Some (mkHeaderLine "1.0" "coordinate")) (Some [chr1Record])
                        (Some []) (Some []) (Some [])
                        (Some (SAMerror "Invalid qname in alignment"))))
    by (vm_compute; reflexivity).
  exact (conj H (no_alignment_is_ever_returned _ _ [] H eq_refl)).
Defined.

(** X8. In whatever [ReadSAMFile] returns, no two reference sequences have
    the same name, no two read groups the same ID and no two programs the
    same ID. *)
Theorem returned_identifiers_are_unique (lines : list string) (r : SAMFile) :
  ReadSAMFile lines = Done r ->
  (forall L, ret_rsdl r = Some L -> NoDup (map Name L)) /\
  (forall L, ret_rgl r = Some L -> NoDup (map RG_ID L)) /\
  (forall L, ret_progl r = Some L -> NoDup (map PG_ID L)).
Proof.
  intros H.
  destruct (ReadSAMFile_from_state _ _ H)
    as (st & ((_ & Hq) & ((_ & Hg) & (_ & Hp)) & _) & (Rq & Rg & Rp & _)).
  repeat split; intros L HL.
  - rewrite (Rq _ HL). exact Hq.
  - rewrite (Rg _ HL). exact Hg.
  - rewrite (Rp _ HL). exact Hp.
Qed.

Lemma returned_identifiers_are_unique_witness :
  NoDup (map Name [chr1Record; mkRefSeqDict "chr2" 242193529 "" "" "" ""]) /\
  NoDup (map RG_ID [mkReadGroup "grp1" "" "" "" "" "" "" "" "" "ILLUMINA" "" "NA12878";
                    mkReadGroup "grp2" "" "" "" "" "" "" "" "" "" "" "NA12878"]) /\
  NoDup (map PG_ID [mkProgram "bwa" "bwa" "" ""; mkProgram "sort" "samtools" "" "bwa"]).
Proof.
  assert (H : ReadSAMFile
                [hdLine; sqLine; line ["@SQ"; "SN:chr2"; "LN:242193529"];
                 line ["@RG"; "ID:grp1"; "PL:ILLUMINA"; "SM:NA12878"];
                 line ["@RG"; "ID:grp2"; "SM:NA12878"];
                 line ["@PG"; "ID:bwa"; "PN:bwa"];
                 line ["@PG"; "ID:sort"; "PN:samtools"; "PP:bwa"];
                 alnLine] =
              Done (mkSAMFile (Some (mkHeaderLine "1.0" "coordinate"))
                      (Some [chr1Record; mkRefSeqDict "chr2" 242193529 "" "" "" ""])
                      (Some [mkReadGroup "grp1" "" "" "" "" "" "" "" "" "ILLUMINA" "" "NA12878";
                             mkReadGroup "grp2" "" "" "" "" "" "" "" "" "" "" "NA12878"])
                      (Some [mkProgram "bwa" "bwa" "" ""; mkProgram "sort" "samtools" "" "bwa"])
                      (Some [])
                      (Some (SAMerror "Invalid qname in alignment"))))
    by (vm_compute; reflexivity).
  destruct (returned_identifiers_are_unique _ _ H) as (Hq & Hg & Hp).
  exact (conj (Hq _ eq_refl) (conj (Hg _ eq_refl) (Hp _ eq_refl))).
Defined.

(** X9. Every record that [ReadSAMFile] returns passed its validator: the
    lengths of the reference sequences are in [1, 2^29 - 1], the read groups
    have an empty flow order, and the programs have an ID. *)
Theorem returned_records_are_valid (lines : list string) (r : SAMFile) :
  ReadSAMFile lines = Done r ->
  (forall L x, ret_rsdl r = Some L -> x ∈ L ->
     fst (validateRefSeqDict x) = true /\ 1 <= Length x <= 0x1FFFFFFF) /\
  (forall L x, ret_rgl r = Some L -> x ∈ L ->
     fst (validateReadGroup x) = true /\ FlowOrder x = "") /\
  (forall L x, ret_progl r = Some L -> x ∈ L ->
     fst (validateProgram x) = true /\ PG_ID x <> "").
Proof.
  intros H.
  destruct (ReadSAMFile_from_state _ _ H)
    as (st & (_ & _ & (Vq & Vg & Vp & _)) & (Rq & Rg & Rp & _)).
  rewrite Forall_forall in Vq. rewrite Forall_forall in Vg. rewrite Forall_forall in Vp.
  split; [|split]; intros L x HL Hx.
  - rewrite (Rq _ HL) in Hx. apply Vq in Hx. split; [exact Hx|].
    revert Hx. unfold validateRefSeqDict.
    destruct (regexpMatch _ _) as [[] e]; cbn [negb fst]; [|discriminate].
    rewrite andb_true_iff, Z.geb_le, Z.leb_le. tauto.
  - rewrite (Rg _ HL) in Hx. apply Vg in Hx. split; [exact Hx|].
    revert Hx. unfold validateReadGroup.
    change (regexpMatch "*|[ACMGRSVTWYHKDBN]+" (FlowOrder x))
      with (false, Some ErrMissingRepeatArgument).
    destruct (String.eqb_spec (FlowOrder x) ""); [tauto|]. cbn. discriminate.
  - rewrite (Rp _ HL) in Hx. apply Vp in Hx. split; [exact Hx|].
    revert Hx. unfold validateProgram.
    destruct (String.eqb_spec (PG_ID x) ""); [discriminate | tauto].
Qed.

Lemma returned_records_are_valid_witness :
  fst (validateRefSeqDict chr1Record) = true /\ 1 <= Length chr1Record <= 0x1FFFFFFF.
Proof.
  assert (H : ReadSAMFile [hdLine; sqLine; alnLine] =
                Done (mkSAMFile (Some (mkHeaderLine "1.0" "coordinate")) (Some [chr1Record])
                        (Some []) (Some []) (Some [])
                        (Some (SAMerror "Invalid qname in alignment"))))
    by (vm_compute; reflexivity).
  refine (proj1 (returned_records_are_valid _ _ H) [chr1Record] chr1Record eq_refl _).
  apply list_elem_of_In. left. reflexivity.
Defined.

(** ** The parsers and the validators *)

Lemma Split_fields_without_sep (s : string) (sep : ascii) :
  Forall (fun f => contains sep f = false) (Split s sep).
Proof.
  induction s as [|c s IH]; simpl; [repeat constructor|].
  destruct (Ascii.eqb c sep) eqn:Hc; [constructor; [reflexivity | exact IH]|].
  destruct (Split s sep) as [|h t]; [repeat constructor; simpl; rewrite Hc; reflexivity|].
  inversion IH; subst. constructor; [simpl; rewrite Hc; assumption | assumption].
Qed.

Lemma Split_with_sep (s : string) (sep : ascii) :
  contains sep s = true -> exists a b rest, Split s sep = a :: b :: rest.
Proof.
  induction s as [|c s IH]; simpl; [discriminate|].
  destruct (Ascii.eqb c sep) eqn:Hc; simpl.
  - intros _. destruct (Split s sep) as [|h t] eqn:Hs; [apply Split_not_nil in Hs; contradiction|].
    eauto.
  - intros H. destruct (IH H) as (a & b & rest & ->). eauto.
Qed.

Lemma sliceFrom1_Split (s : string) :
  sliceFrom1 (Split s TAB) = Done (tail (Split s TAB)).
Proof.
  destruct (Split s TAB) eqn:H; [apply Split_not_nil in H; contradiction | reflexivity].
Qed.

Lemma tagValueStep_with_colon {R : Type} (table : gmap string (string -> R -> R))
    (acc : R) (f : string) :
  contains COLON f = true -> exists acc', tagValueStep table acc f = Done acc'.
Proof.
  intros H. destruct (Split_with_sep _ _ H) as (a & b & rest & Hs).
  unfold tagValueStep. rewrite Hs. cbn [index lookup list_lookup mbind exec_bind].
  destruct (table !! a); eauto.
Qed.

Lemma refSeqStep_with_colon (acc : RefSeqDict) (f : string) :
  contains COLON f = true -> exists acc', refSeqStep acc f = Done acc'.
Proof.
  intros H. destruct (Split_with_sep _ _ H) as (a & b & rest & Hs).
  unfold refSeqStep. rewrite Hs. cbn [index lookup list_lookup mbind exec_bind].
  repeat match goal with
         | |- context [if ?b then _ else _] => destruct b
         end; try destruct (Atoi b); eauto.
Qed.

Lemma rangeM_total {R : Type} (body : R -> string -> exec R) (P : string -> Prop)
    (fs : list string) (acc : R) :
  (forall acc f, P f -> exists acc', body acc f = Done acc') ->
  Forall P fs -> exists r, rangeM body fs acc = Done r.
Proof.
  intros Hbody Hall. revert acc. induction Hall as [|f fs Hf _ IH]; intros acc; simpl; [eauto|].
  destruct (Hbody acc f Hf) as (acc' & ->). cbn [mbind exec_bind]. apply IH.
Qed.

Lemma rangeM_panic_exists {R : Type} (table : gmap string (string -> R -> R))
    (fs : list string) (acc : R) :
  Exists (fun f => contains COLON f = false) fs ->
  rangeM (tagValueStep table) fs acc = Panic IndexOutOfRange.
Proof.
  intros H. apply Exists_exists in H as (f & Hin & Hf).
  apply list_elem_of_split in Hin as (fs1 & fs2 & ->).
  apply rangeM_panic; [apply tagValueStep_only_fault | intros; apply tagValueStep_no_colon, Hf].
Qed.

(** X10. A metadata line in which every field after the tag contains a colon
    is parsed without a panic by the four metadata parsers; if one of these
    fields has no colon, the header, read-group and program parsers
    panic. *)
Theorem metadata_parsers_need_a_colon_in_every_field (s : string) :
  (Forall (fun f => contains COLON f = true) (tail (Split s TAB)) ->
   (exists hl, parseHeader s = Done hl) /\
   (exists rsd, parseRefSeqDict s = Done rsd) /\
   (exists rg, parseReadGroup s = Done rg) /\
   (exists prog, parseProgram s = Done prog)) /\
  (Exists (fun f => contains COLON f = false) (tail (Split s TAB)) ->
   parseHeader s = Panic IndexOutOfRange /\
   parseReadGroup s = Panic IndexOutOfRange /\
   parseProgram s = Panic IndexOutOfRange).
Proof.
  rewrite parseHeader_loop, parseReadGroup_loop, parseProgram_loop, parseRefSeqDict_loop.
  rewrite sliceFrom1_Split. cbn [mbind exec_bind]. split.
  - intros Hall. repeat split.
    + eapply rangeM_total; [|exact Hall]. intros; apply tagValueStep_with_colon; assumption.
    + eapply rangeM_total; [|exact Hall]. intros; apply refSeqStep_with_colon; assumption.
    + eapply rangeM_total; [|exact Hall]. intros; apply tagValueStep_with_colon; assumption.
    + eapply rangeM_total; [|exact Hall]. intros; apply tagValueStep_with_colon; assumption.
  - intros Hex. repeat split; apply rangeM_panic_exists; exact Hex.
Qed.

Lemma metadata_parsers_need_a_colon_in_every_field_witness :
  (exists hl, parseHeader hdLine = Done hl) /\
  parseProgram (line ["@PG"; "ID:bwa"; ""]) = Panic IndexOutOfRange.
Proof.
  split.
  - apply (proj1 (metadata_parsers_need_a_colon_in_every_field hdLine)).
    vm_compute. repeat constructor.
  - apply (proj2 (metadata_parsers_need_a_colon_in_every_field (line ["@PG"; "ID:bwa"; ""]))).
    vm_compute. right. left. reflexivity.
Defined.

(** X11. The alignment parser returns exactly when the line has eleven
    tab-separated fields or more, whatever the fields hold, and then only
    the first eleven count. *)
Theorem alignment_parser_reads_eleven_fields (s : string) :
  ((exists a, parseAlignment s = Done a) <-> (11 <= List.length (Split s TAB))%nat) /\
  ((11 <= List.length (Split s TAB))%nat ->
   parseAlignment s = parseAlignment (line (take 11 (Split s TAB)))).
Proof.
  destruct (le_lt_dec 11 (List.length (Split s TAB))) as [Hge|Hlt].
  - pose proof (Split_fields_without_sep s TAB) as Hns.
    destruct (Split s TAB) as [|f0 [|f1 [|f2 [|f3 [|f4 [|f5 [|f6 [|f7 [|f8 [|f9 [|f10 extra]]]]]]]]]]] eqn:Hs;
      simpl in Hge; try lia.
    assert (H1 := parseAlignment_fields s _ _ _ _ _ _ _ _ _ _ _ _ Hs).
    split; [split; [intros _; simpl; lia | intros _; eauto]|].
    intros _. rewrite H1. symmetry.
    apply parseAlignment_fields with (extra := []).
    unfold line. cbn [take]. apply Split_Join; [discriminate|].
    repeat (match goal with
            | H : Forall _ (_ :: _) |- _ => inversion H; subst; clear H
            end).
    repeat constructor; assumption.
  - rewrite (parseAlignment_short s Hlt). split; [|lia].
    split; [intros [a Ha]; discriminate | lia].
Qed.

Lemma alignment_parser_reads_eleven_fields_witness :
  parseAlignment (alnLine ++ String TAB "NM:i:1") = parseAlignment alnLine.
Proof.
  refine (proj2 (alignment_parser_reads_eleven_fields (alnLine ++ String TAB "NM:i:1")) _).
  vm_compute. lia.
Defined.

Lemma rangeM_invariant {R : Type} (body : R -> string -> exec R) (P : R -> Prop)
    (fs : list string) (acc r : R) :
  (forall acc f acc', P acc -> body acc f = Done acc' -> P acc') ->
  P acc -> rangeM body fs acc = Done r -> P r.
Proof.
  intros Hbody. revert acc. induction fs as [|f fs IH]; intros acc Hacc H; simpl in H.
  - injection H as <-. exact Hacc.
  - destruct (body acc f) as [acc'|] eqn:Hf; [|discriminate].
    cbn [mbind exec_bind] in H. eapply IH; [|exact H]. eapply Hbody; eassumption.
Qed.

(** X12. Whatever the line holds, the numbers of a parsed record are in the
    range of their Go types: uint16 for the flag, uint32 for the positions
    and for the length of a reference sequence, uint8 for the mapping
    quality, int32 for the template length. *)
Theorem parsed_numbers_fit_their_types (s : string) :
  (forall a, parseAlignment s = Done a ->
     0 <= Flag a < 2 ^ 16 /\ 0 <= Pos a < 2 ^ 32 /\ 0 <= Mapq a < 2 ^ 8 /\
     0 <= NextPos a < 2 ^ 32 /\ - 2 ^ 31 <= TemplateLen a < 2 ^ 31) /\
  (forall rsd, parseRefSeqDict s = Done rsd -> 0 <= Length rsd < 2 ^ 32).
Proof.
  split.
  - intros a Ha.
    destruct (le_lt_dec 11 (List.length (Split s TAB))) as [Hge|Hlt];
      [|rewrite (parseAlignment_short s Hlt) in Ha; discriminate].
    destruct (Split s TAB) as [|f0 [|f1 [|f2 [|f3 [|f4 [|f5 [|f6 [|f7 [|f8 [|f9 [|f10 extra]]]]]]]]]]] eqn:Hs;
      simpl in Hge; try lia.
    rewrite (parseAlignment_fields s _ _ _ _ _ _ _ _ _ _ _ _ Hs) in Ha.
    injection Ha as <-. cbn [Flag Pos Mapq NextPos TemplateLen].
    unfold uint16, uint32, uint8, int32.
    pose proof (Z.mod_pos_bound (storedInt f1) (2 ^ 16) ltac:(lia)).
    pose proof (Z.mod_pos_bound (storedInt f3) (2 ^ 32) ltac:(lia)).
    pose proof (Z.mod_pos_bound (storedInt f4) (2 ^ 8) ltac:(lia)).
    pose proof (Z.mod_pos_bound (storedInt f7) (2 ^ 32) ltac:(lia)).
    pose proof (Z.mod_pos_bound (storedInt f8 + 2 ^ 31) (2 ^ 32) ltac:(lia)).
    lia.
  - intros rsd H. rewrite parseRefSeqDict_loop, sliceFrom1_Split in H.
    cbn [mbind exec_bind] in H.
    eapply (rangeM_invariant refSeqStep (fun r => 0 <= Length r < 2 ^ 32)); [| |exact H];
      [|simpl; lia].
    intros acc f acc' Hacc. unfold refSeqStep.
    destruct (index (Split f COLON) 0) as [tag|]; [|discriminate]. cbn [mbind exec_bind].
    repeat match goal with
           | |- context [if ?b then _ else _] => destruct b
           end;
      destruct (index (Split f COLON) 1) as [v|]; cbn [mbind exec_bind];
      try discriminate; try destruct (Atoi v) as [n e];
      intros [= <-]; cbn [Length]; try exact Hacc.
    unfold uint32. apply Z.mod_pos_bound. lia.
Qed.

Lemma parsed_numbers_fit_their_types_witness :
  0 <= 65535 < 2 ^ 16 /\ 0 <= 7 < 2 ^ 32 /\ 0 <= 255 < 2 ^ 8 /\
  0 <= 37 < 2 ^ 32 /\ - 2 ^ 31 <= -1 < 2 ^ 31.
Proof.
  refine (proj1 (parsed_numbers_fit_their_types
                   (line ["r001"; "-1"; "chr1"; "7"; "-1"; "8M"; "="; "37"; "4294967295"; "TTAGATAA"; "*"]))
            (mkAlignment "r001" 65535 "chr1" 7 255 "8M" "=" 37 (-1) "TTAGATAA" "*") _).
  vm_compute. reflexivity.
Defined.

Lemma rangeM_same_step {R : Type} (body : R -> string -> exec R)
    (fs1 fs2 : list string) (f f' : string) (acc : R) :
  (forall acc', body acc' f = body acc' f') ->
  rangeM body (fs1 ++ f :: fs2) acc = rangeM body (fs1 ++ f' :: fs2) acc.
Proof.
  intros H. rewrite !rangeM_app.
  destruct (rangeM body fs1 acc) as [acc'|]; [|reflexivity].
  cbn [mbind exec_bind]. simpl. rewrite H. reflexivity.
Qed.

Lemma Split_key_value (key v : string) :
  contains COLON key = false -> contains COLON v = false ->
  Split (key ++ String COLON v) COLON = [key; v].
Proof.
  intros Hk Hv. rewrite Split_field_then_sep by exact Hk.
  rewrite Split_without_sep by exact Hv. reflexivity.
Qed.

Lemma Split_key_value_junk (key v junk : string) :
  contains COLON key = false -> contains COLON v = false ->
  Split (key ++ String COLON (v ++ String COLON junk)) COLON = key :: v :: Split junk COLON.
Proof.
  intros Hk Hv. rewrite Split_field_then_sep by exact Hk.
  rewrite Split_field_then_sep by exact Hv. reflexivity.
Qed.

(** X13. Of a field KEY:VALUE only the text between the first and the second
    colon is the value: what follows a second colon (the rest of a URI or of
    a command line, for instance) is dropped by all four metadata
    parsers. *)
Theorem value_is_cut_at_the_second_colon
    (t key v junk : string) (fs1 fs2 : list string) :
  Forall (fun f => contains TAB f = false) (t :: fs1 ++ fs2) ->
  contains TAB key = false -> contains TAB v = false -> contains TAB junk = false ->
  contains COLON key = false -> contains COLON v = false ->
  let long := line (t :: fs1 ++ (key ++ String COLON (v ++ String COLON junk)) :: fs2) in
  let short := line (t :: fs1 ++ (key ++ String COLON v) :: fs2) in
  parseHeader long = parseHeader short /\
  parseRefSeqDict long = parseRefSeqDict short /\
  parseReadGroup long = parseReadGroup short /\
  parseProgram long = parseProgram short.
Proof.
  intros Hall Hkt Hvt Hjt Hkc Hvc long short.
  assert (Hl : contains TAB (key ++ String COLON (v ++ String COLON junk)) = false).
  { rewrite contains_app. simpl. rewrite contains_app. simpl. rewrite Hkt, Hvt, Hjt. reflexivity. }
  assert (Hs : contains TAB (key ++ String COLON v) = false).
  { rewrite contains_app. simpl. rewrite Hkt, Hvt. reflexivity. }
  pose proof (line_fields _ _ (Forall_insert_field _ _ _ _ _ Hall Hl)) as L1.
  pose proof (line_fields _ _ (Forall_insert_field _ _ _ _ _ Hall Hs)) as L2.
  subst long short.
  rewrite !parseHeader_loop, !parseReadGroup_loop, !parseProgram_loop, !parseRefSeqDict_loop.
  rewrite L1, L2. cbn [mbind exec_bind].
  pose proof (Split_key_value key v Hkc Hvc) as S2.
  pose proof (Split_key_value_junk key v junk Hkc Hvc) as S1.
  repeat split; apply rangeM_same_step; intros acc;
    unfold tagValueStep, refSeqStep; rewrite S1, S2; reflexivity.
Qed.

Lemma value_is_cut_at_the_second_colon_witness :
  parseRefSeqDict (line ("@SQ" :: ["SN:chr1"] ++ ("UR" ++ String COLON ("http" ++ String COLON "//host/ref.fa")) :: ["LN:10"])) =
    Done (mkRefSeqDict "chr1" 10 "" "" "" "http").
Proof.
  assert (Hall : Forall (fun f => contains TAB f = false) ("@SQ" :: ["SN:chr1"] ++ ["LN:10"]))
    by (repeat constructor).
  destruct (value_is_cut_at_the_second_colon "@SQ" "UR" "http" "//host/ref.fa" ["SN:chr1"] ["LN:10"]
              Hall eq_refl eq_refl eq_refl eq_refl eq_refl) as (_ & H & _).
  etransitivity; [exact H|]. vm_compute. reflexivity.
Defined.

Lemma tagValueStep_known {R : Type} (table : gmap string (string -> R -> R))
    (key v : string) (f : string -> R -> R) (acc : R) :
  contains COLON key = false -> contains COLON v = false ->
  table !! key = Some f ->
  tagValueStep table acc (key ++ String COLON v) = Done (f v acc).
Proof.
  intros Hk Hv Hf. unfold tagValueStep. rewrite Split_key_value by assumption.
  cbn [index lookup list_lookup mbind exec_bind]. rewrite Hf. reflexivity.
Qed.

Lemma line_append_field (t f : string) (fs : list string) :
  Forall (fun x => contains TAB x = false) (t :: fs) -> contains TAB f = false ->
  sliceFrom1 (Split (line (t :: fs ++ [f])) TAB) = Done (fs ++ [f])%list.
Proof.
  intros Hall Hf. apply line_fields. inversion Hall; subst.
  constructor; [assumption|]. apply Forall_app. split; [assumption | repeat constructor; assumption].
Qed.

(** X14. A field KEY:VALUE with a known key, added at the end of a metadata
    line, sets the field of its key and leaves the record otherwise as the
    line without it is parsed: of two fields with the same key the later one
    counts. *)
Theorem appended_field_sets_its_key (t key v : string) (fs : list string) :
  Forall (fun x => contains TAB x = false) (t :: fs) ->
  plain key -> plain v ->
  (forall f, hlParseMap !! key = Some f ->
     parseHeader (line (t :: fs ++ [key ++ String COLON v])) =
       (hl ← parseHeader (line (t :: fs)); Done (f v hl))) /\
  (forall f, rgParseMap !! key = Some f ->
     parseReadGroup (line (t :: fs ++ [key ++ String COLON v])) =
       (rg ← parseReadGroup (line (t :: fs)); Done (f v rg))) /\
  (forall f, programParseMap !! key = Some f ->
     parseProgram (line (t :: fs ++ [key ++ String COLON v])) =
       (prog ← parseProgram (line (t :: fs)); Done (f v prog))).
Proof.
  intros Hall [Hkt Hkc] [Hvt Hvc].
  assert (Hf : contains TAB (key ++ String COLON v) = false).
  { rewrite contains_app. simpl. rewrite Hkt, Hvt. reflexivity. }
  rewrite !parseHeader_loop, !parseReadGroup_loop, !parseProgram_loop.
  rewrite (line_append_field _ _ _ Hall Hf), (line_fields _ _ Hall). cbn [mbind exec_bind].
  repeat split; intros f Hkey; rewrite rangeM_app;
    match goal with |- context [rangeM ?b fs ?a] => destruct (rangeM b fs a) as [acc|] end;
    cbn [mbind exec_bind rangeM]; [|reflexivity| |reflexivity| |reflexivity];
    rewrite (tagValueStep_known _ key v f acc Hkc Hvc Hkey); reflexivity.
Qed.

Lemma appended_field_sets_its_key_witness :
  parseHeader (line ("@HD" :: ["VN:1.0"; "SO:unsorted"] ++ ["VN" ++ String COLON "1.4"])) =
    Done (mkHeaderLine "1.4" "unsorted").
Proof.
  assert (Hall : Forall (fun x => contains TAB x = false) ["@HD"; "VN:1.0"; "SO:unsorted"])
    by (repeat constructor).
  destruct (appended_field_sets_its_key "@HD" "VN" "1.4" ["VN:1.0"; "SO:unsorted"] Hall
              (conj eq_refl eq_refl) (conj eq_refl eq_refl)) as (H & _).
  etransitivity; [apply H; vm_compute; reflexivity|]. vm_compute. reflexivity.
Defined.

(** X15. A header, a program or a read group written as a line, one field
    KEY:VALUE per field of the record, is parsed back as it was, as long as
    its values have no tab and no colon. *)
Theorem written_records_parse_back (hl : HeaderLine) (prog : Program) (rg : ReadGroup) :
  (plain (Version hl) -> plain (SortOrder hl) -> parseHeader (writeHeader hl) = Done hl) /\
  (plain (PG_ID prog) -> plain (PG_Name prog) -> plain (CmdLine prog) -> plain (PrevID prog) ->
   parseProgram (writeProgram prog) = Done prog) /\
  (Forall plain [RG_ID rg; SeqCenter rg; Description rg; Date rg; FlowOrder rg; KeySeq rg;
                 Lib rg; Programs rg; PMIS rg; Platform rg; Unit rg; Sample rg] ->
   parseReadGroup (writeReadGroup rg) = Done rg).
Proof.
  assert (Hkv' : forall k v, contains TAB k = false -> plain v ->
                             contains TAB (k ++ v) = false).
  { intros k v Hk [Hv _]. rewrite contains_app, Hk, Hv. reflexivity. }
  split; [|split].
  - intros H1 H2. destruct hl as [ver so]. simpl in *.
    rewrite parseHeader_loop. unfold writeHeader. cbn [Version SortOrder].
    rewrite line_fields.
    2:{ repeat (constructor;
                [first [reflexivity | apply Hkv'; [reflexivity | assumption]]|]).
        constructor. }
    cbn [mbind exec_bind rangeM].
    rewrite (tagValueStep_known hlParseMap "VN" ver _ _ eq_refl (proj2 H1) eq_refl).
    cbn [mbind exec_bind].
    rewrite (tagValueStep_known hlParseMap "SO" so _ _ eq_refl (proj2 H2) eq_refl).
    reflexivity.
  - intros H1 H2 H3 H4. destruct prog as [i n c p]. simpl in *.
    rewrite parseProgram_loop. unfold writeProgram. cbn [PG_ID PG_Name CmdLine PrevID].
    rewrite line_fields.
    2:{ repeat (constructor;
                [first [reflexivity | apply Hkv'; [reflexivity | assumption]]|]).
        constructor. }
    cbn [mbind exec_bind rangeM].
    rewrite (tagValueStep_known programParseMap "ID" i _ _ eq_refl (proj2 H1) eq_refl).
    cbn [mbind exec_bind].
    rewrite (tagValueStep_known programParseMap "PN" n _ _ eq_refl (proj2 H2) eq_refl).
    cbn [mbind exec_bind].
    rewrite (tagValueStep_known programParseMap "CL" c _ _ eq_refl (proj2 H3) eq_refl).
    cbn [mbind exec_bind].
    rewrite (tagValueStep_known programParseMap "PP" p _ _ eq_refl (proj2 H4) eq_refl).
    reflexivity.
  - intros Hall. destruct rg as [a1 a2 a3 a4 a5 a6 a7 a8 a9 a10 a11 a12].
    cbn [RG_ID SeqCenter Description Date FlowOrder KeySeq Lib Programs PMIS Platform Unit Sample] in Hall.
    apply Forall_cons in Hall as [P1 Hall].
    apply Forall_cons in Hall as [P2 Hall].
    apply Forall_cons in Hall as [P3 Hall].
    apply Forall_cons in Hall as [P4 Hall].
    apply Forall_cons in Hall as [P5 Hall].
    apply Forall_cons in Hall as [P6 Hall].
    apply Forall_cons in Hall as [P7 Hall].
    apply Forall_cons in Hall as [P8 Hall].
    apply Forall_cons in Hall as [P9 Hall].
    apply Forall_cons in Hall as [P10 Hall].
    apply Forall_cons in Hall as [P11 Hall].
    apply Forall_cons in Hall as [P12 Hall].
    rewrite parseReadGroup_loop. unfold writeReadGroup.
    cbn [RG_ID SeqCenter Description Date FlowOrder KeySeq Lib Programs PMIS Platform Unit Sample].
    rewrite line_fields.
    2:{ repeat (constructor;
                [first [reflexivity | apply Hkv'; [reflexivity | assumption]]|]).
        constructor. }
    cbn [mbind exec_bind rangeM].
    rewrite (tagValueStep_known rgParseMap "ID" a1 _ _ eq_refl (proj2 P1) eq_refl).
    cbn [mbind exec_bind].
    rewrite (tagValueStep_known rgParseMap "CN" a2 _ _ eq_refl (proj2 P2) eq_refl).
    cbn [mbind exec_bind].
    rewrite (tagValueStep_known rgParseMap "DS" a3 _ _ eq_refl (proj2 P3) eq_refl).
    cbn [mbind exec_bind].
    rewrite (tagValueStep_known rgParseMap "DT" a4 _ _ eq_refl (proj2 P4) eq_refl).
    cbn [mbind exec_bind].
    rewrite (tagValueStep_known rgParseMap "FO" a5 _ _ eq_refl (proj2 P5) eq_refl).
    cbn [mbind exec_bind].
    rewrite (tagValueStep_known rgParseMap "KS" a6 _ _ eq_refl (proj2 P6) eq_refl).
    cbn [mbind exec_bind].
    rewrite (tagValueStep_known rgParseMap "LB" a7 _ _ eq_refl (proj2 P7) eq_refl).
    cbn [mbind exec_bind].
    rewrite (tagValueStep_known rgParseMap "PG" a8 _ _ eq_refl (proj2 P8) eq_refl).
    cbn [mbind exec_bind].
    rewrite (tagValueStep_known rgParseMap "PI" a9 _ _ eq_refl (proj2 P9) eq_refl).
    cbn [mbind exec_bind].
    rewrite (tagValueStep_known rgParseMap "PL" a10 _ _ eq_refl (proj2 P10) eq_refl).
    cbn [mbind exec_bind].
    rewrite (tagValueStep_known rgParseMap "PU" a11 _ _ eq_refl (proj2 P11) eq_refl).
    cbn [mbind exec_bind].
    rewrite (tagValueStep_known rgParseMap "SM" a12 _ _ eq_refl (proj2 P12) eq_refl).
    reflexivity.
Qed.

Lemma written_records_parse_back_witness :
  parseProgram (writeProgram (mkProgram "bwa" "bwa" "bwa mem -t 4 ref.fa reads.fq" "")) =
    Done (mkProgram "bwa" "bwa" "bwa mem -t 4 ref.fa reads.fq" "").
Proof.
  apply (proj1 (proj2 (written_records_parse_back (mkHeaderLine "" "")
                         (mkProgram "bwa" "bwa" "bwa mem -t 4 ref.fa reads.fq" "")
                         (mkReadGroup "" "" "" "" "" "" "" "" "" "" "" ""))));
    split; reflexivity.
Defined.

(** X16. The name check of [validateRefSeqDict] is not anchored: a name passes
    as soon as one of its runes is in the first class of the pattern, and
    the result is then the range check of the length, with no error; a name
    without such a rune (the empty name, for instance) is reported as
    "Invalid reference sequence name", whatever the length. *)
Theorem reference_name_needs_one_rune_of_the_class (rsd : RefSeqDict) :
  ((exists c, c ∈ runes (Name rsd) /\ inRanges c nameStart = true) ->
   validateRefSeqDict rsd = ((Length rsd >=? 1) && (Length rsd <=? 0x1FFFFFFF), None)) /\
  ((forall c, c ∈ runes (Name rsd) -> inRanges c nameStart = false) ->
   validateRefSeqDict rsd = (false, Some (SAMerror "Invalid reference sequence name"))).
Proof.
  pose proof (name_pattern_spec (Name rsd)) as Hspec.
  unfold validateRefSeqDict.
  destruct (regexpMatch "[!-)+-<>-~][!-~]*" (Name rsd)) as [[] e]; cbn [negb fst] in *.
  - split; [reflexivity|]. intros Hnone.
    destruct (proj1 Hspec eq_refl) as (c & Hin & Hc). rewrite (Hnone c Hin) in Hc. discriminate.
  - split; [|reflexivity]. intros Hex. apply Hspec in Hex. discriminate.
Qed.

Lemma reference_name_needs_one_rune_of_the_class_witness :
  validateRefSeqDict (mkRefSeqDict "* chr 1" 10 "" "" "" "") = (true, None) /\
  validateRefSeqDict (mkRefSeqDict "" 10 "" "" "" "") =
    (false, Some (SAMerror "Invalid reference sequence name")).
Proof.
  split.
  - apply (proj1 (reference_name_needs_one_rune_of_the_class (mkRefSeqDict "* chr 1" 10 "" "" "" ""))).
    exists 99. split; [|reflexivity]. vm_compute. apply list_elem_of_In. simpl. tauto.
  - apply (proj2 (reference_name_needs_one_rune_of_the_class (mkRefSeqDict "" 10 "" "" "" ""))).
    intros c Hc. vm_compute in Hc. inversion Hc.
Defined.

(** ** The earlier revision *)

Lemma Rev1_iteration_collects (st st' : Rev1.lists) (s : string) :
  Rev1.iteration st s = Done st' ->
  Rev1.header st' = lastHeader [s] (Rev1.header st) /\
  Rev1.rsdl st' = (Rev1.rsdl st ++ recordsOf RefSeq parseRefSeqDict [s])%list /\
  Rev1.rgl st' = (Rev1.rgl st ++ recordsOf ReadGrp parseReadGroup [s])%list /\
  Rev1.progl st' = (Rev1.progl st ++ recordsOf Prog parseProgram [s])%list /\
  Rev1.al st' = (Rev1.al st ++ recordsOf Align parseAlignment [s])%list.
Proof.
  unfold Rev1.iteration. intros H.
  destruct (slice_1_3 s) as [tag|] eqn:Htag; [|discriminate].
  assert (Hc : classify s = Done (typeOfTag tag)) by (unfold classify; rewrite Htag; reflexivity).
  cbn [mbind exec_bind] in H. unfold typeOfTag in Hc. revert H Hc.
  tag_cases tag; intros H Hc.
  - destruct (parseHeader s) as [hl|] eqn:Hp; [|discriminate]. injection H as <-.
    cbn [Rev1.header Rev1.rsdl Rev1.rgl Rev1.progl Rev1.al].
    other_records Hc. simpl. rewrite Hc, Hp. tauto.
  - destruct (parseRefSeqDict s) as [r|] eqn:Hp; [|discriminate]. injection H as <-.
    cbn [Rev1.header Rev1.rsdl Rev1.rgl Rev1.progl Rev1.al].
    rewrite (recordsOf_same _ _ _ _ Hc Hp), (lastHeader_other _ _ _ Hc) by discriminate.
    other_records Hc. tauto.
  - destruct (parseReadGroup s) as [r|] eqn:Hp; [|discriminate]. injection H as <-.
    cbn [Rev1.header Rev1.rsdl Rev1.rgl Rev1.progl Rev1.al].
    rewrite (recordsOf_same _ _ _ _ Hc Hp), (lastHeader_other _ _ _ Hc) by discriminate.
    other_records Hc. tauto.
  - destruct (parseProgram s) as [r|] eqn:Hp; [|discriminate]. injection H as <-.
    cbn [Rev1.header Rev1.rsdl Rev1.rgl Rev1.progl Rev1.al].
    rewrite (recordsOf_same _ _ _ _ Hc Hp), (lastHeader_other _ _ _ Hc) by discriminate.
    other_records Hc. tauto.
  - injection H as <-.
    rewrite (lastHeader_other _ _ _ Hc) by discriminate.
    other_records Hc. tauto.
  - destruct (parseAlignment s) as [r|] eqn:Hp; [|discriminate]. injection H as <-.
    cbn [Rev1.header Rev1.rsdl Rev1.rgl Rev1.progl Rev1.al].
    rewrite (recordsOf_same _ _ _ _ Hc Hp), (lastHeader_other _ _ _ Hc) by discriminate.
    other_records Hc. tauto.
Qed.

Lemma lastHeader_cons (s : string) (rest : list string) (h0 : option HeaderLine) :
  lastHeader (s :: rest) h0 = lastHeader rest (lastHeader [s] h0).
Proof.
  simpl. destruct (classify s) as [[]|]; try reflexivity.
  destruct (parseHeader s); reflexivity.
Qed.

Lemma Rev1_scanLines_collects (lines : list string) (st st' : Rev1.lists) :
  Rev1.scanLines st lines = Done st' ->
  Rev1.header st' = lastHeader lines (Rev1.header st) /\
  Rev1.rsdl st' = (Rev1.rsdl st ++ recordsOf RefSeq parseRefSeqDict lines)%list /\
  Rev1.rgl st' = (Rev1.rgl st ++ recordsOf ReadGrp parseReadGroup lines)%list /\
  Rev1.progl st' = (Rev1.progl st ++ recordsOf Prog parseProgram lines)%list /\
  Rev1.al st' = (Rev1.al st ++ recordsOf Align parseAlignment lines)%list.
Proof.
  unfold Rev1.scanLines. revert st.
  induction lines as [|s lines IH]; intros st H; simpl in H.
  - injection H as <-. unfold recordsOf. simpl. rewrite !app_nil_r. tauto.
  - destruct (Rev1.iteration st s) as [st1|] eqn:Hs; [|discriminate].
    cbn [mbind exec_bind] in H.
    destruct (Rev1_iteration_collects _ _ _ Hs) as (Hh & Hq & Hg & Hp & Ha).
    destruct (IH _ H) as (Hh' & Hq' & Hg' & Hp' & Ha').
    change (s :: lines) with ([s] ++ lines)%list.
    rewrite !recordsOf_app, !app_assoc, <- Hq, <- Hg, <- Hp, <- Ha.
    change ([s] ++ lines)%list with (s :: lines). rewrite lastHeader_cons, <- Hh. tauto.
Qed.

(** The loop of the earlier revision keeps the records of all the lines it
    receives. *)
Lemma Rev1_ReadSAMFile_collects (lines : list string) (r : SAMFile) :
  Rev1.ReadSAMFile lines = Done r ->
  r = mkSAMFile (lastHeader lines None)
        (Some (recordsOf RefSeq parseRefSeqDict lines))
        (Some (recordsOf ReadGrp parseReadGroup lines))
        (Some (recordsOf Prog parseProgram lines))
        (Some (recordsOf Align parseAlignment lines)) None.
Proof.
  unfold Rev1.ReadSAMFile. intros H.
  destruct (Rev1.scanLines Rev1.lists0 lines) as [st|] eqn:Hs; [|discriminate].
  cbn [mbind exec_bind] in H. injection H as <-.
  destruct (Rev1_scanLines_collects _ _ _ Hs) as (Hh & Hq & Hg & Hp & Ha).
  simpl in Hh, Hq, Hg, Hp, Ha. rewrite Hh, Hq, Hg, Hp, Ha. reflexivity.
Qed.

(** X17. The [ReadSAMFile] of the earlier revision returns no error but the
    one of [os.Open], with the five other values unset: once the file is
    open, when it returns, it returns the last header and the records of all
    the lines it read, alignments included, type by type in the order of the
    file, and no error. *)
Theorem earlier_revision_keeps_every_record
    (fs : os.fileSystem) (fileName : string) (r : returned) :
  Rev1_ReadSAMFileAt fs fileName = Done r ->
  match fs fileName with
  | inl errno =>
      r = mkReturned None None None None None
            (Some (OpenError (os.mkPathError "open" fileName errno)))
  | inr file =>
      let lines := bufio.deliveries file in
      r = mkReturned (lastHeader lines None)
            (Some (recordsOf RefSeq parseRefSeqDict lines))
            (Some (recordsOf ReadGrp parseReadGroup lines))
            (Some (recordsOf Prog parseProgram lines))
            (Some (recordsOf Align parseAlignment lines)) None
  end.
Proof.
  unfold Rev1_ReadSAMFileAt, openAndScan, os.Open. intros H.
  destruct (fs fileName) as [errno|file].
  - injection H as <-. reflexivity.
  - destruct (Rev1.ReadSAMFile (bufio.deliveries file)) as [r0|] eqn:H0; [|discriminate].
    cbn [mbind exec_bind] in H. injection H as <-.
    rewrite (Rev1_ReadSAMFile_collects _ _ H0). reflexivity.
Qed.

Lemma earlier_revision_keeps_every_record_witness :
  match oneFile (fileOf [hdLine; sqLine; alnLine]) "reads.sam" with
  | inl errno =>
      mkReturned (Some (mkHeaderLine "1.0" "coordinate")) (Some [chr1Record]) (Some [])
        (Some [])
        (Some [mkAlignment "r001" 99 "chr1" 7 30 "8M" "=" 37 39 "TTAGATAA" "*"]) None =
      mkReturned None None None None None
        (Some (OpenError (os.mkPathError "open" "reads.sam" errno)))
  | inr file =>
      let lines := bufio.deliveries file in
      mkReturned (Some (mkHeaderLine "1.0" "coordinate")) (Some [chr1Record]) (Some [])
        (Some [])
        (Some [mkAlignment "r001" 99 "chr1" 7 30 "8M" "=" 37 39 "TTAGATAA" "*"]) None =
      mkReturned (lastHeader lines None)
        (Some (recordsOf RefSeq parseRefSeqDict lines))
        (Some (recordsOf ReadGrp parseReadGroup lines))
        (Some (recordsOf Prog parseProgram lines))
        (Some (recordsOf Align parseAlignment lines)) None
  end.
Proof.
  apply (earlier_revision_keeps_every_record
           (oneFile (fileOf [hdLine; sqLine; alnLine])) "reads.sam").
  vm_compute. reflexivity.
Defined.

Lemma Rev1_simulates (st st' : scan) (s : string) :
  iteration st s = Done (Next st') ->
  Rev1.iteration (listsOf st) s = Done (listsOf st').
Proof.
  unfold iteration, Rev1.iteration. intros H.
  destruct (slice_1_3 s) as [tag|]; [|discriminate].
  cbn [mbind exec_bind] in *. revert H.
  tag_cases tag; intros H.
  - destruct (parseHeader s) as [hl|]; [|discriminate]. cbn [mbind exec_bind] in *.
    destruct (validateHeader hl) as [[] e]; cbn [negb] in H; [|discriminate].
    injection H as <-. reflexivity.
  - destruct (parseRefSeqDict s) as [r|]; [|discriminate]. cbn [mbind exec_bind] in *.
    destruct (validateRefSeqDict r) as [[] e]; cbn [negb] in H; [|discriminate].
    destruct (lookupBool _ _); [discriminate|]. injection H as <-. reflexivity.
  - destruct (parseReadGroup s) as [r|]; [|discriminate]. cbn [mbind exec_bind] in *.
    destruct (validateReadGroup r) as [[] e]; cbn [negb] in H; [|discriminate].
    destruct (lookupBool _ _); [discriminate|]. injection H as <-. reflexivity.
  - destruct (parseProgram s) as [r|]; [|discriminate]. cbn [mbind exec_bind] in *.
    destruct (validateProgram r) as [[] e]; cbn [negb] in H; [|discriminate].
    destruct (lookupBool _ _); [discriminate|]. injection H as <-. reflexivity.
  - injection H as <-. reflexivity.
  - destruct (parseAlignment s) as [a|]; [|discriminate]. cbn [mbind exec_bind] in *.
    rewrite validateAlignment_rejects in H. discriminate.
Qed.

Lemma Rev1_simulates_scan (lines : list string) (st st' : scan) :
  scanLines st lines = Done (Next st') ->
  Rev1.scanLines (listsOf st) lines = Done (listsOf st').
Proof.
  unfold Rev1.scanLines. revert st.
  induction lines as [|s lines IH]; intros st H; simpl in H |- *.
  - injection H as <-. reflexivity.
  - destruct (iteration st s) as [[st1|r]|f] eqn:Hs; cbn [mbind exec_bind] in H; try discriminate.
    rewrite (Rev1_simulates _ _ _ Hs). cbn [mbind exec_bind]. apply IH, H.
Qed.

(** X18. When the later [ReadSAMFile] goes through all the lines of a file,
    the earlier one returns the same six values for it. *)
Theorem revisions_agree_on_accepted_files (lines : list string) (r : SAMFile) :
  ReadSAMFile lines = Done r -> ret_err r = None -> ret_al r <> None ->
  Rev1.ReadSAMFile lines = Done r.
Proof.
  rewrite ReadSAMFile_scanLines. intros H He Ha.
  destruct (scanLines scan0 lines) as [[st|r']|] eqn:Hc; cbn [mbind exec_bind] in H;
    try discriminate; injection H as <-.
  - unfold Rev1.ReadSAMFile.
    change Rev1.lists0 with (listsOf scan0).
    rewrite (Rev1_simulates_scan _ _ _ Hc). reflexivity.
  - destruct (proj1 (scanLines_return_shape _ _ _ Hc)); contradiction.
Qed.

Lemma revisions_agree_on_accepted_files_witness :
  Rev1.ReadSAMFile [hdLine; sqLine; line ["@PG"; "ID:bwa"]] =
    Done (mkSAMFile (Some (mkHeaderLine "1.0" "coordinate")) (Some [chr1Record]) (Some [])
            (Some [mkProgram "bwa" "" "" ""]) (Some []) None).
Proof.
  apply revisions_agree_on_accepted_files.
  - vm_compute. reflexivity.
  - reflexivity.
  - discriminate.
Defined.

(** X19. The validators of the later revision say valid exactly when those of
    the earlier revision return true, but for read groups, where the later
    revision also wants the platform to be empty or one of the seven
    names. *)
Theorem later_validators_refine_earlier
    (hl : HeaderLine) (rsd : RefSeqDict) (rg : ReadGroup) (prog : Program) :
  fst (validateHeader hl) = Rev1.validateHeader hl /\
  fst (validateRefSeqDict rsd) = Rev1.validateRefSeqDict rsd /\
  fst (validateProgram prog) = Rev1.validateProgram prog /\
  (fst (validateReadGroup rg) = true <->
   Rev1.validateReadGroup rg = true /\ (Platform rg = "" \/ Platform rg ∈ platformNames)).
Proof.
  split; [|split; [|split]].
  - unfold validateHeader, Rev1.validateHeader.
    destruct (regexpMatch _ _) as [[] e]; reflexivity.
  - unfold validateRefSeqDict, Rev1.validateRefSeqDict.
    destruct (regexpMatch _ _) as [[] e]; reflexivity.
  - unfold validateProgram, Rev1.validateProgram.
    destruct (String.eqb _ _); reflexivity.
  - unfold validateReadGroup, Rev1.validateReadGroup.
    destruct (if negb (String.eqb (FlowOrder rg) "") then _ else true); cbn [negb fst].
    + destruct (String.eqb_spec (Platform rg) "") as [Hpl|Hpl]; cbn [negb fst]; [tauto|].
      destruct (lookupBool validPlatforms (Platform rg)) eqn:Hv; cbn [negb fst].
      * apply validPlatforms_names in Hv. tauto.
      * split; [discriminate|]. intros [_ [?|Hin]]; [contradiction|].
        apply validPlatforms_names in Hin. congruence.
    + split; [discriminate | intros [? _]; discriminate].
Qed.
